(** * Ziwio seed node: ledger store, sync engine and block relay

    A shallow embedding of the node server (the file with
    [handleSyncRequest], [handleBlockBroadcast], [storeTransaction],
    [calculateBalance], [saveBlockchain], [loadBlockchain] and
    [createGenesisBlock]) together with the properties of its ledger.

    Conventions of the embedding.
    - A JavaScript number that comes out of JSON (heights, amounts, fees,
      time stamps, the limits of a request) is an IEEE 754 double, the
      primitive [float] of Rocq: [number].  It can be a fraction, [-0] or
      an infinity ([JSON.parse] reads [1e999] as [Infinity]), and sums
      round as they do in the program.  What the server counts itself
      (messages sent, sizes, lengths) and the readings of its clock are
      integers, in [Z].
    - An object field that may be missing is an [option]; [None] stands for
      a field that is absent or [null].  The code never tells the two
      apart (it only tests truthiness, uses [?.] or [||]), except for a
      block's [hash], which is used as a [Map] key and therefore keeps the
      cases apart ([HashKey]).
    - A [Map] is kept in insertion order, as in JavaScript.
    - What the node sends (a sync response, a status envelope, the answer
      of an HTTP route) is the object that the code hands to
      [JSON.stringify] or [res.json]; what it writes to the snapshot file
      is what [JSON.parse] reads back from that file, so a number that is
      not finite is [null] there.
    - Payloads are read at the type their handler expects ([Block],
      [Transaction], [SyncRequest]); a payload that does not decode makes
      the handler throw into its own [catch].  Two shapes that a block
      can have against that type are kept, because [handleBlockBroadcast]
      stores such a block before it throws: a [transactions] property
      that is there and is no array, and a [hash] that is a number or a
      boolean.  A [hash] that is an object or an array would be a key by
      reference; the embedding has no such block.
    - Where two objects of the source have a property of the same name,
      one of them carries a prefix here: [blockchain.transactions] is
      [txs], [blockchain.height] is [chain_height], and the [id], [type]
      and [timestamp] of transactions and envelopes are [tx_id], [msg_id]
      and so on. *)

From Stdlib Require Import List ZArith Bool String Ascii Lia Sorted Floats.
From Stdlib Require DecimalString.
Import ListNotations.
Local Open Scope string_scope.
Local Open Scope list_scope.
Local Open Scope Z_scope.

(* ================================================================== *)
(** ** JavaScript [Map]: an insertion-ordered table *)

(** Keys are compared with a boolean test ([SameValueZero] on the key
    types used here). *)
Class KeyEq (K : Type) := { keq : K -> K -> bool }.

Class KeyEqLaws (K : Type) `{KeyEq K} := {
  keq_spec : forall a b : K, keq a b = true <-> a = b
}.

#[export] Instance KeyEq_string : KeyEq string := {| keq := String.eqb |}.

Module JSMap.
Section Table.
Context {K V : Type} `{KeyEq K}.

(** The entries in insertion order; a well-formed table has no key twice. *)
Definition t := list (K * V).

Definition empty : t := [].

Fixpoint get (k : K) (m : t) : option V :=
  match m with
  | [] => None
  | (k', v) :: rest => if keq k k' then Some v else get k rest
  end.

Definition has (k : K) (m : t) : bool :=
  match get k m with Some _ => true | None => false end.

(** [m.set(k, v)]: an existing key keeps its place, a new key goes last. *)
Fixpoint set (k : K) (v : V) (m : t) : t :=
  match m with
  | [] => [(k, v)]
  | (k', v') :: rest =>
      if keq k k' then (k', v) :: rest else (k', v') :: set k v rest
  end.

Definition entries (m : t) : list (K * V) := m.
Definition keys (m : t) : list K := map fst m.
Definition values (m : t) : list V := map snd m.
Definition size (m : t) : Z := Z.of_nat (List.length m).

(** [new Map(iterable)]: the entries are [set] one after the other. *)
Definition of_entries (l : list (K * V)) : t :=
  fold_left (fun m kv => set (fst kv) (snd kv) m) l empty.

(** A [Map] never holds a key twice. *)
Definition wf (m : t) : Prop := NoDup (keys m).

End Table.
Arguments t : clear implicits.
Arguments t K V : assert.
End JSMap.

(* ================================================================== *)
(** ** JavaScript numbers *)

Definition number : Set := float.
Bind Scope float_scope with number.

Module Number.

(** [x < y] and [x <= y]; both are false as soon as one side is [NaN]. *)
Definition lt (x y : number) : Prop := (x <? y)%float = true.
Definition le (x y : number) : Prop := (x <=? y)%float = true.

(** The falsy numbers: [0], [-0] and [NaN]. *)
Definition falsy (x : number) : bool := PrimFloat.is_zero x || PrimFloat.is_nan x.

Definition negative_zero (x : number) : bool := PrimFloat.is_zero x && PrimFloat.get_sign x.

(** A number that JSON gives back as it is: finite, and not [-0]. *)
Definition plain (x : number) : bool := PrimFloat.is_finite x && negb (negative_zero x).

Inductive IntegerOrInfinity : Set :=
| NegInfinity
| Integer (z : Z)
| PosInfinity.

(** [ToIntegerOrInfinity(x)], which [slice] applies to its arguments:
    [NaN] gives 0, a fraction is cut off towards 0. *)
Definition to_integer (x : number) : IntegerOrInfinity :=
  match Prim2SF x with
  | S754_nan | S754_zero _ => Integer 0
  | S754_infinity s => if s then NegInfinity else PosInfinity
  | S754_finite s m e => Integer (cond_Zopp s (Z.shiftl (Zpos m) e))
  end.

(** The comparison of two numbers; [None] when one of them is [NaN]. *)
Definition compare (x y : number) : option comparison :=
  SFcompare (Prim2SF x) (Prim2SF y).

(** The number for an integer (the nearest double; the integer itself
    up to 2^53). *)
Definition of_Z (z : Z) : number := SF2Prim (binary_normalize prec emax z 0 false).

(** [n <= i] for a length [n]. *)
Definition within (n : nat) (i : IntegerOrInfinity) : Prop :=
  match i with
  | NegInfinity => False
  | Integer z => Z.of_nat n <= z
  | PosInfinity => True
  end.

End Number.

Declare Scope num_scope.
Delimit Scope num_scope with num.
Notation "x < y" := (Number.lt x y) : num_scope.
Notation "x <= y" := (Number.le x y) : num_scope.

(** [Math.max(x, y)]: [NaN] if one of the two is, and [0] rather than
    [-0]. *)
Definition Math_max (x y : number) : number :=
  if PrimFloat.is_nan x || PrimFloat.is_nan y then nan
  else if (x <? y)%float then y
  else if (y <? x)%float then x
  else if PrimFloat.get_sign x then y else x.

(* ================================================================== *)
(** ** Data model *)

(** The value of a block's [hash] property: missing ([undefined]), [null],
    a string, or a number or boolean, which is named by its text
    ([String(hash)]: ["5"], ["true"], ["Infinity"]).  It is the key of the
    block table; two numbers are the same key exactly when their texts are
    the same. *)
Inductive HashKey : Type :=
| HUndefined
| HNull
| HStr (s : string)
| HOther (text : string).

Definition HashKey_eqb (a b : HashKey) : bool :=
  match a, b with
  | HUndefined, HUndefined => true
  | HNull, HNull => true
  | HStr s, HStr s' => String.eqb s s'
  | HOther t, HOther t' => String.eqb t t'
  | _, _ => false
  end.

#[export] Instance KeyEq_HashKey : KeyEq HashKey := {| keq := HashKey_eqb |}.

(** A leaf of a transaction's opaque [data] payload. *)
Inductive DataValue : Type :=
| DStr (s : string)
| DNum (n : number)
| DNull.

Record Transaction : Type := mkTransaction {
  tx_id : option string;
  tx_type : option string;
  fromAddress : option string;
  toAddress : option string;
  amount : option number;
  fee : option number;
  tx_timestamp : option number;
  tx_data : list (string * DataValue)
}.

Record Header : Type := mkHeader {
  height : option number;
  index : option number;
  timestamp : option number;
  h_previousHash : option string;
  merkleRoot : option string
}.

(** The [transactions] property of a block when it is truthy: an array,
    whose entries may be [null] (hence the [option]), or something else
    (a number, a string, an object), which has no [forEach]. *)
Inductive TransactionList : Type :=
| Transactions (l : list (option Transaction))
| NotAnArray.

Record Block : Type := mkBlock {
  hash : HashKey;
  header : option Header;
  transactions : option TransactionList;
  previousHash : option string
}.

(** The global [blockchain] object.  Its [height] starts as [0]; a
    snapshot can load it as [null] ([None]). *)
Record Blockchain : Type := mkBlockchain {
  blocks : JSMap.t HashKey Block;
  txs : JSMap.t string Transaction;
  chain_height : option number;
  tips : list string;
  txByAddress : JSMap.t string (list string);
  genesisHash : option string
}.

Definition emptyBlockchain : Blockchain :=
  {| blocks := JSMap.empty; txs := JSMap.empty; chain_height := Some 0%float;
     tips := []; txByAddress := JSMap.empty; genesisHash := None |}.

(** *** Truthiness and defaults *)

(** A string-valued property is truthy when it is there and not empty. *)
Definition truthy (o : option string) : option string :=
  match o with
  | Some s => if String.eqb s "" then None else Some s
  | None => None
  end.

(** [x || d] for a numeric property: a missing one and a falsy one
    ([0], [-0], [NaN]) give [d]. *)
Definition number_or (o : option number) (d : number) : number :=
  match o with
  | Some n => if Number.falsy n then d else n
  | None => d
  end.

(** [parseInt(text) || d]: [parseInt] gives an integer, or [NaN]
    ([None]). *)
Definition num_or (o : option Z) (d : Z) : Z :=
  match o with
  | Some n => if n =? 0 then d else n
  | None => d
  end.

(** [Number(x)] for a property that is a number or [null]. *)
Definition to_number (o : option number) : number :=
  match o with
  | Some n => n
  | None => 0%float
  end.

(** [b.header?.height || 0] *)
Definition block_height (b : Block) : number :=
  match header b with
  | Some h => number_or (height h) 0%float
  | None => 0%float
  end.

(** [x === address] where [address] is a string. *)
Definition is_address (o : option string) (address : string) : bool :=
  match o with
  | Some s => String.eqb s address
  | None => false
  end.

(* ================================================================== *)
(** ** Ledger store *)

(** [m.get(address) || []] *)
Definition get_or_nil (address : string) (m : JSMap.t string (list string)) : list string :=
  match JSMap.get address m with
  | Some ids => ids
  | None => []
  end.

(** [blockchain.txByAddress.get(address) || []] *)
Definition index_of (address : string) (bc : Blockchain) : list string :=
  get_or_nil address (txByAddress bc).

(** The two statements
    [if (!m.has(a)) m.set(a, []);  m.get(a).push(id);] *)
Definition index_push (address id : string)
    (m : JSMap.t string (list string)) : JSMap.t string (list string) :=
  let m' := if JSMap.has address m then m else JSMap.set address [] m in
  match JSMap.get address m' with
  | Some ids => JSMap.set address (ids ++ [id]) m'
  | None => m'
  end.

Definition with_txs (t : JSMap.t string Transaction) (bc : Blockchain) :=
  {| blocks := blocks bc; txs := t; chain_height := chain_height bc;
     tips := tips bc; txByAddress := txByAddress bc;
     genesisHash := genesisHash bc |}.

Definition with_txByAddress (ix : JSMap.t string (list string)) (bc : Blockchain) :=
  {| blocks := blocks bc; txs := txs bc; chain_height := chain_height bc;
     tips := tips bc; txByAddress := ix; genesisHash := genesisHash bc |}.

Definition with_blocks (b : JSMap.t HashKey Block) (bc : Blockchain) :=
  {| blocks := b; txs := txs bc; chain_height := chain_height bc;
     tips := tips bc; txByAddress := txByAddress bc;
     genesisHash := genesisHash bc |}.

Definition with_height (h : option number) (bc : Blockchain) :=
  {| blocks := blocks bc; txs := txs bc; chain_height := h;
     tips := tips bc; txByAddress := txByAddress bc;
     genesisHash := genesisHash bc |}.

(** [storeTransaction(tx)], on the global ledger passed explicitly. *)
Definition storeTransaction (tx : option Transaction) (bc : Blockchain) : Blockchain :=
  match tx with
  | None => bc
  | Some t =>
      match truthy (tx_id t) with
      | None => bc
      | Some id =>
          let bc1 := with_txs (JSMap.set id t (txs bc)) bc in
          let bc2 :=
            match truthy (fromAddress t) with
            | Some from => with_txByAddress (index_push from id (txByAddress bc1)) bc1
            | None => bc1
            end in
          match truthy (toAddress t) with
          | Some to =>
              if is_address (fromAddress t) to then bc2
              else with_txByAddress (index_push to id (txByAddress bc2)) bc2
          | None => bc2
          end
      end
  end.

(** One round of the [forEach] body of [calculateBalance]. *)
Definition balance_step (address : string) (bc : Blockchain)
    (balance : number) (txId : string) : number :=
  match JSMap.get txId (txs bc) with
  | None => balance
  | Some tx =>
      let balance1 :=
        if is_address (toAddress tx) address
        then (balance + number_or (amount tx) 0)%float else balance in
      if is_address (fromAddress tx) address
      then (balance1 - number_or (amount tx) 0 - number_or (fee tx) 0)%float
      else balance1
  end.

(** [calculateBalance(address)] *)
Definition calculateBalance (address : string) (bc : Blockchain) : number :=
  fold_left (balance_step address bc) (index_of address bc) 0%float.

(* ================================================================== *)
(** ** Peers, envelopes and the node state *)

Inductive ReadyState : Type := CONNECTING | OPEN | CLOSING | CLOSED.

Definition is_open (r : ReadyState) : bool :=
  match r with OPEN => true | _ => false end.

Record WebSocket : Type := mkWebSocket {
  ws_handle : nat;
  readyState : ReadyState
}.

Record Peer : Type := mkPeer {
  ws : WebSocket;
  nodeId : string;
  address : string;
  connectedAt : Z;
  lastSeen : Z;
  messageCount : Z;
  isAlive : bool
}.

(** The inbound envelope [{id, type, senderId, payload, timestamp}];
    [payload] is still the base64 text. *)
Record Message : Type := mkMessage {
  msg_id : option string;
  msg_type : option string;
  senderId : option string;
  payload : option string;
  msg_timestamp : option number
}.

Record SyncRequest : Type := mkSyncRequest {
  lastKnownBlockHeight : option number;
  userAddress : option string;
  requestedBlocks : option number
}.

(** The [syncResponse] object that [handleSyncRequest] builds. *)
Record SyncResponse : Type := mkSyncResponse {
  r_blocks : list Block;
  userTransactions : list Transaction;
  currentHeight : option number;
  currentBalances : option string * number
}.

(** The outbound [syncResponse] envelope, payload not yet encoded. *)
Record ResponseEnvelope : Type := mkResponseEnvelope {
  r_id : string;
  r_type : string;
  r_senderId : string;
  r_payload : SyncResponse;
  r_timestamp : number
}.

(** What [ws.send] puts on a socket. *)
Inductive Frame : Type :=
| Relayed (m : Message)
| Response (r : ResponseEnvelope).

Record Sent : Type := mkSent {
  to_socket : nat;
  frame : Frame
}.

(** A key of the block table as JSON has it.  JSON has no [undefined]
    and no infinite number. *)
Inductive JsonKey : Type :=
| JNull
| JString (s : string)
| JOther (text : string).

(** The document in [blockchain.json], as [JSON.parse] reads it. *)
Record Snapshot : Type := mkSnapshot {
  s_blocks : list (JsonKey * Block);
  s_transactions : list (string * Transaction);
  s_txByAddress : list (string * list string);
  s_height : option number;
  s_tips : list string;
  s_genesisHash : option string;
  savedAt : Z
}.

(** The process state: the ledger, the peer registry, everything sent so
    far, and the snapshot file (if there is one). *)
Record Node : Type := mkNode {
  blockchain : Blockchain;
  peers : JSMap.t string Peer;
  wire : list Sent;
  disk : option Snapshot
}.

Definition initialNode : Node :=
  {| blockchain := emptyBlockchain; peers := JSMap.empty; wire := []; disk := None |}.

(** *** Handlers as computations on the node

    A JavaScript function body either returns or throws; what it has
    written to the globals before throwing stays written. *)

Inductive Outcome (A : Type) : Type :=
| Returned (a : A)
| Thrown.
Arguments Returned {A} a.
Arguments Thrown {A}.

Definition M (A : Type) : Type := Node -> Outcome A * Node.

Definition ret {A} (a : A) : M A := fun n => (Returned a, n).

Definition bind {A B} (c : M A) (k : A -> M B) : M B :=
  fun n =>
    match c n with
    | (Returned a, n') => k a n'
    | (Thrown, n') => (Thrown, n')
    end.

Definition throw {A} : M A := fun n => (Thrown, n).

Definition gets {A} (f : Node -> A) : M A := fun n => (Returned (f n), n).

Definition modify (f : Node -> Node) : M unit := fun n => (Returned tt, f n).

(** [try { body } catch (error) { console.error(...) }] *)
Definition try_catch (body : M unit) : M unit :=
  fun n => (Returned tt, snd (body n)).

Declare Scope js_scope.
Delimit Scope js_scope with js.
Notation "x <- c ;; k" := (bind c (fun x => k))
  (at level 61, c at next level, right associativity) : js_scope.
Notation "c ;;; k" := (bind c (fun _ => k))
  (at level 61, right associativity) : js_scope.
Local Open Scope js_scope.

Fixpoint forEach {A} (l : list A) (body : A -> M unit) : M unit :=
  match l with
  | [] => ret tt
  | x :: rest => body x ;;; forEach rest body
  end.

(** The node after running a computation. *)
Definition exec {A} (c : M A) (n : Node) : Node := snd (c n).

Definition with_blockchain (bc : Blockchain) (n : Node) : Node :=
  {| blockchain := bc; peers := peers n; wire := wire n; disk := disk n |}.

Definition with_peers (ps : JSMap.t string Peer) (n : Node) : Node :=
  {| blockchain := blockchain n; peers := ps; wire := wire n; disk := disk n |}.

Definition with_wire (w : list Sent) (n : Node) : Node :=
  {| blockchain := blockchain n; peers := peers n; wire := w; disk := disk n |}.

Definition with_disk (d : option Snapshot) (n : Node) : Node :=
  {| blockchain := blockchain n; peers := peers n; wire := wire n; disk := d |}.

Definition modify_chain (f : Blockchain -> Blockchain) : M unit :=
  modify (fun n => with_blockchain (f (blockchain n)) n).

(** [ws.send(JSON.stringify(x))] *)
Definition ws_send (socket : WebSocket) (f : Frame) : M unit :=
  modify (fun n => with_wire (wire n ++ [mkSent (ws_handle socket) f]) n).

(** *** Array helpers *)

(** [l.slice(0, stop)]: a negative [stop] counts from the end. *)
Definition slice0 {A} (stop : Z) (l : list A) : list A :=
  let len := Z.of_nat (List.length l) in
  let k := if stop <? 0 then Z.max (len + stop) 0 else Z.min stop len in
  firstn (Z.to_nat k) l.

(** [l.slice(0, stop)] for a number [stop]. *)
Definition slice_to {A} (stop : number) (l : list A) : list A :=
  match Number.to_integer stop with
  | Number.NegInfinity => []
  | Number.Integer z => slice0 z l
  | Number.PosInfinity => l
  end.

(** [l.sort(compare)], where [after x y] says that [compare(x, y)] is
    positive, which puts [x] behind [y]; the sort is stable. *)
Fixpoint insert_by {A} (after : A -> A -> bool) (x : A) (l : list A) : list A :=
  match l with
  | [] => [x]
  | y :: rest =>
      if after x y then y :: insert_by after x rest else x :: y :: rest
  end.

Fixpoint sort_by {A} (after : A -> A -> bool) (l : list A) : list A :=
  match l with
  | [] => []
  | x :: rest => insert_by after x (sort_by after rest)
  end.

(** The comparators [(a, b) => key(a) - key(b)] and
    [(a, b) => key(b) - key(a)].  The difference of two numbers is
    positive exactly when the first is the greater: subtraction keeps the
    sign of the exact difference, and where it gives [NaN] (for two equal
    infinities, or a [NaN] key) the comparison is false and [sort] reads
    the [NaN] as 0. *)
Definition ascending_by {A} (key : A -> number) (a b : A) : bool :=
  (key b <? key a)%float.


(** [set.add(x)] on a [Set] kept in insertion order. *)
Definition set_add (x : string) (s : list string) : list string :=
  if existsb (String.eqb x) s then s else s ++ [x].

(** [new Set(array)] *)
Definition set_of_array (l : list string) : list string :=
  fold_left (fun s x => set_add x s) l [].

(* ================================================================== *)
(** ** The handlers *)

Section Handlers.

(** Services of the platform.  [decode_*] is
    [JSON.parse(Buffer.from(payload, 'base64').toString('utf8'))] read at
    the type the handler expects; [None] means that decoding, parsing or
    the first property access on the result throws. *)
Variable decode_sync : option string -> option SyncRequest.
Variable decode_block : option string -> option Block.
Variable decode_tx : option string -> option Transaction.
(** [Date.now()], [generateMessageId()], the hex SHA-256 digest, and
    [JSON.stringify] of the genesis transactions. *)
Variable Date_now : Z.
Variable generateMessageId : string.
Variable sha256_hex : string -> string.
Variable JSON_stringify_txs : list Transaction -> string.

Definition decoded {A} (o : option A) : M A :=
  match o with
  | Some a => ret a
  | None => throw
  end.

(** [nodeId !== excludeNodeId] *)
Definition differs (nodeId : string) (excludeNodeId : option string) : bool :=
  match excludeNodeId with
  | Some e => negb (String.eqb nodeId e)
  | None => true
  end.

(** [peer.send(message)] for the peer registered under [key]. *)
Definition Peer_send (key : string) (p : Peer) (message : Message) : M unit :=
  if is_open (readyState (ws p)) then
    ws_send (ws p) (Relayed message) ;;;
    modify (fun n =>
      with_peers
        (JSMap.set key
           {| ws := ws p; nodeId := nodeId p; address := address p;
              connectedAt := connectedAt p; lastSeen := lastSeen p;
              messageCount := messageCount p + 1; isAlive := isAlive p |}
           (peers n)) n)
  else ret tt.

Fixpoint broadcast_loop (es : list (string * Peer)) (message : Message)
    (excludeNodeId : option string) (sentCount : Z) : M Z :=
  match es with
  | [] => ret sentCount
  | (nodeId, peer) :: rest =>
      if differs nodeId excludeNodeId && is_open (readyState (ws peer)) then
        Peer_send nodeId peer message ;;;
        broadcast_loop rest message excludeNodeId (sentCount + 1)
      else broadcast_loop rest message excludeNodeId sentCount
  end.

(** [broadcastToPeers(message, excludeNodeId)] *)
Definition broadcastToPeers (message : Message) (excludeNodeId : option string) : M Z :=
  ps <- gets peers ;;
  broadcast_loop (JSMap.entries ps) message excludeNodeId 0.

(** The [blocks] array of the sync response. *)
Definition blocks_after (syncRequest : SyncRequest) (bc : Blockchain) : list Block :=
  slice_to (number_or (requestedBlocks syncRequest) 100)
    (sort_by (ascending_by block_height)
       (filter (fun b =>
                  (number_or (lastKnownBlockHeight syncRequest) 0 <? block_height b)%float)
          (JSMap.values (blocks bc)))).

(** [txIds.map(id => transactions.get(id)).filter(tx => tx != null)] *)
Fixpoint resolve_txs (ids : list string) (bc : Blockchain) : list Transaction :=
  match ids with
  | [] => []
  | txId :: rest =>
      match JSMap.get txId (txs bc) with
      | Some tx => tx :: resolve_txs rest bc
      | None => resolve_txs rest bc
      end
  end.

(** An [undefined] user address is no key of the index. *)
Definition user_index (a : option string) (bc : Blockchain) : list string :=
  match a with
  | Some s => index_of s bc
  | None => []
  end.

Definition user_balance (a : option string) (bc : Blockchain) : number :=
  match a with
  | Some s => calculateBalance s bc
  | None => 0%float
  end.

Definition handleSyncRequest (message : Message) (socket : WebSocket) : M unit :=
  try_catch (
    syncRequest <- decoded (decode_sync (payload message)) ;;
    bc <- gets blockchain ;;
    let blocks := blocks_after syncRequest bc in
    let userTxIds := user_index (userAddress syncRequest) bc in
    let userTransactions := resolve_txs userTxIds bc in
    let balance := user_balance (userAddress syncRequest) bc in
    let syncResponse :=
      {| r_blocks := blocks;
         userTransactions := userTransactions;
         currentHeight := chain_height bc;
         currentBalances := (userAddress syncRequest, balance) |} in
    let response :=
      {| r_id := match truthy (msg_id message) with
                 | Some i => i
                 | None => generateMessageId
                 end;
         r_type := "syncResponse";
         r_senderId := "seed_node";
         r_payload := syncResponse;
         r_timestamp := (Number.of_Z Date_now / 1000)%float |} in
    ws_send socket (Response response)).

(** [block.hash?.substring(0, 8)] in the log line: a hash that is there
    and is no string has no [substring], and the call throws. *)
Definition hash_prefix (h : HashKey) : M unit :=
  match h with
  | HOther _ => throw
  | _ => ret tt
  end.

(** The block is in the table and the height is raised before the
    statements that can throw: [forEach] on a [transactions] property that
    is no array, and the log line. *)
Definition handleBlockBroadcast (message : Message) : M unit :=
  try_catch (
    block <- decoded (decode_block (payload message)) ;;
    bc <- gets blockchain ;;
    if JSMap.has (hash block) (blocks bc) then ret tt
    else
      modify_chain (fun bc => with_blocks (JSMap.set (hash block) block (blocks bc)) bc) ;;;
      modify_chain (fun bc =>
        with_height (Some (Math_max (to_number (chain_height bc)) (block_height block))) bc) ;;;
      match transactions block with
      | Some (Transactions l) => forEach l (fun tx => modify_chain (storeTransaction tx))
      | Some NotAnArray => throw
      | None => ret tt
      end ;;;
      hash_prefix (hash block) ;;;
      _ <- broadcastToPeers message (senderId message) ;;
      ret tt).

Definition handleTransactionBroadcast (message : Message) : M unit :=
  try_catch (
    transaction <- decoded (decode_tx (payload message)) ;;
    modify_chain (storeTransaction (Some transaction)) ;;;
    _ <- broadcastToPeers message (senderId message) ;;
    ret tt).

(** *** Persistence *)

(** What [JSON.stringify] followed by [JSON.parse] makes of a value.  A
    number that is not finite is written as [null], [-0] is written as
    [0], and every other number is read back as it was. *)
Definition json_number (x : number) : option number :=
  if PrimFloat.is_finite x
  then Some (if Number.negative_zero x then 0%float else x)
  else None.

Definition json_field (o : option number) : option number :=
  match o with
  | Some x => json_number x
  | None => None
  end.

Definition json_data (d : DataValue) : DataValue :=
  match d with
  | DNum n =>
      match json_number n with
      | Some x => DNum x
      | None => DNull
      end
  | _ => d
  end.

Definition json_tx (t : Transaction) : Transaction :=
  {| tx_id := tx_id t; tx_type := tx_type t;
     fromAddress := fromAddress t; toAddress := toAddress t;
     amount := json_field (amount t); fee := json_field (fee t);
     tx_timestamp := json_field (tx_timestamp t);
     tx_data := map (fun kv => (fst kv, json_data (snd kv))) (tx_data t) |}.

Definition json_header (h : Header) : Header :=
  {| height := json_field (height h); index := json_field (index h);
     timestamp := json_field (timestamp h);
     h_previousHash := h_previousHash h; merkleRoot := merkleRoot h |}.

(** The texts of the numbers that JSON does not have. *)
Definition not_in_json (text : string) : bool :=
  String.eqb text "Infinity" || String.eqb text "-Infinity" || String.eqb text "NaN".

(** A [hash] property: a missing one stays missing. *)
Definition json_hash (h : HashKey) : HashKey :=
  match h with
  | HOther text => if not_in_json text then HNull else h
  | _ => h
  end.

Definition json_transactions (l : TransactionList) : TransactionList :=
  match l with
  | Transactions txs => Transactions (map (option_map json_tx) txs)
  | NotAnArray => NotAnArray
  end.

Definition json_block (b : Block) : Block :=
  {| hash := json_hash (hash b);
     header := option_map json_header (header b);
     transactions := option_map json_transactions (transactions b);
     previousHash := previousHash b |}.

(** A [Map] key as an element of an array: [undefined] becomes [null]. *)
Definition json_of_key (k : HashKey) : JsonKey :=
  match k with
  | HUndefined => JNull
  | HNull => JNull
  | HStr s => JString s
  | HOther text => if not_in_json text then JNull else JOther text
  end.

Definition key_of_json (k : JsonKey) : HashKey :=
  match k with
  | JNull => HNull
  | JString s => HStr s
  | JOther text => HOther text
  end.

Definition snapshot_of (bc : Blockchain) : Snapshot :=
  {| s_blocks :=
       map (fun e => (json_of_key (fst e), json_block (snd e))) (JSMap.entries (blocks bc));
     s_transactions := map (fun e => (fst e, json_tx (snd e))) (JSMap.entries (txs bc));
     s_txByAddress := JSMap.entries (txByAddress bc);
     s_height := json_field (chain_height bc);
     s_tips := tips bc;
     s_genesisHash := genesisHash bc;
     savedAt := Date_now |}.

(** [saveBlockchain()]; writing the file is taken to succeed. *)
Definition saveBlockchain : M unit :=
  try_catch (
    bc <- gets blockchain ;;
    modify (with_disk (Some (snapshot_of bc)))).

Definition blockchain_of (data : Snapshot) : Blockchain :=
  {| blocks := JSMap.of_entries (map (fun e => (key_of_json (fst e), snd e)) (s_blocks data));
     txs := JSMap.of_entries (s_transactions data);
     chain_height := s_height data;
     tips := set_of_array (s_tips data);
     txByAddress := JSMap.of_entries (s_txByAddress data);
     genesisHash := s_genesisHash data |}.

(** [loadBlockchain()] *)
Definition loadBlockchain : M bool :=
  d <- gets disk ;;
  match d with
  | None => ret false
  | Some data => modify_chain (fun _ => blockchain_of data) ;;; ret true
  end.

(** *** Genesis *)

Definition initialSupply : list (string * number) :=
  [ ("treasury", 100000000%float);
    ("team", 20000000%float);
    ("validators", 10000000%float);
    ("community_rewards", 30000000%float);
    ("liquidity_pool", 40000000%float) ].

Definition decimal_of_nat (n : nat) : string :=
  DecimalString.NilEmpty.string_of_uint (Nat.to_uint n).

Definition decimal_of_Z (z : Z) : string :=
  DecimalString.NilZero.string_of_int (Z.to_int z).

Definition genesis_tx (genesisTimestamp : Z) (index : nat) (entry : string * number)
    : Transaction :=
  {| tx_id := Some ("genesis-tx-" ++ decimal_of_nat index)%string;
     tx_type := Some "genesis_allocation";
     fromAddress := Some "genesis";
     toAddress := Some (fst entry);
     amount := Some (snd entry);
     fee := Some 0%float;
     tx_timestamp := Some (Number.of_Z genesisTimestamp);
     tx_data := [ ("allocation_type", DStr (fst entry));
                  ("total_supply", DNum 200000000%float) ] |}.

(** [Object.entries(o).forEach(([k, v], index) => ...)]: the entries with
    their positions. *)
Fixpoint indexed {A} (i : nat) (l : list A) : list (nat * A) :=
  match l with
  | [] => []
  | x :: rest => (i, x) :: indexed (S i) rest
  end.

Definition zero_hash : string :=
  "0000000000000000000000000000000000000000000000000000000000000000".

Definition add_tip (h : string) (bc : Blockchain) : Blockchain :=
  {| blocks := blocks bc; txs := txs bc; chain_height := chain_height bc;
     tips := set_add h (tips bc); txByAddress := txByAddress bc;
     genesisHash := genesisHash bc |}.

Definition with_genesisHash (h : string) (bc : Blockchain) : Blockchain :=
  {| blocks := blocks bc; txs := txs bc; chain_height := chain_height bc;
     tips := tips bc; txByAddress := txByAddress bc;
     genesisHash := Some h |}.

Definition createGenesisBlock : M unit :=
  let genesisTimestamp := Date_now in
  let entries := indexed 0 initialSupply in
  forEach entries (fun ie =>
    modify_chain (storeTransaction (Some (genesis_tx genesisTimestamp (fst ie) (snd ie))))) ;;;
  let genesisTransactions :=
    map (fun ie => genesis_tx genesisTimestamp (fst ie) (snd ie)) entries in
  let genesisHashValue :=
    sha256_hex ("ziwio-genesis-block" ++ decimal_of_Z genesisTimestamp)%string in
  let genesisBlock :=
    {| hash := HStr genesisHashValue;
       header := Some {| height := Some 0%float;
                         index := Some 0%float;
                         timestamp := Some (Number.of_Z genesisTimestamp / 1000)%float;
                         h_previousHash := Some zero_hash;
                         merkleRoot := Some (sha256_hex (JSON_stringify_txs genesisTransactions)) |};
       transactions := Some (Transactions (map Some genesisTransactions));
       previousHash := Some zero_hash |} in
  modify_chain (fun bc => with_blocks (JSMap.set (hash genesisBlock) genesisBlock (blocks bc)) bc) ;;;
  modify_chain (with_height (Some 0%float)) ;;;
  modify_chain (add_tip genesisHashValue) ;;;
  modify_chain (with_genesisHash genesisHashValue) ;;;
  saveBlockchain.

(** Start-up: [if (!loadBlockchain()) createGenesisBlock();] *)
Definition initialize : M unit :=
  loaded <- loadBlockchain ;;
  if loaded then ret tt else createGenesisBlock.

End Handlers.

(* ================================================================== *)
(** ** Specification-side definitions *)

(** The sum of a list of numbers, added up from the left. *)
Definition sum_of (l : list number) : number := fold_left PrimFloat.add l 0%float.

(** The balance in the words of the specification: the sum of [amount]
    over the stored transactions with [toAddress == a], minus the sum of
    [amount + fee] over the stored transactions with [fromAddress == a]. *)
Definition received (a : string) (bc : Blockchain) : number :=
  sum_of (map (fun tx => number_or (amount tx) 0)
            (filter (fun tx => is_address (toAddress tx) a) (JSMap.values (txs bc)))).

Definition spent (a : string) (bc : Blockchain) : number :=
  sum_of (map (fun tx => (number_or (amount tx) 0 + number_or (fee tx) 0)%float)
            (filter (fun tx => is_address (fromAddress tx) a) (JSMap.values (txs bc)))).

Definition ledger_balance (a : string) (bc : Blockchain) : number :=
  (received a bc - spent a bc)%float.

(** The address index after [storeTransaction] has stored [t] under [id]. *)
Definition index_after (t : Transaction) (id : string)
    (ix : JSMap.t string (list string)) : JSMap.t string (list string) :=
  let ix1 :=
    match truthy (fromAddress t) with
    | Some from => index_push from id ix
    | None => ix
    end in
  match truthy (toAddress t) with
  | Some to => if is_address (fromAddress t) to then ix1 else index_push to id ix1
  | None => ix1
  end.

(** Every stored transaction is listed under each non-empty address it
    names. *)
Definition indexed_under (bc : Blockchain) : Prop :=
  forall id tx a,
    JSMap.get id (txs bc) = Some tx ->
    truthy (fromAddress tx) = Some a \/ truthy (toAddress tx) = Some a ->
    In id (index_of a bc).

Record ledger_ok (bc : Blockchain) : Prop := mk_ledger_ok {
  ok_blocks : JSMap.wf (blocks bc);
  ok_txs : JSMap.wf (txs bc);
  ok_index : JSMap.wf (txByAddress bc);
  ok_height : (0 <= to_number (chain_height bc))%num;
  ok_indexed : indexed_under bc
}.

(** The invariant of the whole node: the ledger is sound, and so is what
    the snapshot file would load. *)
Definition node_ok (n : Node) : Prop :=
  ledger_ok (blockchain n) /\
  forall data, disk n = Some data -> ledger_ok (blockchain_of data).

(** Blocks in ascending order of height, consecutive heights possibly
    equal, and in strictly ascending order. *)
Definition ascending (l : list Block) : Prop :=
  Sorted (fun a b => (block_height a <= block_height b)%num) l.

Definition strictly_ascending (l : list Block) : Prop :=
  Sorted (fun a b => (block_height a < block_height b)%num) l.

(** A block whose [header], or whose [header.height], is missing. *)
Definition height_absent (b : Block) : Prop :=
  match header b with
  | None => True
  | Some h => height h = None
  end.

(** What accepting a new block does to the ledger (the specification's
    [storeBlock], inlined in [handleBlockBroadcast]). *)
Definition storeBlock (b : Block) (bc : Blockchain) : Blockchain :=
  let bc1 := with_blocks (JSMap.set (hash b) b (blocks bc)) bc in
  let bc2 :=
    with_height (Some (Math_max (to_number (chain_height bc1)) (block_height b))) bc1 in
  match transactions b with
  | Some (Transactions l) => fold_left (fun acc tx => storeTransaction tx acc) l bc2
  | _ => bc2
  end.

(** The blocks that [handleBlockBroadcast] gets through without
    throwing: [transactions] is an array or is not there, and [hash] is a
    string or is not there. *)
Definition well_formed (b : Block) : bool :=
  match transactions b with
  | Some NotAnArray => false
  | _ => true
  end &&
  match hash b with
  | HOther _ => false
  | _ => true
  end.

(** The frames of one relay fan-out of [message]: one copy on the socket
    of every registered peer that is open and is not the sender. *)
Definition fan_out (message : Message) (ps : JSMap.t string Peer) : list Sent :=
  map (fun e => mkSent (ws_handle (ws (snd e))) (Relayed message))
    (filter (fun e => differs (fst e) (senderId message) && is_open (readyState (ws (snd e))))
       (JSMap.entries ps)).

(** The states a node goes through: it boots (from the snapshot file if
    there is one, else from genesis), then serves sync requests and
    broadcasts, saves now and then, and peers come and go. *)
Section Reachability.

Variable decode_sync : option string -> option SyncRequest.
Variable decode_block : option string -> option Block.
Variable decode_tx : option string -> option Transaction.
Variable sha256_hex : string -> string.
Variable JSON_stringify_txs : list Transaction -> string.

Inductive reachable : Node -> Prop :=
| reach_boot (now : Z) :
    reachable (exec (initialize now sha256_hex JSON_stringify_txs) initialNode)
| reach_restart (n : Node) (now : Z) :
    reachable n ->
    reachable (exec (initialize now sha256_hex JSON_stringify_txs)
                 (with_disk (disk n) initialNode))
| reach_sync (n : Node) (now : Z) (fresh : string) (m : Message) (socket : WebSocket) :
    reachable n ->
    reachable (exec (handleSyncRequest decode_sync now fresh m socket) n)
| reach_block (n : Node) (m : Message) :
    reachable n ->
    reachable (exec (handleBlockBroadcast decode_block m) n)
| reach_transaction (n : Node) (m : Message) :
    reachable n ->
    reachable (exec (handleTransactionBroadcast decode_tx m) n)
| reach_save (n : Node) (now : Z) :
    reachable n ->
    reachable (exec (saveBlockchain now) n)
| reach_peers (n : Node) (ps : JSMap.t string Peer) :
    reachable n ->
    reachable (with_peers ps n).

End Reachability.

(* ================================================================== *)
(** ** Concrete data used in the examples *)

Module Sample.

Definition sha (s : string) : string := ("sha256:" ++ s)%string.
Definition stringify (l : list Transaction) : string := "[genesis transactions]".

Definition boot_time : Z := 1700000000000.

(** bob pays alice 5 with a fee of 1. *)
Definition pay : Transaction :=
  {| tx_id := Some "t1"; tx_type := Some "transfer";
     fromAddress := Some "bob"; toAddress := Some "alice";
     amount := Some 5%float; fee := Some 1%float;
     tx_timestamp := Some 1700000000500%float;
     tx_data := [] |}.

(** carol moves 9 to herself. *)
Definition self_pay : Transaction :=
  {| tx_id := Some "t2"; tx_type := Some "transfer";
     fromAddress := Some "carol"; toAddress := Some "carol";
     amount := Some 9%float; fee := Some 0%float;
     tx_timestamp := Some 1700000000600%float;
     tx_data := [] |}.

(** dave receives 2^53, and then 1 more. *)
Definition windfall : Transaction :=
  {| tx_id := Some "t3"; tx_type := Some "transfer";
     fromAddress := Some "mint"; toAddress := Some "dave";
     amount := Some 9007199254740992%float; fee := None;
     tx_timestamp := Some 1700000000700%float;
     tx_data := [] |}.

Definition one_more : Transaction :=
  {| tx_id := Some "t4"; tx_type := Some "transfer";
     fromAddress := Some "mint"; toAddress := Some "dave";
     amount := Some 1%float; fee := None;
     tx_timestamp := Some 1700000000800%float;
     tx_data := [] |}.


Definition header_at (h : number) : Header :=
  {| height := Some h; index := Some h; timestamp := Some 1700000001%float;
     h_previousHash := Some zero_hash; merkleRoot := None |}.

Definition block_a : Block :=
  {| hash := HStr "aa"; header := Some (header_at 1);
     transactions := Some (Transactions [Some pay]); previousHash := Some zero_hash |}.

(** A second block at the height of [block_a]. *)
Definition block_b : Block :=
  {| hash := HStr "bb"; header := Some (header_at 1);
     transactions := Some (Transactions []); previousHash := Some zero_hash |}.

(** A block without [hash]. *)
Definition hashless : Block :=
  {| hash := HUndefined; header := Some (header_at 7);
     transactions := Some (Transactions []); previousHash := Some "aa" |}.

(** A block without [header]. *)
Definition headerless : Block :=
  {| hash := HStr "cc"; header := None;
     transactions := Some (Transactions []); previousHash := Some "aa" |}.

(** A block whose [transactions] property is a number:
    [{"hash": "dd", "header": {...}, "transactions": 1}]. *)
Definition unlisted : Block :=
  {| hash := HStr "dd"; header := Some (header_at 2);
     transactions := Some NotAnArray; previousHash := Some "aa" |}.

(** A block whose height is written [1e999], which [JSON.parse] reads as
    [Infinity]. *)
Definition skyhigh : Block :=
  {| hash := HStr "ee"; header := Some (header_at infinity);
     transactions := Some (Transactions []); previousHash := Some "aa" |}.

Definition is_payload (p : option string) (s : string) : bool :=
  match p with
  | Some x => String.eqb x s
  | None => false
  end.

Definition decode_block (p : option string) : option Block :=
  if is_payload p "block a" then Some block_a
  else if is_payload p "block b" then Some block_b
  else if is_payload p "hashless block" then Some hashless
  else if is_payload p "headerless block" then Some headerless
  else if is_payload p "unlisted block" then Some unlisted
  else None.

(** The same peers, one of which also sends the block of infinite
    height. *)
Definition decode_any_block (p : option string) : option Block :=
  if is_payload p "skyhigh block" then Some skyhigh else decode_block p.

Definition decode_tx (p : option string) : option Transaction :=
  if is_payload p "pay" then Some pay
  else if is_payload p "self pay" then Some self_pay
  else None.

Definition sync_from (cursor limit : number) : SyncRequest :=
  {| lastKnownBlockHeight := Some cursor; userAddress := Some "alice";
     requestedBlocks := Some limit |}.

Definition decode_sync (p : option string) : option SyncRequest :=
  if is_payload p "sync 0 5" then Some (sync_from 0 5)
  else if is_payload p "sync 0 0" then Some (sync_from 0 0)
  else if is_payload p "sync 0 1" then Some (sync_from 0 1)
  else if is_payload p "sync 0 1.5" then Some (sync_from 0 1.5)
  else None.

Definition envelope (kind sender body : string) : Message :=
  {| msg_id := Some "m-1"; msg_type := Some kind; senderId := Some sender;
     payload := Some body; msg_timestamp := Some 1700000002%float |}.

Definition socket (h : nat) : WebSocket := {| ws_handle := h; readyState := OPEN |}.

Definition peer (h : nat) (name : string) : Peer :=
  {| ws := socket h; nodeId := name; address := "10.0.0.1";
     connectedAt := boot_time; lastSeen := boot_time; messageCount := 0;
     isAlive := true |}.

(** The node after its first boot (no snapshot file, hence genesis), with
    two lite clients connected. *)
Definition booted : Node :=
  with_peers [("ios-1", peer 1 "ios-1"); ("ios-2", peer 2 "ios-2")]
    (exec (initialize boot_time sha stringify) initialNode).

Definition block_from (sender body : string) : Node -> Node :=
  exec (handleBlockBroadcast decode_block (envelope "blockBroadcast" sender body)).

Definition transaction_from (sender body : string) : Node -> Node :=
  exec (handleTransactionBroadcast decode_tx (envelope "transactionBroadcast" sender body)).

Definition sync_from_socket (h : nat) (body : string) : Node -> Node :=
  exec (handleSyncRequest decode_sync boot_time "msg-0"
          (envelope "syncRequest" "ios-1" body) (socket h)).

(** The blocks of each sync response found on the wire. *)
Definition response_blocks (n : Node) : list (list Block) :=
  flat_map (fun s =>
    match frame s with
    | Response r => [r_blocks (r_payload r)]
    | Relayed _ => []
    end) (wire n).

(** Two blocks at height 1 on top of genesis. *)
Definition forked : Node :=
  block_from "ios-2" "block b" (block_from "ios-1" "block a" booted).

(** [saveBlockchain()] followed by [loadBlockchain()]. *)
Definition save_then_load (n : Node) : Node :=
  exec loadBlockchain (exec (saveBlockchain boot_time) n).

(** A new process started on the snapshot file that [n] has written. *)
Definition restarted (n : Node) : Node :=
  exec (initialize boot_time sha stringify) (with_disk (disk n) initialNode).

(** The heights of the blocks in each sync response found on the wire. *)
Definition response_heights (n : Node) : list (list number) :=
  flat_map (fun s =>
    match frame s with
    | Response r => [map block_height (r_blocks (r_payload r))]
    | Relayed _ => []
    end) (wire n).

End Sample.

(* ================================================================== *)
(** ** Further vocabulary for the properties of the node *)

(** A peer after one more [peer.send]. *)
Definition bump (p : Peer) : Peer :=
  {| ws := ws p; nodeId := nodeId p; address := address p;
     connectedAt := connectedAt p; lastSeen := lastSeen p;
     messageCount := messageCount p + 1; isAlive := isAlive p |}.

(** The test of the relay loop: the peer is not the excluded one and its
    socket is open. *)
Definition is_recipient (excludeNodeId : option string) (e : string * Peer) : bool :=
  differs (fst e) excludeNodeId && is_open (readyState (ws (snd e))).

(** No stored block is higher than the stored height. *)
Definition heights_bounded (bc : Blockchain) : Prop :=
  forall b, In b (JSMap.values (blocks bc)) ->
    (block_height b <= to_number (chain_height bc))%num.

(** A numeric property that a snapshot gives back as it is. *)
Definition plain_field (o : option number) : bool :=
  match o with
  | Some x => Number.plain x
  | None => true
  end.

(** The tidy ledger: heights bounded by a height that a snapshot keeps
    and that is not negative. *)
Definition ledger_tidy (bc : Blockchain) : Prop :=
  heights_bounded bc /\
  plain_field (chain_height bc) = true /\
  (0 <= to_number (chain_height bc))%num.

Definition node_tidy (n : Node) : Prop :=
  ledger_tidy (blockchain n) /\
  forall data, disk n = Some data -> ledger_tidy (blockchain_of data).

(** The peers send blocks of finite height only. *)
Definition finite_heights (decode_block : option string -> option Block) : Prop :=
  forall p b, decode_block p = Some b -> PrimFloat.is_finite (block_height b) = true.

(** What a snapshot gives back as it is: every number in it is finite
    and not [-0], and the key of a block is a string or [null]. *)
Definition plain_data (d : DataValue) : bool :=
  match d with
  | DNum n => Number.plain n
  | _ => true
  end.

Definition plain_tx (t : Transaction) : bool :=
  plain_field (amount t) && plain_field (fee t) && plain_field (tx_timestamp t)
  && forallb (fun kv => plain_data (snd kv)) (tx_data t).

Definition plain_header (h : Header) : bool :=
  plain_field (height h) && plain_field (index h) && plain_field (timestamp h).

Definition plain_hash (h : HashKey) : bool :=
  match h with
  | HOther text => negb (not_in_json text)
  | _ => true
  end.

Definition plain_transactions (l : TransactionList) : bool :=
  match l with
  | Transactions txs =>
      forallb (fun o => match o with Some t => plain_tx t | None => true end) txs
  | NotAnArray => true
  end.

Definition plain_block (b : Block) : bool :=
  plain_hash (hash b)
  && match header b with Some h => plain_header h | None => true end
  && match transactions b with Some l => plain_transactions l | None => true end.

Definition plain_key (k : HashKey) : bool :=
  match k with
  | HUndefined => false
  | HOther text => negb (not_in_json text)
  | _ => true
  end.

Definition plain_ledger (bc : Blockchain) : Prop :=
  Forall (fun e => plain_key (fst e) = true /\ plain_block (snd e) = true) (blocks bc) /\
  Forall (fun e => plain_tx (snd e) = true) (txs bc) /\
  plain_field (chain_height bc) = true.

(** The transaction names the address as its sender or its recipient. *)
Definition names (t : Transaction) (a : string) : bool :=
  is_address (fromAddress t) a || is_address (toAddress t) a.

(* ================================================================== *)
(** ** The HTTP queries

    Each route handler is a function of the node.  A numeric query
    parameter arrives through [parseInt]: a number, or [NaN] ([None]). *)



(** [GET /block/:hash]: the block, or [None] for the 404 answer. *)
Definition get_block (hash : string) (n : Node) : option Block :=
  JSMap.get (HStr hash) (blocks (blockchain n)).

Record TransactionsListing : Type := mkTransactionsListing {
  tl_count : Z;
  tl_transactions : list Transaction
}.

(** [GET /transactions?address=&limit=] *)
Definition get_transactions (address : option string) (limit : option Z) (n : Node)
    : TransactionsListing :=
  let limit := num_or limit 50 in
  let transactions :=
    match truthy address with
    | Some a =>
        slice0 limit (resolve_txs (index_of a (blockchain n)) (blockchain n))
    | None => slice0 limit (JSMap.values (txs (blockchain n)))
    end in
  {| tl_count := Z.of_nat (List.length transactions);
     tl_transactions := transactions |}.

(** [GET /balance/:address] *)
Definition get_balance (address : string) (n : Node) : string * number :=
  (address, calculateBalance address (blockchain n)).

(* ================================================================== *)
(** ** Connections, registration and the liveness sweep *)

(** [m.delete(k)] *)
Definition JSMap_delete {K V} `{KeyEq K} (k : K) (m : JSMap.t K V) : JSMap.t K V :=
  filter (fun e => negb (keq k (fst e))) m.

(** The payloads of the two status envelopes. *)
Inductive StatusPayload : Type :=
| HandshakeInfo (node_id : string) (current_height : option number) (time : Z)
| HeartbeatInfo (time : Z) (chain_height_now : option number) (peerCount : Z).

Record StatusEnvelope : Type := mkStatusEnvelope {
  s_id : string;
  s_type : string;
  s_senderId : string;
  s_payload : StatusPayload;
  s_timestamp : number
}.

(** The server: the node, the sockets of [wss.clients], and what the
    connection-level code does to sockets besides relays and sync
    responses (which are on the [wire] of the node): the status envelopes
    sent, the pings sent and the sockets terminated, each with the handle
    of the socket. *)
Record Server : Type := mkServer {
  node : Node;
  clients : list nat;
  statuses : list (nat * StatusEnvelope);
  pings : list nat;
  terminated : list nat
}.

(** What the closure of one [connection] event holds: the socket, the
    remote address, and the [peer] variable.  The [Peer] object that the
    variable refers to is the registry entry under [conn_peer] as long as
    that entry still carries this connection's socket; once another
    connection has registered under the same id the object is out of the
    registry, and nothing reads it any more except for its [nodeId]. *)
Record Connection : Type := mkConnection {
  conn_ws : WebSocket;
  clientIp : string;
  conn_peer : option string
}.

Definition S (A : Type) : Type := Server -> Outcome A * Server.

Definition retS {A} (a : A) : S A := fun s => (Returned a, s).

Definition bindS {A B} (c : S A) (k : A -> S B) : S B :=
  fun s =>
    match c s with
    | (Returned a, s') => k a s'
    | (Thrown, s') => (Thrown, s')
    end.

Definition getsS {A} (f : Server -> A) : S A := fun s => (Returned (f s), s).

Definition modifyS (f : Server -> Server) : S unit := fun s => (Returned tt, f s).

Definition with_node (n : Node) (s : Server) : Server :=
  {| node := n; clients := clients s; statuses := statuses s;
     pings := pings s; terminated := terminated s |}.

(** A handler of the node, run inside the server. *)
Definition liftS {A} (c : M A) : S A :=
  fun s => let (o, n') := c (node s) in (o, with_node n' s).

Definition execS {A} (c : S A) (s : Server) : Server := snd (c s).

Declare Scope server_scope.
Delimit Scope server_scope with server.
Notation "x <- c ;; k" := (bindS c (fun x => k))
  (at level 61, c at next level, right associativity) : server_scope.
Notation "c ;;; k" := (bindS c (fun _ => k))
  (at level 61, right associativity) : server_scope.

Fixpoint forEachS {A} (l : list A) (body : A -> S unit) : S unit :=
  match l with
  | [] => retS tt
  | x :: rest => bindS (body x) (fun _ => forEachS rest body)
  end.

Definition modify_peers (f : JSMap.t string Peer -> JSMap.t string Peer) : S unit :=
  modifyS (fun s => with_node (with_peers (f (peers (node s))) (node s)) s).

(** A write to a field of the [Peer] object of a connection: it shows in
    the registry if the object is still there. *)
Definition write_own_peer (conn : Connection) (k : string) (f : Peer -> Peer) : S unit :=
  modify_peers (fun ps =>
    match JSMap.get k ps with
    | Some p =>
        if Nat.eqb (ws_handle (ws p)) (ws_handle (conn_ws conn))
        then JSMap.set k (f p) ps else ps
    | None => ps
    end).

Definition with_lastSeen (t : Z) (p : Peer) : Peer :=
  {| ws := ws p; nodeId := nodeId p; address := address p;
     connectedAt := connectedAt p; lastSeen := t;
     messageCount := messageCount p; isAlive := isAlive p |}.

Definition with_isAlive (b : bool) (p : Peer) : Peer :=
  {| ws := ws p; nodeId := nodeId p; address := address p;
     connectedAt := connectedAt p; lastSeen := lastSeen p;
     messageCount := messageCount p; isAlive := b |}.

Definition with_conn_peer (k : string) (conn : Connection) : Connection :=
  {| conn_ws := conn_ws conn; clientIp := clientIp conn; conn_peer := Some k |}.

Section ConnectionHandlers.

Variable decode_envelope : string -> option Message.
Variable decode_sync : option string -> option SyncRequest.
Variable decode_block : option string -> option Block.
Variable decode_tx : option string -> option Transaction.
Variable Date_now : Z.
Variable generateMessageId : string.

Local Open Scope server_scope.

(** [new Peer(ws, nodeId, address)] *)
Definition new_Peer (socket : WebSocket) (id ip : string) : Peer :=
  {| ws := socket; nodeId := id; address := ip;
     connectedAt := Date_now; lastSeen := Date_now;
     messageCount := 0; isAlive := true |}.

Definition send_status (socket : WebSocket) (e : StatusEnvelope) : S unit :=
  modifyS (fun s =>
    {| node := node s; clients := clients s;
       statuses := statuses s ++ [(ws_handle socket, e)];
       pings := pings s; terminated := terminated s |}).

Definition handleHandshake (message : Message) (socket : WebSocket) : S unit :=
  currentHeight <- getsS (fun s => chain_height (blockchain (node s))) ;;
  send_status socket
    {| s_id := generateMessageId;
       s_type := "handshake";
       s_senderId := "seed_node";
       s_payload := HandshakeInfo "seed_node" currentHeight Date_now;
       s_timestamp := (Number.of_Z Date_now / 1000)%float |}.

Definition handleHeartbeat (message : Message) (socket : WebSocket) : S unit :=
  height <- getsS (fun s => chain_height (blockchain (node s))) ;;
  peerCount <- getsS (fun s => JSMap.size (peers (node s))) ;;
  send_status socket
    {| s_id := generateMessageId;
       s_type := "heartbeat";
       s_senderId := "seed_node";
       s_payload := HeartbeatInfo Date_now height peerCount;
       s_timestamp := (Number.of_Z Date_now / 1000)%float |}.

(** The [switch (type)] of [handleMessage]. *)
Definition route (message : Message) (socket : WebSocket) : S unit :=
  match msg_type message with
  | Some type =>
      if String.eqb type "handshake" then handleHandshake message socket
      else if String.eqb type "syncRequest" || String.eqb type "sync_request" then
        liftS (handleSyncRequest decode_sync Date_now generateMessageId message socket)
      else if String.eqb type "blockBroadcast" || String.eqb type "block_broadcast" then
        liftS (handleBlockBroadcast decode_block message)
      else if String.eqb type "transactionBroadcast"
              || String.eqb type "transaction_broadcast" then
        liftS (handleTransactionBroadcast decode_tx message)
      else if String.eqb type "heartbeat" then handleHeartbeat message socket
      else retS tt
  | None => retS tt
  end.

(** [handleMessage(message, ws, clientIp)], returning the connection
    with its [peer] variable as the call leaves it. *)
Definition handleMessage (conn : Connection) (message : Message) : S Connection :=
  conn1 <-
    match conn_peer conn, truthy (senderId message) with
    | None, Some senderId =>
        modify_peers (JSMap.set senderId (new_Peer (conn_ws conn) senderId (clientIp conn))) ;;;
        retS (with_conn_peer senderId conn)
    | _, _ => retS conn
    end ;;
  match conn_peer conn1 with
  | Some k => write_own_peer conn1 k (with_lastSeen Date_now)
  | None => retS tt
  end ;;;
  route message (conn_ws conn1) ;;;
  retS conn1.

(** [ws.on('message', data => ...)]: an envelope that does not parse is
    dropped. *)
Definition on_message (conn : Connection) (data : string) : S Connection :=
  match decode_envelope data with
  | Some message => handleMessage conn message
  | None => retS conn
  end.

(** [ws.on('pong', ...)] *)
Definition on_pong (conn : Connection) : S unit :=
  match conn_peer conn with
  | Some k =>
      write_own_peer conn k (with_isAlive true) ;;;
      write_own_peer conn k (with_lastSeen Date_now)
  | None => retS tt
  end.

(** [ws.on('close', ...)]; the socket also leaves [wss.clients]. *)
Definition on_close (conn : Connection) : S unit :=
  match conn_peer conn with
  | Some k => modify_peers (JSMap_delete k)
  | None => retS tt
  end ;;;
  modifyS (fun s =>
    {| node := node s;
       clients := filter (fun h => negb (Nat.eqb h (ws_handle (conn_ws conn)))) (clients s);
       statuses := statuses s; pings := pings s; terminated := terminated s |}).

(** The [connection] event: the socket joins [wss.clients] and a closure
    is made with [peer = null]. *)
Definition on_connection (socket : WebSocket) (ip : string) : S Connection :=
  modifyS (fun s =>
    {| node := node s;
       clients := if existsb (Nat.eqb (ws_handle socket)) (clients s)
                  then clients s else clients s ++ [ws_handle socket];
       statuses := statuses s; pings := pings s; terminated := terminated s |}) ;;;
  retS {| conn_ws := socket; clientIp := ip; conn_peer := None |}.

(** [Array.from(peers.values()).find(p => p.ws === ws)], with the key of
    the entry found. *)
Definition find_by_socket (h : nat) (ps : JSMap.t string Peer) : option (string * Peer) :=
  find (fun e => Nat.eqb (ws_handle (ws (snd e))) h) (JSMap.entries ps).

Definition ws_ping (h : nat) : S unit :=
  modifyS (fun s =>
    {| node := node s; clients := clients s; statuses := statuses s;
       pings := pings s ++ [h]; terminated := terminated s |}).

Definition ws_terminate (h : nat) : S unit :=
  modifyS (fun s =>
    {| node := node s; clients := clients s; statuses := statuses s;
       pings := pings s; terminated := terminated s ++ [h] |}).

(** The body of the liveness sweep for one socket of [wss.clients]. *)
Definition sweep_socket (h : nat) : S unit :=
  ps <- getsS (fun s => peers (node s)) ;;
  match find_by_socket h ps with
  | Some (k, peer) =>
      if negb (isAlive peer) then
        modify_peers (JSMap_delete (nodeId peer)) ;;;
        ws_terminate h
      else
        modify_peers (JSMap.set k (with_isAlive false peer)) ;;;
        ws_ping h
  | None => retS tt
  end.

(** The liveness sweep that runs every 30 seconds. *)
Definition sweep : S unit :=
  sockets <- getsS clients ;;
  forEachS sockets sweep_socket.

End ConnectionHandlers.

(** The registry as the connection code keeps it: no id twice, no socket
    twice, every peer under its own id. *)
Definition registry_ok (ps : JSMap.t string Peer) : Prop :=
  JSMap.wf ps /\
  NoDup (map (fun e => ws_handle (ws (snd e))) ps) /\
  Forall (fun e => nodeId (snd e) = fst e) ps.

(** What one sweep does to one registry entry. *)
Definition swept (sockets : list nat) (e : string * Peer) : list (string * Peer) :=
  if existsb (Nat.eqb (ws_handle (ws (snd e)))) sockets then
    if isAlive (snd e) then [(fst e, with_isAlive false (snd e))] else []
  else [e].

(** The connection and the server as [handleMessage] has them when it
    reaches its [switch]: after the registration of a first sender and
    the [updateLastSeen] of a registered one. *)
Definition before_route (now : Z) (conn : Connection) (m : Message) (s : Server)
    : Connection * Server :=
  match conn_peer conn with
  | Some k =>
      (conn,
       with_node
         (with_peers
            match JSMap.get k (peers (node s)) with
            | Some p =>
                if Nat.eqb (ws_handle (ws p)) (ws_handle (conn_ws conn))
                then JSMap.set k (with_lastSeen now p) (peers (node s))
                else peers (node s)
            | None => peers (node s)
            end (node s)) s)
  | None =>
      match truthy (senderId m) with
      | Some id =>
          (with_conn_peer id conn,
           with_node
             (with_peers
                (JSMap.set id (new_Peer now (conn_ws conn) id (clientIp conn))
                   (peers (node s)))
                (node s)) s)
      | None => (conn, s)
      end
  end.

(** The message types whose handlers store and relay. *)
Definition broadcast_types : list string :=
  [ "blockBroadcast"; "block_broadcast"; "transactionBroadcast"; "transaction_broadcast" ].

(** The message types that [handleMessage] knows. *)
Definition known_types : list string :=
  [ "handshake"; "syncRequest"; "sync_request"; "blockBroadcast"; "block_broadcast";
    "transactionBroadcast"; "transaction_broadcast"; "heartbeat" ].

(** What the sweep does on the socket [h], read off the registry: the
    ping sent, or the socket terminated. *)
Definition pinged_by (ps : JSMap.t string Peer) (h : nat) : list nat :=
  match find_by_socket h ps with
  | Some (_, p) => if isAlive p then [h] else []
  | None => []
  end.

Definition terminated_by (ps : JSMap.t string Peer) (h : nat) : list nat :=
  match find_by_socket h ps with
  | Some (_, p) => if isAlive p then [] else [h]
  | None => []
  end.

(* ================================================================== *)
(** ** A concrete server for the examples *)

Module Scenario.

(** The booted node of [Sample] with its two registered clients, and a
    third socket that is connected but has not sent anything yet. *)
Definition server : Server :=
  {| node := Sample.booted; clients := [1; 2; 3]%nat; statuses := [];
     pings := []; terminated := [] |}.

Definition newcomer : Connection :=
  {| conn_ws := Sample.socket 3; clientIp := "10.0.0.3"; conn_peer := None |}.

Definition first_client : Connection :=
  {| conn_ws := Sample.socket 1; clientIp := "10.0.0.1"; conn_peer := Some "ios-1" |}.

Definition block_a_envelope : Message := Sample.envelope "blockBroadcast" "ios-1" "block a".

End Scenario.

(* ================================================================== *)
(** * Properties *)

#[export] Instance KeyEqLaws_string : KeyEqLaws string.
Proof. constructor. exact String.eqb_eq. Qed.

Lemma HashKey_eqb_eq (a b : HashKey) : HashKey_eqb a b = true <-> a = b.
Proof.
  destruct a, b; simpl; split; intros Hx; try reflexivity; try discriminate.
  - apply String.eqb_eq in Hx. now subst.
  - inversion Hx. apply String.eqb_refl.
  - apply String.eqb_eq in Hx. now subst.
  - inversion Hx. apply String.eqb_refl.
Qed.

#[export] Instance KeyEqLaws_HashKey : KeyEqLaws HashKey.
Proof. constructor. exact HashKey_eqb_eq. Qed.

(** ** Facts about tables *)

Module JSMapFacts.
Import JSMap.
Section Table.
Context {K V : Type} `{KeyEqLaws K}.
Implicit Types (m : JSMap.t K V) (k : K) (v : V).

Lemma keq_refl (k : K) : keq k k = true.
Proof. now apply keq_spec. Qed.

Lemma keq_neq (a b : K) : a <> b -> keq a b = false.
Proof.
  intros Hab. destruct (keq a b) eqn:E; [|reflexivity].
  apply keq_spec in E. contradiction.
Qed.

Lemma get_In_keys k m v : get k m = Some v -> In k (keys m).
Proof.
  induction m as [|[k' v'] rest IH]; simpl; [discriminate|].
  destruct (keq k k') eqn:E.
  - apply keq_spec in E. subst. now left.
  - intros Hg. right. now apply IH.
Qed.

Lemma get_None_keys k m : get k m = None <-> ~ In k (keys m).
Proof.
  induction m as [|[k' v'] rest IH]; simpl.
  - split; auto.
  - destruct (keq k k') eqn:E.
    + apply keq_spec in E. subst. split; [discriminate|]. intros Hn.
      exfalso. apply Hn. now left.
    + rewrite IH. split.
      * intros Hn [Heq|Hin]; [|now apply Hn]. subst.
        rewrite keq_refl in E. discriminate.
      * intros Hn Hin. apply Hn. now right.
Qed.

Lemma has_In_keys k m : has k m = true <-> In k (keys m).
Proof.
  unfold has. destruct (get k m) eqn:E.
  - split; [intros _; eapply get_In_keys; eauto | reflexivity].
  - split; [discriminate|]. intros Hin. apply get_None_keys in E. contradiction.
Qed.

Lemma get_set_same k v m : get k (set k v m) = Some v.
Proof.
  induction m as [|[k' v'] rest IH]; simpl.
  - now rewrite keq_refl.
  - destruct (keq k k') eqn:E; simpl; rewrite E; auto.
Qed.

Lemma get_set_other k k' v m : k <> k' -> get k (set k' v m) = get k m.
Proof.
  intros Hne. induction m as [|[k2 v2] rest IH]; simpl.
  - now rewrite keq_neq.
  - destruct (keq k' k2) eqn:E; simpl.
    + apply keq_spec in E. subst k2. now rewrite keq_neq.
    + now rewrite IH.
Qed.


Lemma set_absent k v m : get k m = None -> set k v m = m ++ [(k, v)].
Proof.
  induction m as [|[k' v'] rest IH]; simpl; [reflexivity|].
  destruct (keq k k'); [discriminate|]. intros Hg. now rewrite IH.
Qed.

Lemma keys_set_present k v m : has k m = true -> keys (set k v m) = keys m.
Proof.
  unfold has. induction m as [|[k' v'] rest IH]; simpl; [discriminate|].
  destruct (keq k k') eqn:E; simpl; [reflexivity|].
  intros Hh. now rewrite IH.
Qed.

Lemma keys_set_absent k v m : has k m = false -> keys (set k v m) = keys m ++ [k].
Proof.
  unfold has. intros Hh. destruct (get k m) eqn:E; [discriminate|].
  rewrite set_absent by assumption. unfold keys. now rewrite map_app.
Qed.

Lemma In_keys_set k k' v m : In k (keys (set k' v m)) <-> k = k' \/ In k (keys m).
Proof.
  destruct (has k' m) eqn:E.
  - rewrite keys_set_present by assumption. split; [now right|].
    intros [->|Hin]; [now apply has_In_keys | assumption].
  - rewrite keys_set_absent by assumption. rewrite in_app_iff. simpl.
    split; [intros [Hin|[->|[]]]; auto | intros [->|Hin]; auto].
Qed.

Lemma wf_empty : wf (@empty K V).
Proof. constructor. Qed.

Lemma wf_set k v m : wf m -> wf (set k v m).
Proof.
  unfold wf. intros Hwf. destruct (has k m) eqn:E.
  - now rewrite keys_set_present.
  - rewrite keys_set_absent by assumption.
    apply NoDup_rev in Hwf. rewrite <- (rev_involutive (keys m ++ [k])).
    apply NoDup_rev. rewrite rev_app_distr. simpl. constructor; [|assumption].
    rewrite <- in_rev. intros Hin. apply has_In_keys in Hin. congruence.
Qed.

Lemma In_wf_get k v m : wf m -> In (k, v) m -> get k m = Some v.
Proof.
  unfold wf. induction m as [|[k' v'] rest IH]; simpl; [intros _ []|].
  intros Hnd [Heq|Hin].
  - inversion Heq; subst. now rewrite keq_refl.
  - inversion Hnd as [|? ? Hnotin Hnd']; subst.
    destruct (keq k k') eqn:E.
    + apply keq_spec in E. subst k'. exfalso. apply Hnotin.
      change (In (fst (k, v)) (map fst rest)). now apply in_map.
    + now apply IH.
Qed.

Lemma of_entries_from (l acc : list (K * V)) :
  NoDup (keys (acc ++ l)) ->
  fold_left (fun m kv => set (fst kv) (snd kv) m) l acc = acc ++ l.
Proof.
  revert acc. induction l as [|[k v] l IH]; intros acc Hnd; simpl.
  - now rewrite app_nil_r.
  - assert (Hk : get k acc = None).
    { apply get_None_keys. intros Hin. unfold keys in Hnd.
      rewrite map_app in Hnd. simpl in Hnd.
      apply NoDup_remove_2 in Hnd. apply Hnd. apply in_or_app. now left. }
    rewrite set_absent by assumption.
    rewrite IH; rewrite <- app_assoc; [reflexivity | exact Hnd].
Qed.

(** Rebuilding a table from its own entries gives the table back. *)
Lemma of_entries_entries m : wf m -> of_entries (entries m) = m.
Proof. intros Hwf. unfold of_entries, entries, empty. now rewrite of_entries_from. Qed.

End Table.
End JSMapFacts.

(* ================================================================== *)
(** ** Facts about numbers

    The primitive operations are specified by the comparison and the
    classification of [SpecFloat]; what the ledger needs of them is that
    the numbers other than [NaN] are totally preordered. *)

Module NumberFacts.
Import Number.

Lemma is_nan_spec x :
  PrimFloat.is_nan x = match Prim2SF x with S754_nan => true | _ => false end.
Proof.
  unfold PrimFloat.is_nan. rewrite eqb_spec. unfold SFeqb.
  destruct (Prim2SF x) as [s|s| |s m e]; cbn; try reflexivity.
  - destruct s; reflexivity.
  - rewrite Z.compare_refl, Pos.compare_cont_refl. destruct s; reflexivity.
Qed.

Lemma is_zero_spec x :
  PrimFloat.is_zero x = match Prim2SF x with S754_zero _ => true | _ => false end.
Proof.
  unfold PrimFloat.is_zero. rewrite eqb_spec. unfold SFeqb.
  change (Prim2SF zero) with (S754_zero false).
  destruct (Prim2SF x) as [s|s| |s m e]; cbn; try reflexivity; destruct s; reflexivity.
Qed.

Lemma is_infinity_spec x :
  PrimFloat.is_infinity x = match Prim2SF x with S754_infinity _ => true | _ => false end.
Proof.
  unfold PrimFloat.is_infinity. rewrite eqb_spec, abs_spec. unfold SFeqb.
  change (Prim2SF infinity) with (S754_infinity false).
  destruct (Prim2SF x) as [s|s| |s m e]; cbn; reflexivity.
Qed.

Lemma SFcompare_trans a b c r1 r2 :
  SFcompare a b = Some r1 -> SFcompare b c = Some r2 ->
  match r1, r2 with
  | Eq, r | r, Eq => SFcompare a c = Some r
  | Lt, Lt => SFcompare a c = Some Lt
  | Gt, Gt => SFcompare a c = Some Gt
  | _, _ => True
  end.
Proof.
  destruct a as [sa|sa| |sa ma ea], b as [sb|sb| |sb mb eb], c as [sc|sc| |sc mc ec];
    cbn; try discriminate;
    try destruct sa; try destruct sb; try destruct sc; cbn;
    intros H1 H2; inversion H1; inversion H2; subst; cbn; try reflexivity; try exact I;
    repeat match goal with
           | |- context [Z.compare ?x ?y] => destruct (Z.compare_spec x y); subst
           end; cbn; try reflexivity; try exact I; try lia;
    rewrite ?Z.compare_refl;
    repeat match goal with
           | |- context [Pos.compare_cont Eq ?x ?y] =>
               change (Pos.compare_cont Eq x y) with (Pos.compare x y);
               destruct (Pos.compare_spec x y); subst
           end; cbn; try reflexivity; try exact I; try lia;
    rewrite ?Pos.compare_refl; cbn; try reflexivity; try lia.
Qed.

Lemma SFcompare_opp a b : SFcompare b a = option_map CompOpp (SFcompare a b).
Proof.
  destruct a as [sa|sa| |sa ma ea], b as [sb|sb| |sb mb eb]; cbn; try reflexivity;
    try destruct sa; try destruct sb; cbn; try reflexivity;
    rewrite (Z.compare_antisym ea eb); destruct (Z.compare ea eb); cbn; try reflexivity;
    change (Pos.compare_cont Eq mb ma) with (Pos.compare mb ma);
    change (Pos.compare_cont Eq ma mb) with (Pos.compare ma mb);
    rewrite (Pos.compare_antisym ma mb); destruct (Pos.compare ma mb); reflexivity.
Qed.

Lemma SFcompare_refl a : a <> S754_nan -> SFcompare a a = Some Eq.
Proof.
  destruct a as [s|s| |s m e]; cbn; intros Hn; try reflexivity; try contradiction.
  - destruct s; reflexivity.
  - rewrite Z.compare_refl, Pos.compare_cont_refl. destruct s; reflexivity.
Qed.

Lemma SFcompare_None a b : SFcompare a b = None <-> a = S754_nan \/ b = S754_nan.
Proof.
  destruct a as [sa|sa| |sa ma ea], b as [sb|sb| |sb mb eb]; cbn;
    split; intros H; try discriminate; try (destruct H; discriminate); auto.
Qed.

Lemma not_nan x : PrimFloat.is_nan x = false <-> Prim2SF x <> S754_nan.
Proof. rewrite is_nan_spec. destruct (Prim2SF x); split; congruence. Qed.

Lemma compare_total x y :
  PrimFloat.is_nan x = false -> PrimFloat.is_nan y = false -> exists r, compare x y = Some r.
Proof.
  intros Hx Hy. unfold compare.
  destruct (SFcompare (Prim2SF x) (Prim2SF y)) as [r|] eqn:E.
  - now exists r.
  - apply SFcompare_None in E. apply not_nan in Hx, Hy. tauto.
Qed.

Lemma compare_Some x y r :
  compare x y = Some r -> PrimFloat.is_nan x = false /\ PrimFloat.is_nan y = false.
Proof.
  unfold compare. intros E. rewrite !not_nan. split; intros Hn; rewrite Hn in E.
  - discriminate.
  - destruct (Prim2SF x); discriminate.
Qed.

Lemma compare_refl x : PrimFloat.is_nan x = false -> compare x x = Some Eq.
Proof. intros Hx. apply SFcompare_refl. now apply not_nan. Qed.

Lemma compare_opp x y : compare y x = option_map CompOpp (compare x y).
Proof. apply SFcompare_opp. Qed.

Lemma lt_compare x y : (x < y)%num <-> compare x y = Some Lt.
Proof.
  unfold lt, compare. rewrite ltb_spec. unfold SFltb.
  destruct (SFcompare (Prim2SF x) (Prim2SF y)) as [[]|]; split; congruence.
Qed.

Lemma le_compare x y : (x <= y)%num <-> compare x y = Some Lt \/ compare x y = Some Eq.
Proof.
  unfold le, compare. rewrite leb_spec. unfold SFleb.
  destruct (SFcompare (Prim2SF x) (Prim2SF y)) as [[]|]; split; intros H;
    try congruence; auto; destruct H; congruence.
Qed.

Lemma ltb_false_compare x y : (x <? y)%float = false <-> compare x y <> Some Lt.
Proof.
  unfold compare. rewrite ltb_spec. unfold SFltb.
  destruct (SFcompare (Prim2SF x) (Prim2SF y)) as [[]|]; split; congruence.
Qed.

Ltac to_compare :=
  repeat match goal with
         | H : (_ < _)%num |- _ => apply lt_compare in H
         | H : (_ <= _)%num |- _ => apply le_compare in H
         | H : (_ <? _)%float = false |- _ => apply ltb_false_compare in H
         | H : (_ <? _)%float = true |- _ => apply lt_compare in H
         | |- (_ < _)%num => apply lt_compare
         | |- (_ <= _)%num => apply le_compare
         end.

Lemma le_refl x : PrimFloat.is_nan x = false -> (x <= x)%num.
Proof. intros Hx. apply le_compare. right. now apply compare_refl. Qed.

Lemma le_numbers x y :
  (x <= y)%num -> PrimFloat.is_nan x = false /\ PrimFloat.is_nan y = false.
Proof.
  intros H. apply le_compare in H. destruct H as [H|H]; exact (compare_Some _ _ _ H).
Qed.

Lemma lt_numbers x y :
  (x < y)%num -> PrimFloat.is_nan x = false /\ PrimFloat.is_nan y = false.
Proof. intros H. apply lt_compare in H. exact (compare_Some _ _ _ H). Qed.

Lemma lt_le x y : (x < y)%num -> (x <= y)%num.
Proof. intros H. to_compare. now left. Qed.

Lemma le_trans x y z : (x <= y)%num -> (y <= z)%num -> (x <= z)%num.
Proof.
  intros H1 H2. to_compare. unfold compare in *.
  destruct H1 as [H1|H1], H2 as [H2|H2];
    pose proof (SFcompare_trans _ _ _ _ _ H1 H2) as Ht; cbn in Ht; auto.
Qed.

Lemma lt_le_trans x y z : (x < y)%num -> (y <= z)%num -> (x < z)%num.
Proof.
  intros H1 H2. to_compare. unfold compare in *.
  destruct H2 as [H2|H2];
    pose proof (SFcompare_trans _ _ _ _ _ H1 H2) as Ht; cbn in Ht; auto.
Qed.

Lemma le_lt_trans x y z : (x <= y)%num -> (y < z)%num -> (x < z)%num.
Proof.
  intros H1 H2. to_compare. unfold compare in *.
  destruct H1 as [H1|H1];
    pose proof (SFcompare_trans _ _ _ _ _ H1 H2) as Ht; cbn in Ht; auto.
Qed.

Lemma lt_irrefl x : ~ (x < x)%num.
Proof.
  intros H. pose proof (lt_numbers _ _ H) as [Hx _]. to_compare.
  rewrite (compare_refl x Hx) in H. discriminate.
Qed.

(** Of two numbers, the first is below the second or the second is at
    most the first. *)
Lemma not_lt_le x y :
  PrimFloat.is_nan x = false -> PrimFloat.is_nan y = false ->
  (x <? y)%float = false -> (y <= x)%num.
Proof.
  intros Hx Hy H. to_compare. destruct (compare_total x y Hx Hy) as (r & Hr).
  rewrite compare_opp, Hr. destruct r; cbn; auto. congruence.
Qed.

Lemma le_not_lt x y : (x <= y)%num -> ~ (y < x)%num.
Proof.
  intros H1 H2. to_compare. rewrite compare_opp, H2 in H1. cbn in H1.
  destruct H1; discriminate.
Qed.

Lemma le_ltb x y : (x <= y)%num -> (y <? x)%float = false.
Proof.
  intros H. destruct (y <? x)%float eqn:E; [|reflexivity].
  exfalso. exact (le_not_lt _ _ H E).
Qed.

(** [Math.max] of two numbers is one of the two, and at least both. *)
Lemma Math_max_cases x y :
  PrimFloat.is_nan x = false -> PrimFloat.is_nan y = false ->
  (Math_max x y = x \/ Math_max x y = y) /\
  (x <= Math_max x y)%num /\ (y <= Math_max x y)%num.
Proof.
  intros Hx Hy. unfold Math_max. rewrite Hx, Hy. cbn [orb].
  destruct (x <? y)%float eqn:E1.
  - split; [now right|]. split; [now apply lt_le | now apply le_refl].
  - destruct (y <? x)%float eqn:E2.
    + split; [now left|]. split; [now apply le_refl | now apply lt_le].
    + pose proof (not_lt_le _ _ Hx Hy E1) as H1. pose proof (not_lt_le _ _ Hy Hx E2) as H2.
      destruct (get_sign x); split; auto; split; auto using le_refl.
Qed.


Lemma zero_le_zero : (0 <= 0)%num.
Proof. reflexivity. Qed.

(** A number that is not negative is cut to an integer that is not
    negative, or is [Infinity]. *)
Lemma to_integer_nonneg k :
  (0 <= k)%num ->
  match to_integer k with
  | NegInfinity => False
  | Integer z => 0 <= z
  | PosInfinity => True
  end.
Proof.
  intros H. apply le_compare in H. unfold compare in H.
  change (Prim2SF 0) with (S754_zero false) in H. unfold to_integer.
  destruct (Prim2SF k) as [s|s| |s m e]; cbn in *.
  - lia.
  - destruct s; [destruct H; discriminate | exact I].
  - lia.
  - destruct s; [destruct H; discriminate|]. cbn. apply Z.shiftl_nonneg. lia.
Qed.

(** A plain number comes back from JSON as it is. *)
Lemma json_number_plain x : plain x = true -> json_number x = Some x.
Proof.
  unfold plain, json_number. intros H. apply andb_true_iff in H. destruct H as [Hf Hz].
  rewrite Hf. apply negb_true_iff in Hz. now rewrite Hz.
Qed.

Lemma plain_number x : plain x = true -> PrimFloat.is_nan x = false.
Proof.
  unfold plain, PrimFloat.is_finite. intros H. apply andb_true_iff in H.
  destruct H as [H _]. apply negb_true_iff, orb_false_iff in H. tauto.
Qed.

End NumberFacts.

(* ================================================================== *)
(** ** Running the handlers *)

#[local] Arguments storeTransaction : simpl never.
#[local] Arguments storeBlock : simpl never.
#[local] Arguments blockchain_of : simpl never.
#[local] Arguments snapshot_of : simpl never.

Lemma forEach_store (l : list (option Transaction)) (n : Node) :
  forEach l (fun tx => modify_chain (storeTransaction tx)) n =
  (Returned tt,
   with_blockchain (fold_left (fun acc tx => storeTransaction tx acc) l (blockchain n)) n).
Proof.
  revert n. induction l as [|tx l IH]; intros n; simpl.
  - destruct n; reflexivity.
  - unfold bind, modify_chain, modify. rewrite IH. destruct n; reflexivity.
Qed.

Lemma storeTransaction_blocks tx bc : blocks (storeTransaction tx bc) = blocks bc.
Proof.
  unfold storeTransaction. destruct tx as [t|]; [|reflexivity].
  destruct (truthy (tx_id t)); [|reflexivity].
  destruct (truthy (fromAddress t)); destruct (truthy (toAddress t));
    try destruct (is_address _ _); reflexivity.
Qed.

Lemma storeTransaction_height tx bc :
  chain_height (storeTransaction tx bc) = chain_height bc.
Proof.
  unfold storeTransaction. destruct tx as [t|]; [|reflexivity].
  destruct (truthy (tx_id t)); [|reflexivity].
  destruct (truthy (fromAddress t)); destruct (truthy (toAddress t));
    try destruct (is_address _ _); reflexivity.
Qed.

Lemma store_all_blocks l bc :
  blocks (fold_left (fun acc tx => storeTransaction tx acc) l bc) = blocks bc.
Proof.
  revert bc. induction l as [|tx l IH]; intros bc; simpl; [reflexivity|].
  now rewrite IH, storeTransaction_blocks.
Qed.

Lemma store_all_height l bc :
  chain_height (fold_left (fun acc tx => storeTransaction tx acc) l bc) = chain_height bc.
Proof.
  revert bc. induction l as [|tx l IH]; intros bc; simpl; [reflexivity|].
  now rewrite IH, storeTransaction_height.
Qed.

Lemma storeBlock_blocks b bc :
  blocks (storeBlock b bc) = JSMap.set (hash b) b (blocks bc).
Proof.
  unfold storeBlock. destruct (transactions b) as [[l|]|]; try reflexivity.
  now rewrite store_all_blocks.
Qed.

Lemma storeBlock_height b bc :
  chain_height (storeBlock b bc) =
  Some (Math_max (to_number (chain_height bc)) (block_height b)).
Proof.
  unfold storeBlock. destruct (transactions b) as [[l|]|]; try reflexivity.
  now rewrite store_all_height.
Qed.

(** The relay loop writes one frame per recipient and touches neither
    the ledger nor the snapshot file. *)
Lemma broadcast_loop_run es message exclude sentCount n :
  exists count ps,
    broadcast_loop es message exclude sentCount n =
    (Returned count,
     {| blockchain := blockchain n;
        peers := ps;
        wire := wire n ++
          map (fun e => mkSent (ws_handle (ws (snd e))) (Relayed message))
            (filter (fun e => differs (fst e) exclude && is_open (readyState (ws (snd e)))) es);
        disk := disk n |}).
Proof.
  revert sentCount n. induction es as [|[key p] es IH]; intros sentCount n; simpl.
  - exists sentCount, (peers n). unfold ret. rewrite app_nil_r. destruct n; reflexivity.
  - destruct (differs key exclude && is_open (readyState (ws p))) eqn:E.
    + apply andb_true_iff in E. destruct E as [_ Hopen].
      unfold bind, Peer_send. rewrite Hopen.
      unfold bind, ws_send, modify. simpl.
      match goal with |- context [broadcast_loop es message exclude ?c ?n'] =>
        destruct (IH c n') as (count & ps & Hrun) end.
      rewrite Hrun. exists count, ps. simpl. rewrite <- app_assoc. reflexivity.
    + apply IH.
Qed.

Lemma broadcastToPeers_run message n :
  exists count ps,
    broadcastToPeers message (senderId message) n =
    (Returned count,
     {| blockchain := blockchain n; peers := ps;
        wire := wire n ++ fan_out message (peers n); disk := disk n |}).
Proof.
  unfold broadcastToPeers, bind, gets, JSMap.entries.
  destruct (broadcast_loop_run (peers n) message (senderId message) 0 n)
    as (count & ps & Hrun).
  exists count, ps. rewrite Hrun. reflexivity.
Qed.

Section Handling.

Variable decode_sync : option string -> option SyncRequest.
Variable decode_block : option string -> option Block.
Variable decode_tx : option string -> option Transaction.

(** A block broadcast that does not decode, or whose hash is known,
    changes nothing at all. *)
Lemma handleBlockBroadcast_undecodable m n :
  decode_block (payload m) = None ->
  exec (handleBlockBroadcast decode_block m) n = n.
Proof.
  intros Hd. unfold exec, handleBlockBroadcast, try_catch, bind, decoded.
  rewrite Hd. reflexivity.
Qed.

Lemma handleBlockBroadcast_known m b n :
  decode_block (payload m) = Some b ->
  JSMap.has (hash b) (blocks (blockchain n)) = true ->
  exec (handleBlockBroadcast decode_block m) n = n.
Proof.
  intros Hd Hh. unfold exec, handleBlockBroadcast, try_catch, bind, decoded, gets.
  rewrite Hd. simpl. rewrite Hh. reflexivity.
Qed.

Lemma relay_then_return message exclude n :
  snd (bind (broadcastToPeers message exclude) (fun _ => ret tt) n) =
  snd (broadcastToPeers message exclude n).
Proof.
  unfold bind. destruct (broadcastToPeers message exclude n) as [[c|] n2]; reflexivity.
Qed.

(** A new block is stored; what follows the store is the relay, unless
    the block makes the handler throw, and then it is nothing. *)
Lemma handleBlockBroadcast_stored m b n :
  decode_block (payload m) = Some b ->
  JSMap.has (hash b) (blocks (blockchain n)) = false ->
  exec (handleBlockBroadcast decode_block m) n =
  if well_formed b
  then snd (broadcastToPeers m (senderId m)
              (with_blockchain (storeBlock b (blockchain n)) n))
  else with_blockchain (storeBlock b (blockchain n)) n.
Proof.
  intros Hd Hh. unfold exec, handleBlockBroadcast, try_catch, bind, decoded, gets.
  rewrite Hd. cbn [ret snd]. rewrite Hh.
  unfold modify_chain, modify, storeBlock, well_formed, hash_prefix.
  destruct (transactions b) as [[l|]|]; cbn [andb].
  - rewrite forEach_store.
    destruct (hash b); cbn [snd throw ret]; try (destruct n; reflexivity);
      (etransitivity; [apply relay_then_return | destruct n; reflexivity]).
  - destruct n; reflexivity.
  - destruct (hash b); cbn [snd throw ret]; try (destruct n; reflexivity);
      (etransitivity; [apply relay_then_return | destruct n; reflexivity]).
Qed.

Lemma handleBlockBroadcast_new m b n :
  decode_block (payload m) = Some b ->
  JSMap.has (hash b) (blocks (blockchain n)) = false ->
  exists ps,
    exec (handleBlockBroadcast decode_block m) n =
    {| blockchain := storeBlock b (blockchain n); peers := ps;
       wire := wire n ++ (if well_formed b then fan_out m (peers n) else []);
       disk := disk n |}.
Proof.
  intros Hd Hh. rewrite (handleBlockBroadcast_stored m b n Hd Hh).
  destruct (well_formed b).
  - destruct (broadcastToPeers_run m (with_blockchain (storeBlock b (blockchain n)) n))
      as (count & ps & Hrun).
    rewrite Hrun. exists ps. reflexivity.
  - exists (peers n). rewrite app_nil_r. destruct n; reflexivity.
Qed.

Lemma handleTransactionBroadcast_undecodable m n :
  decode_tx (payload m) = None ->
  exec (handleTransactionBroadcast decode_tx m) n = n.
Proof.
  intros Hd. unfold exec, handleTransactionBroadcast, try_catch, bind, decoded.
  rewrite Hd. reflexivity.
Qed.

Lemma handleTransactionBroadcast_decoded m tx n :
  decode_tx (payload m) = Some tx ->
  exists ps,
    exec (handleTransactionBroadcast decode_tx m) n =
    {| blockchain := storeTransaction (Some tx) (blockchain n); peers := ps;
       wire := wire n ++ fan_out m (peers n); disk := disk n |}.
Proof.
  intros Hd. unfold exec, handleTransactionBroadcast, try_catch, bind, decoded.
  rewrite Hd. unfold modify_chain, modify, ret.
  match goal with |- context [broadcastToPeers m (senderId m) ?n0] =>
    destruct (broadcastToPeers_run m n0) as (count & ps & Hrun) end.
  rewrite Hrun. exists ps. reflexivity.
Qed.

Lemma handleSyncRequest_undecodable now fresh m socket n :
  decode_sync (payload m) = None ->
  exec (handleSyncRequest decode_sync now fresh m socket) n = n.
Proof.
  intros Hd. unfold exec, handleSyncRequest, try_catch, bind, decoded.
  rewrite Hd. reflexivity.
Qed.

(** A sync request that decodes is answered with exactly one frame, on
    the requesting socket. *)
Lemma handleSyncRequest_decoded now fresh m socket req n :
  decode_sync (payload m) = Some req ->
  exists resp,
    exec (handleSyncRequest decode_sync now fresh m socket) n =
      with_wire (wire n ++ [mkSent (ws_handle socket) (Response resp)]) n /\
    r_blocks (r_payload resp) = blocks_after req (blockchain n) /\
    userTransactions (r_payload resp) =
      resolve_txs (user_index (userAddress req) (blockchain n)) (blockchain n) /\
    currentHeight (r_payload resp) = chain_height (blockchain n) /\
    currentBalances (r_payload resp) =
      (userAddress req, user_balance (userAddress req) (blockchain n)).
Proof.
  intros Hd. unfold exec, handleSyncRequest, try_catch, bind, decoded, gets.
  rewrite Hd. simpl. eexists. split; [reflexivity|]. simpl. repeat split.
Qed.

End Handling.

(* ================================================================== *)
(** ** Sync is read-only *)

(** C8.  Handling a [syncRequest] never changes the ledger: whatever the
    envelope, its payload and the state of the node, the block table, the
    transaction table, the address index and the height are afterwards
    what they were before. *)
Theorem handleSyncRequest_leaves_ledger
    (decode_sync : option string -> option SyncRequest)
    (now : Z) (fresh : string) (m : Message) (socket : WebSocket) (n : Node) :
  let n' := exec (handleSyncRequest decode_sync now fresh m socket) n in
  blocks (blockchain n') = blocks (blockchain n) /\
  txs (blockchain n') = txs (blockchain n) /\
  txByAddress (blockchain n') = txByAddress (blockchain n) /\
  chain_height (blockchain n') = chain_height (blockchain n).
Proof.
  intros n'. subst n'.
  destruct (decode_sync (payload m)) as [req|] eqn:Hd.
  - destruct (handleSyncRequest_decoded decode_sync now fresh m socket req n Hd)
      as (resp & Hrun & _).
    rewrite Hrun. simpl. repeat split.
  - rewrite handleSyncRequest_undecodable by assumption. repeat split.
Qed.

(* ================================================================== *)
(** ** Duplicate block broadcasts *)




(* ================================================================== *)
(** ** Storing a transaction *)

Lemma index_push_same a id ix :
  get_or_nil a (index_push a id ix) = get_or_nil a ix ++ [id].
Proof.
  unfold get_or_nil, index_push. destruct (JSMap.has a ix) eqn:Hh.
  - unfold JSMap.has in Hh. destruct (JSMap.get a ix) as [ids|] eqn:Hg; [|discriminate].
    now rewrite JSMapFacts.get_set_same.
  - unfold JSMap.has in Hh. destruct (JSMap.get a ix) eqn:Hg; [discriminate|].
    rewrite JSMapFacts.get_set_same. now rewrite JSMapFacts.get_set_same.
Qed.

Lemma index_push_other a b id ix :
  a <> b -> get_or_nil a (index_push b id ix) = get_or_nil a ix.
Proof.
  intros Hne. unfold get_or_nil, index_push.
  destruct (JSMap.has b ix) eqn:Hh.
  - unfold JSMap.has in Hh. destruct (JSMap.get b ix) as [ids|] eqn:Hg; [|discriminate].
    now rewrite JSMapFacts.get_set_other.
  - rewrite JSMapFacts.get_set_same.
    now rewrite !JSMapFacts.get_set_other.
Qed.

Lemma index_push_wf a id ix : JSMap.wf ix -> JSMap.wf (index_push a id ix).
Proof.
  intros Hwf. unfold index_push.
  destruct (JSMap.has a ix).
  - destruct (JSMap.get a ix); [now apply JSMapFacts.wf_set | assumption].
  - rewrite JSMapFacts.get_set_same. now do 2 apply JSMapFacts.wf_set.
Qed.

(** The index of an address only grows when another id is pushed. *)
Lemma index_push_keeps a b id ix x :
  In x (get_or_nil a ix) -> In x (get_or_nil a (index_push b id ix)).
Proof.
  intros Hin. destruct (string_dec a b) as [->|Hne].
  - rewrite index_push_same. apply in_or_app. now left.
  - now rewrite index_push_other.
Qed.

Lemma truthy_Some o s : truthy o = Some s -> o = Some s /\ s <> "".
Proof.
  unfold truthy. destruct o as [x|]; [|discriminate].
  destruct (String.eqb x "") eqn:E; [discriminate|].
  intros Hx. inversion Hx; subst. split; [reflexivity|].
  now apply String.eqb_neq.
Qed.

Lemma is_address_true o a : is_address o a = true <-> o = Some a.
Proof.
  unfold is_address. destruct o as [s|]; [|split; discriminate].
  rewrite String.eqb_eq. split; [now intros -> | now inversion 1].
Qed.

(** What [storeTransaction] does with a transaction that has an id. *)
Lemma storeTransaction_stored t id bc :
  truthy (tx_id t) = Some id ->
  storeTransaction (Some t) bc =
  {| blocks := blocks bc; txs := JSMap.set id t (txs bc);
     chain_height := chain_height bc; tips := tips bc;
     txByAddress := index_after t id (txByAddress bc);
     genesisHash := genesisHash bc |}.
Proof.
  intros Hid. unfold storeTransaction, index_after. rewrite Hid.
  destruct (truthy (fromAddress t)); destruct (truthy (toAddress t));
    try destruct (is_address _ _); reflexivity.
Qed.

(** A transaction that is [null] or has no id is not stored. *)
Lemma storeTransaction_without_id t bc :
  truthy (tx_id t) = None -> storeTransaction (Some t) bc = bc.
Proof. intros Hid. unfold storeTransaction. now rewrite Hid. Qed.

Lemma storeTransaction_null bc : storeTransaction None bc = bc.
Proof. reflexivity. Qed.

(** C7.  A transaction with an id whose [fromAddress] and [toAddress] are
    one and the same address [a] (a non-empty string), stored on a ledger
    whose index of [a] does not list the id, is appended to the index of
    [a] once: the index grows by exactly that id, which then occurs in it
    once and not twice. *)
Theorem storeTransaction_self_transfer_indexed_once
    (bc : Blockchain) (tx : Transaction) (id a : string) :
  truthy (tx_id tx) = Some id ->
  truthy (fromAddress tx) = Some a ->
  toAddress tx = fromAddress tx ->
  ~ In id (index_of a bc) ->
  index_of a (storeTransaction (Some tx) bc) = index_of a bc ++ [id] /\
  count_occ string_dec (index_of a (storeTransaction (Some tx) bc)) id = 1%nat.
Proof.
  intros Hid Hfrom Hto Hnew.
  assert (Hix : index_of a (storeTransaction (Some tx) bc) = index_of a bc ++ [id]).
  { rewrite (storeTransaction_stored tx id bc Hid).
    unfold index_of, index_after. simpl. rewrite Hto, Hfrom.
    apply truthy_Some in Hfrom. destruct Hfrom as [Hfrom _].
    rewrite (proj2 (is_address_true (fromAddress tx) a) Hfrom).
    apply (index_push_same a id (txByAddress bc)). }
  split; [exact Hix|].
  rewrite Hix, count_occ_app. simpl.
  rewrite (proj1 (count_occ_not_In string_dec _ _) Hnew).
  destruct (string_dec id id); [reflexivity | contradiction].
Qed.

Lemma storeTransaction_self_transfer_indexed_once_witness :
  index_of "carol" (storeTransaction (Some Sample.self_pay) (blockchain Sample.booted)) =
    index_of "carol" (blockchain Sample.booted) ++ ["t2"] /\
  count_occ string_dec
    (index_of "carol" (storeTransaction (Some Sample.self_pay) (blockchain Sample.booted)))
    "t2" = 1%nat.
Proof.
  apply (storeTransaction_self_transfer_indexed_once
           (blockchain Sample.booted) Sample.self_pay "t2" "carol");
    try reflexivity.
  vm_compute. intros [].
Defined.

(* ================================================================== *)
(** ** Genesis *)

(** C9.  Genesis bootstrap on the empty store, with the allocation table
    treasury 100000000, team 20000000, validators 10000000,
    community_rewards 30000000, liquidity_pool 40000000, gives a ledger of
    height 0 that holds exactly 5 transactions and in which the balance of
    [treasury] is 100000000. *)
Theorem genesis_bootstrap
    (now : Z) (sha256_hex : string -> string)
    (JSON_stringify_txs : list Transaction -> string) :
  let bc := blockchain (exec (createGenesisBlock now sha256_hex JSON_stringify_txs) initialNode) in
  initialSupply =
    [ ("treasury", 100000000%float); ("team", 20000000%float);
      ("validators", 10000000%float); ("community_rewards", 30000000%float);
      ("liquidity_pool", 40000000%float) ] /\
  chain_height bc = Some 0%float /\
  JSMap.size (txs bc) = 5 /\
  calculateBalance "treasury" bc = 100000000%float.
Proof.
  vm_compute. repeat split.
Qed.

(* ================================================================== *)
(** ** Invariants of the ledger *)

Lemma forEach_modify_chain {A} (f : A -> Blockchain -> Blockchain) (l : list A) (n : Node) :
  forEach l (fun x => modify_chain (f x)) n =
  (Returned tt, with_blockchain (fold_left (fun acc x => f x acc) l (blockchain n)) n).
Proof.
  revert n. induction l as [|x l IH]; intros n; simpl.
  - destruct n; reflexivity.
  - unfold bind, modify_chain, modify. rewrite IH. destruct n; reflexivity.
Qed.

Lemma number_or_number o d :
  PrimFloat.is_nan d = false -> PrimFloat.is_nan (number_or o d) = false.
Proof.
  intros Hd. unfold number_or. destruct o as [n|]; [|exact Hd].
  destruct (Number.falsy n) eqn:E; [exact Hd|].
  unfold Number.falsy in E. apply orb_false_iff in E. tauto.
Qed.

(** The height of a block is a number, whatever its header says. *)
Lemma block_height_number b : PrimFloat.is_nan (block_height b) = false.
Proof.
  unfold block_height. destruct (header b) as [h|]; [|reflexivity].
  now apply number_or_number.
Qed.

Lemma ledger_ok_empty : ledger_ok emptyBlockchain.
Proof.
  constructor; simpl; try apply JSMapFacts.wf_empty.
  - exact NumberFacts.zero_le_zero.
  - intros id tx a Hg. discriminate.
Qed.

Lemma index_after_wf t id ix : JSMap.wf ix -> JSMap.wf (index_after t id ix).
Proof.
  intros Hwf. unfold index_after.
  destruct (truthy (fromAddress t)); destruct (truthy (toAddress t));
    try destruct (is_address _ _); auto using index_push_wf.
Qed.

Lemma index_after_keeps t id ix a x :
  In x (get_or_nil a ix) -> In x (get_or_nil a (index_after t id ix)).
Proof.
  intros Hin. unfold index_after.
  destruct (truthy (fromAddress t)); destruct (truthy (toAddress t));
    try destruct (is_address _ _); auto using index_push_keeps.
Qed.

(** The stored id is listed under both of its addresses. *)
Lemma index_after_lists t id ix a :
  truthy (fromAddress t) = Some a \/ truthy (toAddress t) = Some a ->
  In id (get_or_nil a (index_after t id ix)).
Proof.
  assert (Hlast : forall b m, In id (get_or_nil b (index_push b id m))).
  { intros b m. rewrite index_push_same. apply in_or_app. right. now left. }
  unfold index_after. intros [Hfrom|Hto].
  - rewrite Hfrom. destruct (truthy (toAddress t)) as [to|]; [|apply Hlast].
    destruct (is_address (fromAddress t) to); [apply Hlast|].
    apply index_push_keeps, Hlast.
  - rewrite Hto. destruct (is_address (fromAddress t) a) eqn:Hsame; [|apply Hlast].
    apply is_address_true in Hsame.
    assert (Hfrom : truthy (fromAddress t) = Some a).
    { apply truthy_Some in Hto. destruct Hto as [_ Hne]. rewrite Hsame. simpl.
      destruct (String.eqb a "") eqn:E; [|reflexivity].
      apply String.eqb_eq in E. contradiction. }
    rewrite Hfrom. apply Hlast.
Qed.

Lemma storeTransaction_ok tx bc : ledger_ok bc -> ledger_ok (storeTransaction tx bc).
Proof.
  intros Hok. destruct tx as [t|]; [|exact Hok].
  destruct (truthy (tx_id t)) as [id|] eqn:Hid.
  2: { now rewrite storeTransaction_without_id. }
  rewrite (storeTransaction_stored t id bc Hid).
  destruct Hok as [Hb Ht Hi Hh Hx].
  constructor; simpl.
  1: exact Hb.
  1: now apply JSMapFacts.wf_set.
  1: now apply index_after_wf.
  1: exact Hh.
  intros id' tx' a Hg Haddr. unfold index_of. simpl in *.
  destruct (string_dec id' id) as [->|Hne].
  - rewrite JSMapFacts.get_set_same in Hg. inversion Hg; subst tx'.
    now apply index_after_lists.
  - rewrite JSMapFacts.get_set_other in Hg by assumption.
    apply index_after_keeps. exact (Hx id' tx' a Hg Haddr).
Qed.

Lemma store_all_ok l bc :
  ledger_ok bc -> ledger_ok (fold_left (fun acc tx => storeTransaction tx acc) l bc).
Proof.
  revert bc. induction l as [|tx l IH]; intros bc Hok; simpl; [exact Hok|].
  apply IH. now apply storeTransaction_ok.
Qed.

(** The invariant does not look at the tips or at the genesis hash, and
    it survives a new block entry and any non-negative height. *)
Lemma ledger_ok_update bc b h tp g :
  ledger_ok bc -> JSMap.wf b -> (0 <= to_number h)%num ->
  ledger_ok {| blocks := b; txs := txs bc; chain_height := h; tips := tp;
               txByAddress := txByAddress bc; genesisHash := g |}.
Proof.
  intros [Hb Ht Hi Hh Hx] Hwf Hpos. constructor; simpl; auto.
Qed.

Lemma storeBlock_ok b bc : ledger_ok bc -> ledger_ok (storeBlock b bc).
Proof.
  intros Hok. unfold storeBlock.
  assert (Hok2 : ledger_ok
            (with_height (Some (Math_max (to_number (chain_height bc)) (block_height b)))
               (with_blocks (JSMap.set (hash b) b (blocks bc)) bc))).
  { apply (ledger_ok_update bc); [exact Hok | | ].
    - apply JSMapFacts.wf_set. apply Hok.
    - destruct Hok as [_ _ _ Hh _]. cbn [to_number chain_height with_blocks].
      pose proof (NumberFacts.le_numbers _ _ Hh) as [_ Hn].
      destruct (NumberFacts.Math_max_cases _ _ Hn (block_height_number b)) as (_ & Hle & _).
      exact (NumberFacts.le_trans _ _ _ Hh Hle). }
  destruct (transactions b) as [[l|]|]; [now apply store_all_ok | exact Hok2 | exact Hok2].
Qed.

Lemma wf_of_entries {K V} `{KeyEqLaws K} (l : list (K * V)) : JSMap.wf (JSMap.of_entries l).
Proof.
  unfold JSMap.of_entries.
  assert (Hgen : forall acc : JSMap.t K V, JSMap.wf acc ->
            JSMap.wf (fold_left (fun m kv => JSMap.set (fst kv) (snd kv) m) l acc)).
  { induction l as [|kv l IH]; intros acc Hacc; simpl; [exact Hacc|].
    apply IH. now apply JSMapFacts.wf_set. }
  apply Hgen, JSMapFacts.wf_empty.
Qed.

(** A table whose values have gone through JSON: same keys, in the
    same order. *)
Lemma keys_map_values {K V} (f : V -> V) (m : JSMap.t K V) :
  JSMap.keys (map (fun e => (fst e, f (snd e))) m) = JSMap.keys m.
Proof. unfold JSMap.keys. rewrite map_map. reflexivity. Qed.

Lemma of_entries_map_values {K V} `{KeyEqLaws K} (f : V -> V) (m : JSMap.t K V) :
  JSMap.wf m ->
  JSMap.of_entries (map (fun e => (fst e, f (snd e))) (JSMap.entries m)) =
  map (fun e => (fst e, f (snd e))) m.
Proof.
  intros Hwf. apply (JSMapFacts.of_entries_entries (map (fun e => (fst e, f (snd e))) m)).
  unfold JSMap.wf. now rewrite keys_map_values.
Qed.

Lemma get_map_values {K V} `{KeyEq K} (f : V -> V) (m : JSMap.t K V) k :
  JSMap.get k (map (fun e => (fst e, f (snd e))) m) = option_map f (JSMap.get k m).
Proof.
  induction m as [|[k' v] rest IH]; [reflexivity|].
  cbn [map JSMap.get fst snd]. destruct (keq k k'); [reflexivity | exact IH].
Qed.

Lemma json_field_nonneg h :
  (0 <= to_number h)%num -> (0 <= to_number (json_field h))%num.
Proof.
  destruct h as [x|]; cbn [json_field to_number]; [|auto]. intros Hx.
  unfold json_number. destruct (PrimFloat.is_finite x); [|exact NumberFacts.zero_le_zero].
  cbn [to_number]. destruct (Number.negative_zero x);
    [exact NumberFacts.zero_le_zero | exact Hx].
Qed.

(** A snapshot of a sound ledger loads as a sound ledger. *)
Lemma snapshot_ok now bc : ledger_ok bc -> ledger_ok (blockchain_of (snapshot_of now bc)).
Proof.
  intros Hok. destruct Hok as [Hb Ht Hi Hh Hx].
  unfold blockchain_of, snapshot_of.
  cbn [s_blocks s_transactions s_txByAddress s_height s_tips s_genesisHash].
  constructor; cbn [blocks txs txByAddress chain_height].
  - apply wf_of_entries.
  - rewrite (of_entries_map_values json_tx _ Ht). unfold JSMap.wf.
    now rewrite keys_map_values.
  - now rewrite JSMapFacts.of_entries_entries.
  - now apply json_field_nonneg.
  - unfold indexed_under, index_of. cbn [txs txByAddress].
    rewrite (of_entries_map_values json_tx _ Ht).
    rewrite JSMapFacts.of_entries_entries by assumption.
    intros id tx a Hg Haddr. rewrite get_map_values in Hg.
    destruct (JSMap.get id (txs bc)) as [tx0|] eqn:Hg0; [|discriminate].
    cbn [option_map] in Hg. inversion Hg; subst tx.
    exact (Hx id tx0 a Hg0 Haddr).
Qed.


Lemma createGenesisBlock_run now sha256_hex JSON_stringify_txs n :
  exists bc,
    exec (createGenesisBlock now sha256_hex JSON_stringify_txs) n =
      with_disk (Some (snapshot_of now bc)) (with_blockchain bc n) /\
    (ledger_ok (blockchain n) -> ledger_ok bc).
Proof.
  unfold exec, createGenesisBlock.
  generalize (indexed 0 initialSupply). intros l.
  generalize (sha256_hex ("ziwio-genesis-block" ++ decimal_of_Z now)%string). intros h.
  generalize (genesis_tx now). intros mk.
  unfold bind. rewrite forEach_modify_chain.
  set (bc0 := fold_left (fun acc x => storeTransaction (Some (mk (fst x) (snd x))) acc)
                l (blockchain n)).
  assert (Hfold : ledger_ok (blockchain n) -> ledger_ok bc0).
  { subst bc0. generalize (blockchain n).
    induction l as [|x l IH]; intros bc Hok; cbn [fold_left].
    - exact Hok.
    - apply IH. now apply storeTransaction_ok. }
  clearbody bc0.
  unfold modify_chain, modify, saveBlockchain, try_catch, bind, gets.
  cbn [snd fst blockchain with_blockchain peers wire disk].
  eexists. split; [reflexivity|].
  intros Hok. specialize (Hfold Hok).
  unfold with_genesisHash, add_tip, with_height, with_blocks.
  cbn [blocks txs chain_height tips txByAddress genesisHash].
  apply (ledger_ok_update _ _ (Some 0%float) _ _ Hfold);
    [|exact NumberFacts.zero_le_zero].
  apply JSMapFacts.wf_set. apply Hfold.
Qed.

Lemma initialize_run now sha256_hex JSON_stringify_txs n :
  exec (initialize now sha256_hex JSON_stringify_txs) n =
  match disk n with
  | Some data => with_blockchain (blockchain_of data) n
  | None => exec (createGenesisBlock now sha256_hex JSON_stringify_txs) n
  end.
Proof.
  unfold exec, initialize, loadBlockchain, bind, gets. cbv beta.
  destruct (disk n) as [data|]; reflexivity.
Qed.

Lemma initialize_ok now sha256_hex JSON_stringify_txs n :
  node_ok n -> node_ok (exec (initialize now sha256_hex JSON_stringify_txs) n).
Proof.
  intros [Hledger Hdisk]. rewrite initialize_run.
  destruct (disk n) as [data|] eqn:Hd.
  - split; simpl.
    + now apply Hdisk.
    + intros data' Hd'. apply Hdisk. congruence.
  - destruct (createGenesisBlock_run now sha256_hex JSON_stringify_txs n)
      as (bc & Hrun & Hbc).
    rewrite Hrun. split; simpl.
    + now apply Hbc.
    + intros data Heq. inversion Heq; subst data. apply snapshot_ok. now apply Hbc.
Qed.

Section Invariant.

Variable decode_sync : option string -> option SyncRequest.
Variable decode_block : option string -> option Block.
Variable decode_tx : option string -> option Transaction.
Variable sha256_hex : string -> string.
Variable JSON_stringify_txs : list Transaction -> string.

Lemma initialNode_ok : node_ok initialNode.
Proof. split; [apply ledger_ok_empty | discriminate]. Qed.

Lemma handleBlockBroadcast_ok m n :
  node_ok n -> node_ok (exec (handleBlockBroadcast decode_block m) n).
Proof.
  intros Hok. destruct (decode_block (payload m)) as [b|] eqn:Hd.
  - destruct (JSMap.has (hash b) (blocks (blockchain n))) eqn:Hh.
    + now rewrite (handleBlockBroadcast_known decode_block m b n Hd Hh).
    + destruct (handleBlockBroadcast_new decode_block m b n Hd Hh) as (ps & Hrun).
      rewrite Hrun. destruct Hok as [Hledger Hdisk]. split; simpl.
      * now apply storeBlock_ok.
      * exact Hdisk.
  - now rewrite handleBlockBroadcast_undecodable.
Qed.

Lemma handleTransactionBroadcast_ok m n :
  node_ok n -> node_ok (exec (handleTransactionBroadcast decode_tx m) n).
Proof.
  intros Hok. destruct (decode_tx (payload m)) as [tx|] eqn:Hd.
  - destruct (handleTransactionBroadcast_decoded decode_tx m tx n Hd) as (ps & Hrun).
    rewrite Hrun. destruct Hok as [Hledger Hdisk]. split; simpl.
    + now apply storeTransaction_ok.
    + exact Hdisk.
  - now rewrite handleTransactionBroadcast_undecodable.
Qed.

Lemma handleSyncRequest_ok now fresh m socket n :
  node_ok n -> node_ok (exec (handleSyncRequest decode_sync now fresh m socket) n).
Proof.
  intros Hok. destruct (decode_sync (payload m)) as [req|] eqn:Hd.
  - destruct (handleSyncRequest_decoded decode_sync now fresh m socket req n Hd)
      as (resp & Hrun & _).
    rewrite Hrun. exact Hok.
  - now rewrite handleSyncRequest_undecodable.
Qed.

Lemma saveBlockchain_ok now n : node_ok n -> node_ok (exec (saveBlockchain now) n).
Proof.
  intros [Hledger Hdisk]. unfold exec, saveBlockchain, try_catch, bind, gets, modify.
  simpl. split; simpl; [exact Hledger|].
  intros data Heq. inversion Heq; subst data. now apply snapshot_ok.
Qed.

(** Every state the node goes through satisfies the invariant. *)
Lemma reachable_ok n :
  reachable decode_sync decode_block decode_tx sha256_hex JSON_stringify_txs n ->
  node_ok n.
Proof.
  induction 1 as [now | n now _ IH | n now fresh m socket _ IH | n m _ IH
                 | n m _ IH | n now _ IH | n ps _ IH].
  - apply initialize_ok, initialNode_ok.
  - apply initialize_ok. split; [apply ledger_ok_empty | apply IH].
  - now apply handleSyncRequest_ok.
  - now apply handleBlockBroadcast_ok.
  - now apply handleTransactionBroadcast_ok.
  - now apply saveBlockchain_ok.
  - exact IH.
Qed.

End Invariant.

(* ================================================================== *)
(** ** The blocks of a sync response *)

Section Sorting.

Context {A : Type} (after : A -> A -> bool) (R : A -> A -> Prop).

Hypothesis not_after : forall x y, after x y = false -> R x y.
Hypothesis is_after : forall x y, after x y = true -> R y x.

Lemma insert_by_In x y l : In y (insert_by after x l) <-> y = x \/ In y l.
Proof.
  induction l as [|z l IH]; simpl.
  - intuition.
  - destruct (after x z); simpl; [|intuition].
    rewrite IH. intuition.
Qed.

Lemma sort_by_In y l : In y (sort_by after l) <-> In y l.
Proof.
  induction l as [|x l IH]; simpl; [reflexivity|].
  rewrite insert_by_In, IH. intuition.
Qed.

Lemma insert_by_HdRel a x l :
  HdRel R a l -> R a x -> HdRel R a (insert_by after x l).
Proof.
  intros Hhd Hax. destruct l as [|z l]; simpl.
  - now constructor.
  - destruct (after x z); constructor; [|exact Hax].
    now apply HdRel_inv in Hhd.
Qed.

Lemma insert_by_Sorted x l : Sorted R l -> Sorted R (insert_by after x l).
Proof.
  induction 1 as [|z l Hs IH Hhd]; simpl.
  - repeat constructor.
  - destruct (after x z) eqn:E.
    + constructor; [exact IH|].
      apply insert_by_HdRel; [exact Hhd | now apply is_after].
    + apply not_after in E. repeat constructor; assumption.
Qed.

Lemma sort_by_Sorted l : Sorted R (sort_by after l).
Proof.
  induction l as [|x l IH]; simpl; [constructor | now apply insert_by_Sorted].
Qed.

End Sorting.

(** Sorting by a key that is never [NaN]. *)
Lemma sort_ascending {A} (key : A -> number) (l : list A) :
  (forall x, PrimFloat.is_nan (key x) = false) ->
  Sorted (fun a b => (key a <= key b)%num) (sort_by (ascending_by key) l).
Proof.
  intros Hkey. apply sort_by_Sorted; unfold ascending_by; intros x y E.
  - now apply NumberFacts.not_lt_le.
  - now apply NumberFacts.lt_le.
Qed.


Lemma firstn_In_list {A} (k : nat) (l : list A) (x : A) : In x (firstn k l) -> In x l.
Proof.
  revert l. induction k as [|k IH]; intros [|y l]; simpl; try tauto.
  intros [->|Hin]; [now left | right; now apply IH].
Qed.

Lemma firstn_Sorted {A} (R : A -> A -> Prop) (k : nat) (l : list A) :
  Sorted R l -> Sorted R (firstn k l).
Proof.
  revert l. induction k as [|k IH]; intros l Hs; [constructor|].
  destruct l as [|x l]; [constructor|]. simpl.
  apply Sorted_inv in Hs. destruct Hs as [Hs Hhd].
  constructor; [now apply IH|].
  destruct l as [|y l]; [destruct k; constructor|].
  apply HdRel_inv in Hhd. destruct k; simpl; now constructor.
Qed.

Lemma slice0_In {A} (stop : Z) (l : list A) (x : A) : In x (slice0 stop l) -> In x l.
Proof. unfold slice0. apply firstn_In_list. Qed.

Lemma slice0_Sorted {A} (R : A -> A -> Prop) (stop : Z) (l : list A) :
  Sorted R l -> Sorted R (slice0 stop l).
Proof. unfold slice0. apply firstn_Sorted. Qed.

Lemma slice0_length {A} (stop : Z) (l : list A) :
  0 <= stop -> Z.of_nat (List.length (slice0 stop l)) <= stop.
Proof.
  intros Hpos. unfold slice0.
  destruct (stop <? 0) eqn:E; [apply Z.ltb_lt in E; lia|].
  match goal with |- context [firstn ?k l] => pose proof (firstn_le_length k l) as Hlen end.
  lia.
Qed.

Lemma slice_to_In {A} (stop : number) (l : list A) (x : A) :
  In x (slice_to stop l) -> In x l.
Proof.
  unfold slice_to. destruct (Number.to_integer stop); [intros [] | apply slice0_In | auto].
Qed.

Lemma slice_to_Sorted {A} (R : A -> A -> Prop) (stop : number) (l : list A) :
  Sorted R l -> Sorted R (slice_to stop l).
Proof.
  unfold slice_to. destruct (Number.to_integer stop);
    [constructor | apply slice0_Sorted | auto].
Qed.

(** A slice up to a number that is not negative is no longer than the
    integer part of that number. *)
Lemma slice_to_length {A} (stop : number) (l : list A) :
  (0 <= stop)%num ->
  Number.within (List.length (slice_to stop l)) (Number.to_integer stop).
Proof.
  intros Hpos. apply NumberFacts.to_integer_nonneg in Hpos. unfold slice_to.
  destruct (Number.to_integer stop) as [|z|]; cbn [Number.within];
    [exact Hpos | now apply slice0_length | exact I].
Qed.

Lemma blocks_after_ascending req bc : ascending (blocks_after req bc).
Proof.
  unfold blocks_after, ascending. apply slice_to_Sorted, sort_ascending.
  exact block_height_number.
Qed.

Lemma blocks_after_above req bc b :
  In b (blocks_after req bc) ->
  (number_or (lastKnownBlockHeight req) 0 < block_height b)%num.
Proof.
  unfold blocks_after. intros Hin.
  apply slice_to_In in Hin. apply sort_by_In in Hin. apply filter_In in Hin.
  exact (proj2 Hin).
Qed.

Lemma blocks_after_stored req bc b :
  In b (blocks_after req bc) -> In b (JSMap.values (blocks bc)).
Proof.
  unfold blocks_after. intros Hin.
  apply slice_to_In in Hin. apply sort_by_In in Hin. apply filter_In in Hin. tauto.
Qed.

Lemma blocks_after_length req bc :
  (0 <= number_or (requestedBlocks req) 100)%num ->
  Number.within (List.length (blocks_after req bc))
    (Number.to_integer (number_or (requestedBlocks req) 100)).
Proof. intros Hpos. unfold blocks_after. now apply slice_to_length. Qed.

(** A number above 0 is truthy. *)
Lemma positive_truthy k : (0 < k)%num -> Number.falsy k = false.
Proof.
  intros Hk. unfold Number.falsy. apply orb_false_iff.
  pose proof (NumberFacts.lt_numbers _ _ Hk) as [_ Hn]. split; [|exact Hn].
  rewrite NumberFacts.is_zero_spec. apply NumberFacts.lt_compare in Hk.
  unfold Number.compare in Hk. change (Prim2SF 0) with (S754_zero false) in Hk.
  destruct (Prim2SF k); try reflexivity. discriminate.
Qed.

(** C3, as the code has it.  A sync request that decodes is answered by
    one response whose blocks are in ascending order of height
    (neighbours may have equal heights: the table can hold several blocks
    of one height), all of height above [lastKnownBlockHeight] (a missing
    one counts as 0); the list has at most [requestedBlocks] entries when
    [requestedBlocks] is positive (at most its integer part, where it is
    a fraction), and at most 100 when it is missing, 0 or [NaN]. *)
Theorem sync_blocks_ascending_above_cursor_limited
    (decode_sync : option string -> option SyncRequest)
    (now : Z) (fresh : string) (m : Message) (socket : WebSocket)
    (req : SyncRequest) (n : Node) :
  decode_sync (payload m) = Some req ->
  exists resp,
    wire (exec (handleSyncRequest decode_sync now fresh m socket) n) =
      wire n ++ [mkSent (ws_handle socket) (Response resp)] /\
    ascending (r_blocks (r_payload resp)) /\
    Forall (fun b => (number_or (lastKnownBlockHeight req) 0 < block_height b)%num)
      (r_blocks (r_payload resp)) /\
    (forall k, requestedBlocks req = Some k -> (0 < k)%num ->
       Number.within (List.length (r_blocks (r_payload resp))) (Number.to_integer k)) /\
    (match requestedBlocks req with
     | Some k => Number.falsy k = true
     | None => True
     end ->
     Z.of_nat (List.length (r_blocks (r_payload resp))) <= 100).
Proof.
  intros Hd.
  destruct (handleSyncRequest_decoded decode_sync now fresh m socket req n Hd)
    as (resp & Hrun & Hblocks & _).
  exists resp. rewrite Hrun, Hblocks. simpl. split; [reflexivity|].
  split; [apply blocks_after_ascending|].
  split; [apply Forall_forall; intros b; apply blocks_after_above|].
  split.
  - intros k Hk Hpos.
    pose proof (blocks_after_length req (blockchain n)) as Hlen.
    rewrite Hk in Hlen. cbn [number_or] in Hlen.
    rewrite (positive_truthy k Hpos) in Hlen. apply Hlen.
    now apply NumberFacts.lt_le.
  - intros Hdefault.
    pose proof (blocks_after_length req (blockchain n)) as Hlen.
    assert (Hlimit : number_or (requestedBlocks req) 100 = 100%float).
    { unfold number_or. destruct (requestedBlocks req) as [k|]; [|reflexivity].
      now rewrite Hdefault. }
    rewrite Hlimit in Hlen. apply Hlen. reflexivity.
Qed.

Lemma sync_blocks_ascending_above_cursor_limited_witness :
  exists resp,
    wire (Sample.sync_from_socket 1 "sync 0 1" Sample.forked) =
      wire Sample.forked ++ [mkSent 1 (Response resp)] /\
    ascending (r_blocks (r_payload resp)) /\
    Forall (fun b => (0 < block_height b)%num) (r_blocks (r_payload resp)) /\
    (forall k, Some 1%float = Some k -> (0 < k)%num ->
       Number.within (List.length (r_blocks (r_payload resp))) (Number.to_integer k)) /\
    (Number.falsy 1 = true ->
     Z.of_nat (List.length (r_blocks (r_payload resp))) <= 100).
Proof.
  apply (sync_blocks_ascending_above_cursor_limited Sample.decode_sync Sample.boot_time
           "msg-0" (Sample.envelope "syncRequest" "ios-1" "sync 0 1") (Sample.socket 1)
           (Sample.sync_from 0 1) Sample.forked).
  reflexivity.
Defined.

(** C3 as stated fails.  With two stored blocks of height 1 the response
    to a request from height 0 lists both, so the heights are not strictly
    ascending; and a request for 0 blocks is answered with both of them,
    more than the 0 it asked for. *)
Lemma sync_blocks_repeat_height_and_exceed_zero_limit :
  (exists bs,
     Sample.response_blocks (Sample.sync_from_socket 1 "sync 0 5" Sample.forked) = [bs] /\
     map block_height bs = [1%float; 1%float] /\
     ~ strictly_ascending bs) /\
  (exists bs,
     Sample.response_blocks (Sample.sync_from_socket 1 "sync 0 0" Sample.forked) = [bs] /\
     requestedBlocks (Sample.sync_from 0 0) = Some 0%float /\
     ~ Z.of_nat (List.length bs) <= 0).
Proof.
  split.
  - exists [Sample.block_a; Sample.block_b]. split; [reflexivity|]. split; [reflexivity|].
    intros Hs. apply Sorted_inv in Hs. destruct Hs as [_ Hhd].
    apply HdRel_inv in Hhd. vm_compute in Hhd. discriminate.
  - exists [Sample.block_a; Sample.block_b]. split; [reflexivity|]. split; [reflexivity|].
    simpl. lia.
Qed.

(* ================================================================== *)
(** ** Blocks without a height *)

Lemma height_absent_zero b : height_absent b -> block_height b = 0%float.
Proof.
  unfold height_absent, block_height. destruct (header b) as [h|]; [|reflexivity].
  now intros ->.
Qed.

(** [Math.max] with 0 does not raise a height that is not negative. *)
Lemma Math_max_zero h : (0 <= h)%num -> (Math_max h 0 <= h)%num.
Proof.
  intros Hh. pose proof (NumberFacts.le_numbers _ _ Hh) as [_ Hn].
  destruct (NumberFacts.Math_max_cases h 0 Hn eq_refl) as ([-> | ->] & _ & _).
  - now apply NumberFacts.le_refl.
  - exact Hh.
Qed.

(** C10.  A block whose [header] or [header.height] is missing counts as
    a block of height 0: accepting it through a [blockBroadcast] never
    raises the stored height, and no sync response to a request whose
    [lastKnownBlockHeight] is at least 0 lists it. *)
Theorem block_without_height_counts_as_zero
    (decode_sync : option string -> option SyncRequest)
    (decode_block : option string -> option Block)
    (decode_tx : option string -> option Transaction)
    (sha256_hex : string -> string)
    (JSON_stringify_txs : list Transaction -> string) :
  (forall b, height_absent b -> block_height b = 0%float) /\
  (forall (n : Node) (m : Message) (b : Block),
     reachable decode_sync decode_block decode_tx sha256_hex JSON_stringify_txs n ->
     decode_block (payload m) = Some b ->
     height_absent b ->
     (to_number (chain_height (blockchain (exec (handleBlockBroadcast decode_block m) n)))
      <= to_number (chain_height (blockchain n)))%num) /\
  (forall (n : Node) (now : Z) (fresh : string) (m : Message) (socket : WebSocket)
          (req : SyncRequest) (cursor : number) (b : Block),
     decode_sync (payload m) = Some req ->
     lastKnownBlockHeight req = Some cursor ->
     (0 <= cursor)%num ->
     height_absent b ->
     exists resp,
       wire (exec (handleSyncRequest decode_sync now fresh m socket) n) =
         wire n ++ [mkSent (ws_handle socket) (Response resp)] /\
       ~ In b (r_blocks (r_payload resp))).
Proof.
  split; [exact height_absent_zero|]. split.
  - intros n m b Hreach Hd Habs.
    apply reachable_ok in Hreach. destruct Hreach as [[_ _ _ Hh _] _].
    pose proof (NumberFacts.le_numbers _ _ Hh) as [_ Hn].
    destruct (JSMap.has (hash b) (blocks (blockchain n))) eqn:Hh'.
    + rewrite (handleBlockBroadcast_known decode_block m b n Hd Hh').
      now apply NumberFacts.le_refl.
    + destruct (handleBlockBroadcast_new decode_block m b n Hd Hh') as (ps & Hrun).
      rewrite Hrun. cbn [blockchain].
      rewrite storeBlock_height, (height_absent_zero b Habs). cbn [to_number].
      now apply Math_max_zero.
  - intros n now fresh m socket req cursor b Hd Hcursor Hpos Habs.
    destruct (handleSyncRequest_decoded decode_sync now fresh m socket req n Hd)
      as (resp & Hrun & Hblocks & _).
    exists resp. rewrite Hrun, Hblocks. simpl. split; [reflexivity|].
    intros Hin. apply blocks_after_above in Hin.
    rewrite (height_absent_zero b Habs), Hcursor in Hin. cbn [number_or] in Hin.
    destruct (Number.falsy cursor).
    + exact (NumberFacts.lt_irrefl _ Hin).
    + exact (NumberFacts.le_not_lt _ _ Hpos Hin).
Qed.

Lemma block_without_height_counts_as_zero_witness :
  block_height Sample.headerless = 0%float /\
  (to_number (chain_height
     (blockchain (Sample.block_from "ios-1" "headerless block" Sample.forked)))
   <= to_number (chain_height (blockchain Sample.forked)))%num /\
  exists resp,
    wire (Sample.sync_from_socket 1 "sync 0 5"
            (Sample.block_from "ios-1" "headerless block" Sample.forked)) =
      wire (Sample.block_from "ios-1" "headerless block" Sample.forked)
        ++ [mkSent 1 (Response resp)] /\
    ~ In Sample.headerless (r_blocks (r_payload resp)).
Proof.
  pose proof (block_without_height_counts_as_zero Sample.decode_sync Sample.decode_block
                Sample.decode_tx Sample.sha Sample.stringify) as (Hzero & Hstore & Hsync).
  split; [apply Hzero; exact I|]. split.
  - apply (Hstore Sample.forked (Sample.envelope "blockBroadcast" "ios-1" "headerless block")
             Sample.headerless); [|reflexivity|exact I].
    apply reach_block, reach_block, reach_peers, reach_boot.
  - apply (Hsync (Sample.block_from "ios-1" "headerless block" Sample.forked)
             Sample.boot_time "msg-0" (Sample.envelope "syncRequest" "ios-1" "sync 0 5")
             (Sample.socket 1) (Sample.sync_from 0 5) 0%float Sample.headerless);
      [reflexivity|reflexivity|reflexivity|exact I].
Defined.

(* ================================================================== *)
(** ** Balances *)

(** C1 fails on the code.  A transaction is broadcast and then arrives
    again inside a block, as it does whenever a broadcast transaction is
    put in a block: its id is pushed on the index of the recipient a second
    time and [calculateBalance] counts it twice, while the store holds it
    once. *)
Theorem calculateBalance_counts_restored_transaction_twice :
  let n := Sample.block_from "ios-2" "block a"
             (Sample.transaction_from "ios-1" "pay" Sample.booted) in
  JSMap.get "t1" (txs (blockchain n)) = Some Sample.pay /\
  index_of "alice" (blockchain n) = ["t1"; "t1"] /\
  calculateBalance "alice" (blockchain n) = 10%float /\
  ledger_balance "alice" (blockchain n) = 5%float.
Proof. vm_compute. repeat split. Qed.

(** X25.  Storing a transaction under an id that the index of [a] does not
    list yet keeps that index free of duplicates. *)
Lemma storeTransaction_new_id_keeps_index_nodup t id a bc :
  truthy (tx_id t) = Some id ->
  NoDup (index_of a bc) -> ~ In id (index_of a bc) ->
  NoDup (index_of a (storeTransaction (Some t) bc)).
Proof.
  intros Hid Hnd Hnew. rewrite (storeTransaction_stored t id bc Hid).
  unfold index_of in *. cbn [txByAddress].
  assert (Hpush : NoDup (get_or_nil a (txByAddress bc) ++ [id])).
  { apply NoDup_rev in Hnd. rewrite <- (rev_involutive (_ ++ [id])).
    apply NoDup_rev. rewrite rev_app_distr. simpl. constructor; [|assumption].
    now rewrite <- in_rev. }
  assert (Hone : forall b ix, get_or_nil a ix = get_or_nil a (txByAddress bc) ->
            NoDup (get_or_nil a (index_push b id ix))).
  { intros b ix Heq. destruct (string_dec a b) as [->|Hne].
    - now rewrite index_push_same, Heq.
    - now rewrite index_push_other, Heq. }
  unfold index_after.
  destruct (truthy (fromAddress t)) as [from|] eqn:Hfrom;
    destruct (truthy (toAddress t)) as [to|] eqn:Hto;
    try destruct (is_address (fromAddress t) to) eqn:Hsame;
    try (apply Hone; reflexivity); try assumption.
  apply truthy_Some in Hfrom. destruct Hfrom as [Hfrom _].
  destruct (string_dec a to) as [->|Hne].
  - apply Hone. apply index_push_other. intros ->.
    rewrite Hfrom in Hsame. simpl in Hsame. now rewrite String.eqb_refl in Hsame.
  - rewrite index_push_other by assumption. now apply Hone.
Qed.

(** C4 fails on the code.  The same transaction broadcast twice is listed
    twice under its sender and twice under its recipient. *)
Theorem storeTransaction_lists_rebroadcast_twice :
  let n := Sample.transaction_from "ios-2" "pay"
             (Sample.transaction_from "ios-1" "pay" Sample.booted) in
  index_of "bob" (blockchain n) = ["t1"; "t1"] /\
  index_of "alice" (blockchain n) = ["t1"; "t1"] /\
  count_occ string_dec (index_of "bob" (blockchain n)) "t1" = 2%nat.
Proof. vm_compute. repeat split. Qed.

(* ================================================================== *)
(** ** Blocks and transactions without a key *)

(** The transaction half of C6: a transaction that is [null] or has no
    id leaves the ledger as it is. *)
Lemma storeTransaction_ignores_missing_id tx bc :
  match tx with
  | None => True
  | Some t => truthy (tx_id t) = None
  end ->
  storeTransaction tx bc = bc.
Proof.
  destruct tx as [t|]; [apply storeTransaction_without_id | reflexivity].
Qed.

(** C6 fails on the code for blocks.  A broadcast block that has no
    [hash] is not ignored: it is stored under the key [undefined], raises
    the height to its own and is relayed to the other peer. *)
Theorem handleBlockBroadcast_stores_block_without_hash :
  let n := Sample.block_from "ios-1" "hashless block" Sample.booted in
  JSMap.has HUndefined (blocks (blockchain Sample.booted)) = false /\
  JSMap.get HUndefined (blocks (blockchain n)) = Some Sample.hashless /\
  chain_height (blockchain Sample.booted) = Some 0%float /\
  chain_height (blockchain n) = Some 7%float /\
  wire n = wire Sample.booted ++
           [mkSent 2 (Relayed (Sample.envelope "blockBroadcast" "ios-1" "hashless block"))].
Proof. vm_compute. repeat split. Qed.

(* ================================================================== *)
(** ** Snapshots *)

(** C5 fails on the code.  Once a block without [hash] is in the table,
    its key [undefined] is written to the snapshot as [null], and loading
    the snapshot gives a block table with the key [null] instead: the
    table is not the one that was saved, and a block without [hash] is new
    to it again. *)
Theorem save_then_load_loses_undefined_key :
  let n := Sample.block_from "ios-1" "hashless block" Sample.booted in
  let n' := Sample.save_then_load n in
  JSMap.keys (blocks (blockchain n)) =
    [HStr (Sample.sha "ziwio-genesis-block1700000000000"); HUndefined] /\
  JSMap.keys (blocks (blockchain n')) =
    [HStr (Sample.sha "ziwio-genesis-block1700000000000"); HNull] /\
  blocks (blockchain n') <> blocks (blockchain n) /\
  JSMap.has HUndefined (blocks (blockchain n)) = true /\
  JSMap.has HUndefined (blocks (blockchain n')) = false.
Proof.
  vm_compute. repeat split. intros Heq. discriminate Heq.
Qed.

(* ================================================================== *)
(** * Further properties of the node *)

(** ** The relay loop *)

Lemma keys_filter_In {V} (f : string * V -> bool) (m : JSMap.t string V) k :
  In k (JSMap.keys (filter f m)) -> In k (JSMap.keys m).
Proof.
  unfold JSMap.keys. rewrite !in_map_iff. intros ((k', v) & Hk & Hin).
  apply filter_In in Hin. exists (k', v). tauto.
Qed.

Lemma get_filter_wf {V} (f : string * V -> bool) (m : JSMap.t string V) k :
  JSMap.wf m ->
  JSMap.get k (filter f m) =
  match JSMap.get k m with
  | Some v => if f (k, v) then Some v else None
  | None => None
  end.
Proof.
  unfold JSMap.wf. induction m as [|[k' v] rest IH]; intros Hnd; [reflexivity|].
  inversion Hnd as [|? ? Hout Hnd']; subst.
  cbn [filter JSMap.get]. destruct (keq k k') eqn:E.
  - apply String.eqb_eq in E. subst k'.
    assert (Hnone : JSMap.get k (filter f rest) = None).
    { apply JSMapFacts.get_None_keys. intros Hin. apply Hout.
      now apply keys_filter_In in Hin. }
    destruct (f (k, v)); cbn [JSMap.get].
    + now rewrite JSMapFacts.keq_refl.
    + exact Hnone.
  - destruct (f (k', v)); cbn [JSMap.get]; [rewrite E|]; now apply IH.
Qed.

(** One run of the loop: the count, the frames and the registry. *)
Lemma broadcast_loop_registry es message exclude sentCount n :
  NoDup (JSMap.keys es) ->
  exists ps,
    broadcast_loop es message exclude sentCount n =
    (Returned (sentCount + Z.of_nat (List.length (filter (is_recipient exclude) es))),
     {| blockchain := blockchain n;
        peers := ps;
        wire := wire n ++
          map (fun e => mkSent (ws_handle (ws (snd e))) (Relayed message))
            (filter (is_recipient exclude) es);
        disk := disk n |}) /\
    forall k,
      JSMap.get k ps =
      match JSMap.get k (filter (is_recipient exclude) es) with
      | Some p => Some (bump p)
      | None => JSMap.get k (peers n)
      end.
Proof.
  revert sentCount n. induction es as [|[key p] es IH]; intros sentCount n Hnd.
  - exists (peers n). cbn [broadcast_loop filter map List.length JSMap.get].
    unfold ret. rewrite app_nil_r, Z.add_0_r. split; [destruct n; reflexivity | reflexivity].
  - inversion Hnd as [|? ? Hout Hnd']; subst.
    cbn [broadcast_loop filter].
    change (differs key exclude && is_open (readyState (ws p)))
      with (is_recipient exclude (key, p)).
    destruct (is_recipient exclude (key, p)) eqn:E.
    + pose proof E as Hopen. unfold is_recipient in Hopen. cbn [fst snd] in Hopen.
      apply andb_true_iff in Hopen. destruct Hopen as [_ Hopen].
      unfold bind at 1. unfold Peer_send. rewrite Hopen.
      unfold bind at 1. unfold ws_send, modify.
      match goal with |- context [broadcast_loop es message exclude ?c ?n'] =>
        destruct (IH c n' Hnd') as (ps & Hrun & Hget) end.
      rewrite Hrun. exists ps. split.
      * cbn [blockchain wire disk with_peers with_wire peers map List.length].
        rewrite <- app_assoc. cbn [app]. f_equal. f_equal. lia.
      * intros k. rewrite Hget. cbn [JSMap.get peers with_peers with_wire].
        destruct (keq k key) eqn:Ek.
        -- apply String.eqb_eq in Ek. subst key.
           assert (Hnone : JSMap.get k (filter (is_recipient exclude) es) = None).
           { apply JSMapFacts.get_None_keys. intros Hin. apply Hout.
             now apply keys_filter_In in Hin. }
           rewrite Hnone. rewrite JSMapFacts.get_set_same. reflexivity.
        -- destruct (JSMap.get k (filter (is_recipient exclude) es)); [reflexivity|].
           apply JSMapFacts.get_set_other. intros ->.
           change (String.eqb key key = false) in Ek.
           now rewrite String.eqb_refl in Ek.
    + apply IH. exact Hnd'.
Qed.

Lemma fan_out_filter message ps :
  fan_out message ps =
  map (fun e => mkSent (ws_handle (ws (snd e))) (Relayed message))
    (filter (is_recipient (senderId message)) ps).
Proof. reflexivity. Qed.

Lemma broadcastToPeers_full message n :
  JSMap.wf (peers n) ->
  exists ps,
    broadcastToPeers message (senderId message) n =
    (Returned (Z.of_nat (List.length (fan_out message (peers n)))),
     {| blockchain := blockchain n; peers := ps;
        wire := wire n ++ fan_out message (peers n); disk := disk n |}) /\
    forall k,
      JSMap.get k ps =
      option_map (fun p => if is_recipient (senderId message) (k, p) then bump p else p)
        (JSMap.get k (peers n)).
Proof.
  intros Hwf. unfold broadcastToPeers, bind, gets, JSMap.entries.
  destruct (broadcast_loop_registry (peers n) message (senderId message) 0 n Hwf)
    as (ps & Hrun & Hget).
  exists ps. rewrite Hrun. split.
  - rewrite fan_out_filter, length_map. reflexivity.
  - intros k. rewrite Hget, (get_filter_wf _ _ _ Hwf).
    destruct (JSMap.get k (peers n)) as [p|]; [|reflexivity].
    cbn [option_map]. destruct (is_recipient (senderId message) (k, p)); reflexivity.
Qed.

Lemma differs_true k exclude : differs k exclude = true <-> exclude <> Some k.
Proof.
  unfold differs. destruct exclude as [e|]; [|split; [discriminate | reflexivity]].
  rewrite negb_true_iff, String.eqb_neq. split.
  - intros Hne Heq. inversion Heq. congruence.
  - intros Hne ->. now apply Hne.
Qed.

Lemma is_open_true r : is_open r = true <-> r = OPEN.
Proof. destruct r; simpl; split; congruence. Qed.

(** X1.  [broadcastToPeers]: a copy of the envelope goes to the socket of
    every registered peer that is open and is not registered under the
    envelope's sender id, to nobody else, and the number returned is the
    number of copies sent. *)
Theorem broadcastToPeers_reaches_open_peers_except_sender (message : Message) (n : Node) :
  JSMap.wf (peers n) ->
  exists ps,
    broadcastToPeers message (senderId message) n =
    (Returned (Z.of_nat (List.length (fan_out message (peers n)))),
     {| blockchain := blockchain n; peers := ps;
        wire := wire n ++ fan_out message (peers n); disk := disk n |}) /\
    (forall f, In f (fan_out message (peers n)) <->
       exists k p,
         JSMap.get k (peers n) = Some p /\
         senderId message <> Some k /\
         readyState (ws p) = OPEN /\
         f = mkSent (ws_handle (ws p)) (Relayed message)).
Proof.
  intros Hwf. destruct (broadcastToPeers_full message n Hwf) as (ps & Hrun & _).
  exists ps. split; [exact Hrun|].
  intros f. rewrite fan_out_filter, in_map_iff. split.
  - intros ((k, p) & Hf & Hin). apply filter_In in Hin. destruct Hin as [Hin Hrc].
    unfold is_recipient in Hrc. cbn [fst snd] in *.
    apply andb_true_iff in Hrc. destruct Hrc as [Hd Ho].
    exists k, p. repeat split.
    + now apply JSMapFacts.In_wf_get.
    + now apply differs_true.
    + now apply is_open_true.
    + now symmetry.
  - intros (k & p & Hget & Hne & Hopen & ->).
    exists (k, p). split; [reflexivity|]. apply filter_In. split.
    + clear -Hget. induction (peers n) as [|[k' v] rest IH]; [discriminate|].
      cbn [JSMap.get] in Hget. destruct (keq k k') eqn:E.
      * apply String.eqb_eq in E. inversion Hget; subst. now left.
      * right. now apply IH.
    + unfold is_recipient. cbn [fst snd]. apply andb_true_iff. split.
      * now apply differs_true.
      * now apply is_open_true.
Qed.

(** X2.  [broadcastToPeers] counts one more sent message for every peer it
    sent to and leaves every other peer as it was: the closed ones and
    the one registered under the sender id. *)
Theorem broadcastToPeers_counts_sent_messages (message : Message) (n : Node) :
  JSMap.wf (peers n) ->
  forall k,
    JSMap.get k (peers (snd (broadcastToPeers message (senderId message) n))) =
    match JSMap.get k (peers n) with
    | Some p =>
        if differs k (senderId message) && is_open (readyState (ws p))
        then Some (bump p) else Some p
    | None => None
    end.
Proof.
  intros Hwf k. destruct (broadcastToPeers_full message n Hwf) as (ps & Hrun & Hget).
  rewrite Hrun. cbn [snd peers]. rewrite Hget.
  destruct (JSMap.get k (peers n)) as [p|]; [|reflexivity].
  cbn [option_map]. unfold is_recipient. cbn [fst snd].
  destruct (differs k (senderId message) && is_open (readyState (ws p))); reflexivity.
Qed.

(* ================================================================== *)
(** ** Storing and finding transactions *)

Lemma is_address_truthy o a : a <> "" -> is_address (truthy o) a = is_address o a.
Proof.
  intros Ha. unfold truthy. destruct o as [s|]; [|reflexivity].
  destruct (String.eqb s "") eqn:E; [|reflexivity].
  apply String.eqb_eq in E. subst s. cbn [is_address].
  symmetry. apply String.eqb_neq. congruence.
Qed.

Lemma is_address_false o a : is_address o a = false <-> o <> Some a.
Proof.
  rewrite <- is_address_true. destruct (is_address o a); split; congruence.
Qed.

(** The index of a non-empty address after a store: the id is appended
    once if the transaction names the address, and not at all if not. *)
Lemma index_after_at a t id ix :
  a <> "" ->
  get_or_nil a (index_after t id ix) =
  get_or_nil a ix ++ (if names t a then [id] else []).
Proof.
  intros Ha. unfold index_after, names.
  set (ix1 := match truthy (fromAddress t) with
              | Some from => index_push from id ix
              | None => ix
              end).
  assert (H1 : get_or_nil a ix1 =
               get_or_nil a ix ++ (if is_address (fromAddress t) a then [id] else [])).
  { subst ix1. rewrite <- (is_address_truthy (fromAddress t) a Ha).
    destruct (truthy (fromAddress t)) as [f|]; cbn [is_address].
    - destruct (String.eqb f a) eqn:E.
      + apply String.eqb_eq in E. subst f. apply index_push_same.
      + apply String.eqb_neq in E. rewrite index_push_other by congruence.
        now rewrite app_nil_r.
    - now rewrite app_nil_r. }
  rewrite <- (is_address_truthy (toAddress t) a Ha).
  destruct (truthy (toAddress t)) as [to|] eqn:Hto; cbn [is_address].
  - destruct (is_address (fromAddress t) to) eqn:Hsame.
    + rewrite H1. apply is_address_true in Hsame. rewrite Hsame. cbn [is_address].
      rewrite (String.eqb_sym to a). destruct (String.eqb a to); reflexivity.
    + destruct (String.eqb to a) eqn:E.
      * apply String.eqb_eq in E. subst to. rewrite index_push_same, H1, Hsame.
        now rewrite app_nil_r.
      * apply String.eqb_neq in E. rewrite index_push_other by congruence.
        rewrite H1. now rewrite orb_false_r.
  - rewrite H1. now rewrite orb_false_r.
Qed.

(** X3.  [storeTransaction]: afterwards the id finds the transaction just
    stored (replacing any earlier one of that id), every other id finds
    what it found before, and the blocks, the height, the tips and the
    index of every address the transaction does not name are untouched. *)
Theorem storeTransaction_then_lookup (bc : Blockchain) (t : Transaction) (id : string) :
  truthy (tx_id t) = Some id ->
  let bc' := storeTransaction (Some t) bc in
  JSMap.get id (txs bc') = Some t /\
  (forall j, j <> id -> JSMap.get j (txs bc') = JSMap.get j (txs bc)) /\
  blocks bc' = blocks bc /\
  chain_height bc' = chain_height bc /\
  tips bc' = tips bc /\
  (forall a, a <> "" -> names t a = false -> index_of a bc' = index_of a bc).
Proof.
  intros Hid bc'. subst bc'. rewrite (storeTransaction_stored t id bc Hid).
  cbn [txs blocks chain_height tips]. repeat split.
  - apply JSMapFacts.get_set_same.
  - intros j Hne. now apply JSMapFacts.get_set_other.
  - intros a Ha Hnames. unfold index_of. cbn [txByAddress].
    rewrite (index_after_at a t id _ Ha), Hnames. apply app_nil_r.
Qed.

Lemma fold_left_ext_in {A B} (f g : A -> B -> A) (l : list B) (z : A) :
  (forall y x, In x l -> f y x = g y x) -> fold_left f l z = fold_left g l z.
Proof.
  revert z. induction l as [|x l IH]; intros z Hfg; cbn [fold_left]; [reflexivity|].
  rewrite (Hfg z x) by now left. apply IH. intros y x' Hx'. apply Hfg. now right.
Qed.

(** X4.  [calculateBalance] after [storeTransaction]: for a non-empty
    address whose index does not list the id yet, the new balance is the
    old one with what the transaction says put on top, in the arithmetic
    of the program: [amount] is added if the address receives, then
    [amount] and [fee] are taken off one after the other if it sends,
    each step a sum or difference of doubles that rounds as the program
    does; the balance is the same if the address is not named. *)
Theorem calculateBalance_after_store (bc : Blockchain) (t : Transaction) (id a : string) :
  truthy (tx_id t) = Some id ->
  a <> "" ->
  ~ In id (index_of a bc) ->
  calculateBalance a (storeTransaction (Some t) bc) =
  let balance := calculateBalance a bc in
  let received :=
    if is_address (toAddress t) a
    then (balance + number_or (amount t) 0)%float else balance in
  if is_address (fromAddress t) a
  then (received - number_or (amount t) 0 - number_or (fee t) 0)%float
  else received.
Proof.
  intros Hid Ha Hnew. cbv zeta. unfold calculateBalance.
  set (bc' := storeTransaction (Some t) bc).
  assert (Hix : index_of a bc' = index_of a bc ++ (if names t a then [id] else [])).
  { subst bc'. rewrite (storeTransaction_stored t id bc Hid).
    unfold index_of. cbn [txByAddress]. now apply index_after_at. }
  assert (Hold : fold_left (balance_step a bc') (index_of a bc) 0%float =
                 fold_left (balance_step a bc) (index_of a bc) 0%float).
  { apply fold_left_ext_in. intros y j Hj. unfold balance_step. subst bc'.
    rewrite (storeTransaction_stored t id bc Hid). cbn [txs].
    rewrite JSMapFacts.get_set_other; [reflexivity|]. intros ->. contradiction. }
  rewrite Hix, fold_left_app, Hold.
  destruct (names t a) eqn:Hn.
  - cbn [fold_left]. unfold balance_step at 1. subst bc'.
    rewrite (storeTransaction_stored t id bc Hid). cbn [txs].
    rewrite JSMapFacts.get_set_same. reflexivity.
  - cbn [fold_left]. unfold names in Hn. apply orb_false_iff in Hn.
    destruct Hn as [-> ->]. reflexivity.
Qed.


Lemma set_same_value {K V} `{KeyEqLaws K} (k : K) (v : V) (m : JSMap.t K V) :
  JSMap.get k m = Some v -> JSMap.set k v m = m.
Proof.
  induction m as [|[k' v'] rest IH]; cbn [JSMap.get JSMap.set]; [discriminate|].
  destruct (keq k k') eqn:E.
  - intros Hg. inversion Hg. reflexivity.
  - intros Hg. now rewrite IH.
Qed.

(** X5.  [handleTransactionBroadcast] relays every envelope that decodes, once,
    without looking at the ledger: also when the transaction has no id and
    is therefore not stored, and also when that very transaction is stored
    already and the table stays as it is. *)
Theorem handleTransactionBroadcast_always_relays
    (decode_tx : option string -> option Transaction)
    (m : Message) (tx : Transaction) (n : Node) :
  decode_tx (payload m) = Some tx ->
  let n' := exec (handleTransactionBroadcast decode_tx m) n in
  wire n' = wire n ++ fan_out m (peers n) /\
  (truthy (tx_id tx) = None -> blockchain n' = blockchain n) /\
  (forall id, truthy (tx_id tx) = Some id ->
     JSMap.get id (txs (blockchain n)) = Some tx ->
     txs (blockchain n') = txs (blockchain n)).
Proof.
  intros Hd n'. subst n'.
  destruct (handleTransactionBroadcast_decoded decode_tx m tx n Hd) as (ps & Hrun).
  rewrite Hrun. cbn [wire blockchain]. split; [reflexivity|]. split.
  - intros Hid. now apply storeTransaction_without_id.
  - intros id Hid Hg. rewrite (storeTransaction_stored tx id _ Hid). cbn [txs].
    now apply set_same_value.
Qed.

Lemma resolve_txs_In ids bc tx :
  In tx (resolve_txs ids bc) <->
  exists id, In id ids /\ JSMap.get id (txs bc) = Some tx.
Proof.
  induction ids as [|j ids IH]; cbn [resolve_txs].
  - split; [intros [] | intros (id & [] & _)].
  - destruct (JSMap.get j (txs bc)) as [t|] eqn:Hg.
    + cbn [In]. rewrite IH. split.
      * intros [Heq|(id & Hin & Hid)].
        -- exists j. split; [now left | congruence].
        -- exists id. split; [now right | exact Hid].
      * intros (id & [Heq|Hin] & Hid).
        -- left. congruence.
        -- right. exists id. split; assumption.
    + rewrite IH. split.
      * intros (id & Hin & Hid). exists id. split; [now right | exact Hid].
      * intros (id & [Heq|Hin] & Hid).
        -- congruence.
        -- exists id. split; assumption.
Qed.

Lemma get_In_entries {K V} `{KeyEqLaws K} (k : K) (v : V) (m : JSMap.t K V) :
  JSMap.get k m = Some v -> In (k, v) m.
Proof.
  induction m as [|[k' v'] rest IH]; cbn [JSMap.get]; [discriminate|].
  destruct (keq k k') eqn:E.
  - apply keq_spec in E. subst k'. intros Hg. inversion Hg. now left.
  - intros Hg. right. now apply IH.
Qed.

Lemma get_In_values {K V} `{KeyEqLaws K} (k : K) (v : V) (m : JSMap.t K V) :
  JSMap.get k m = Some v -> In v (JSMap.values m).
Proof.
  intros Hg. apply get_In_entries in Hg. unfold JSMap.values.
  change v with (snd (k, v)). now apply in_map.
Qed.

Lemma names_truthy t a :
  a <> "" -> names t a = true ->
  truthy (fromAddress t) = Some a \/ truthy (toAddress t) = Some a.
Proof.
  intros Ha Hn. unfold names in Hn. apply orb_true_iff in Hn.
  assert (Htr : forall o, is_address o a = true -> truthy o = Some a).
  { intros o Ho. apply is_address_true in Ho. subst o. cbn [truthy].
    destruct (String.eqb a "") eqn:E; [|reflexivity].
    apply String.eqb_eq in E. contradiction. }
  destruct Hn as [Hn|Hn]; [left | right]; now apply Htr.
Qed.

Section SyncContents.

Variable decode_sync : option string -> option SyncRequest.
Variable decode_block : option string -> option Block.
Variable decode_tx : option string -> option Transaction.
Variable sha256_hex : string -> string.
Variable JSON_stringify_txs : list Transaction -> string.

(** X6.  The transactions of a sync response: in every state the node goes
    through, the response for a non-empty user address lists only stored
    transactions, and it lists every stored transaction that names the
    address as sender or recipient. *)
Theorem sync_lists_the_transactions_of_the_address
    (n : Node) (now : Z) (fresh : string) (m : Message) (socket : WebSocket)
    (req : SyncRequest) (a : string) :
  reachable decode_sync decode_block decode_tx sha256_hex JSON_stringify_txs n ->
  decode_sync (payload m) = Some req ->
  userAddress req = Some a ->
  a <> "" ->
  exists resp,
    wire (exec (handleSyncRequest decode_sync now fresh m socket) n) =
      wire n ++ [mkSent (ws_handle socket) (Response resp)] /\
    (forall tx, In tx (userTransactions (r_payload resp)) ->
       In tx (JSMap.values (txs (blockchain n)))) /\
    (forall id tx, JSMap.get id (txs (blockchain n)) = Some tx ->
       names tx a = true ->
       In tx (userTransactions (r_payload resp))).
Proof.
  intros Hreach Hd Hua Ha.
  apply reachable_ok in Hreach. destruct Hreach as [[_ _ _ _ Hix] _].
  destruct (handleSyncRequest_decoded decode_sync now fresh m socket req n Hd)
    as (resp & Hrun & _ & Htxs & _).
  exists resp. rewrite Hrun, Htxs, Hua. cbn [wire with_wire user_index].
  split; [reflexivity|]. split.
  - intros tx Hin. apply resolve_txs_In in Hin. destruct Hin as (id & _ & Hg).
    eapply get_In_values; eauto.
  - intros id tx Hg Hn. apply resolve_txs_In. exists id. split; [|exact Hg].
    apply (Hix id tx a Hg). now apply names_truthy.
Qed.

End SyncContents.

(** X7.  [handleSyncRequest] answers on the requesting socket only, with one
    [syncResponse] envelope from [seed_node] that carries the id of the
    request (a generated id when the request has none) and the stored
    height; a request whose payload does not decode gets no answer and
    changes nothing. *)
Theorem handleSyncRequest_reply
    (decode_sync : option string -> option SyncRequest)
    (now : Z) (fresh : string) (m : Message) (socket : WebSocket) (n : Node) :
  let n' := exec (handleSyncRequest decode_sync now fresh m socket) n in
  match decode_sync (payload m) with
  | None => n' = n
  | Some req =>
      exists resp,
        n' = with_wire (wire n ++ [mkSent (ws_handle socket) (Response resp)]) n /\
        r_id resp = match msg_id m with
                    | Some i => if String.eqb i "" then fresh else i
                    | None => fresh
                    end /\
        r_type resp = "syncResponse" /\
        r_senderId resp = "seed_node" /\
        currentHeight (r_payload resp) = chain_height (blockchain n) /\
        currentBalances (r_payload resp) =
          (userAddress req, user_balance (userAddress req) (blockchain n))
  end.
Proof.
  intros n'. subst n'. destruct (decode_sync (payload m)) as [req|] eqn:Hd.
  - unfold exec, handleSyncRequest, try_catch, bind, decoded, gets.
    rewrite Hd. cbn [snd ret ws_send modify]. eexists. split; [reflexivity|].
    cbn [r_id r_type r_senderId r_payload currentHeight currentBalances].
    repeat split. unfold truthy. destruct (msg_id m) as [i|]; [|reflexivity].
    destruct (String.eqb i ""); reflexivity.
  - now apply handleSyncRequest_undecodable.
Qed.

(* ================================================================== *)
(** ** The block table only grows *)

Lemma block_broadcast_keeps_entry
    (decode_block : option string -> option Block) (m : Message) (n : Node) k b :
  JSMap.get k (blocks (blockchain n)) = Some b ->
  JSMap.get k (blocks (blockchain (exec (handleBlockBroadcast decode_block m) n))) = Some b.
Proof.
  intros Hg. destruct (decode_block (payload m)) as [b'|] eqn:Hd.
  - destruct (JSMap.has (hash b') (blocks (blockchain n))) eqn:Hh.
    + now rewrite (handleBlockBroadcast_known decode_block m b' n Hd Hh).
    + destruct (handleBlockBroadcast_new decode_block m b' n Hd Hh) as (ps & Hrun).
      rewrite Hrun. cbn [blockchain]. rewrite storeBlock_blocks.
      rewrite JSMapFacts.get_set_other; [exact Hg|].
      intros ->. unfold JSMap.has in Hh. now rewrite Hg in Hh.
  - now rewrite handleBlockBroadcast_undecodable.
Qed.

Lemma block_broadcast_adds_entry
    (decode_block : option string -> option Block) (m : Message) (n : Node) b :
  decode_block (payload m) = Some b ->
  JSMap.has (hash b) (blocks (blockchain n)) = false ->
  JSMap.get (hash b) (blocks (blockchain (exec (handleBlockBroadcast decode_block m) n)))
    = Some b /\
  chain_height (blockchain (exec (handleBlockBroadcast decode_block m) n)) =
    Some (Math_max (to_number (chain_height (blockchain n))) (block_height b)).
Proof.
  intros Hd Hh.
  destruct (handleBlockBroadcast_new decode_block m b n Hd Hh) as (ps & Hrun).
  rewrite Hrun. cbn [blockchain]. rewrite storeBlock_blocks, storeBlock_height.
  split; [apply JSMapFacts.get_set_same | reflexivity].
Qed.



(* ================================================================== *)
(** ** Which blocks a sync response leaves out *)

Lemma StronglySorted_app_le {A} (R : A -> A -> Prop) (l1 l2 : list A) x y :
  StronglySorted R (l1 ++ l2) -> In x l1 -> In y l2 -> R x y.
Proof.
  induction l1 as [|z l1 IH]; intros Hs Hx Hy; [destruct Hx|].
  cbn [app] in Hs. apply StronglySorted_inv in Hs. destruct Hs as [Hs Hall].
  destruct Hx as [->|Hx].
  - rewrite Forall_forall in Hall. apply Hall. apply in_or_app. now right.
  - now apply IH.
Qed.

Lemma sort_ascending_strongly {A} (key : A -> number) (l : list A) :
  (forall x, PrimFloat.is_nan (key x) = false) ->
  StronglySorted (fun a b => (key a <= key b)%num) (sort_by (ascending_by key) l).
Proof.
  intros Hkey. apply Sorted_StronglySorted; [|now apply sort_ascending].
  intros a b c. apply NumberFacts.le_trans.
Qed.


(** What [slice(0, stop)] drops when [stop] is not negative: nothing
    unless the slice is full, and only elements from behind the slice. *)
Lemma slice0_dropped {A} (stop : Z) (l : list A) (x : A) :
  0 <= stop -> In x l -> ~ In x (slice0 stop l) ->
  Z.of_nat (List.length (slice0 stop l)) = stop /\
  exists rest, l = slice0 stop l ++ rest /\ In x rest.
Proof.
  intros Hpos Hin Hout. unfold slice0 in *.
  destruct (stop <? 0) eqn:E; [apply Z.ltb_lt in E; lia|].
  set (k := Z.to_nat (Z.min stop (Z.of_nat (List.length l)))) in *.
  assert (Hrest : In x (skipn k l)).
  { rewrite <- (firstn_skipn k l) in Hin. apply in_app_or in Hin. tauto. }
  split.
  - rewrite length_firstn.
    assert (Hlt : (k < List.length l)%nat).
    { destruct (Nat.lt_ge_cases k (List.length l)) as [Hlt|Hge]; [exact Hlt|].
      rewrite skipn_all2 in Hrest by exact Hge. destruct Hrest. }
    subst k. lia.
  - exists (skipn k l). split; [symmetry; apply firstn_skipn | exact Hrest].
Qed.

(** The same for a limit that is a number: the slice is full when it has
    as many elements as the integer part of the limit. *)
Lemma slice_to_dropped {A} (stop : number) (l : list A) (x : A) :
  (0 <= stop)%num -> In x l -> ~ In x (slice_to stop l) ->
  Number.to_integer stop = Number.Integer (Z.of_nat (List.length (slice_to stop l))) /\
  exists rest, l = slice_to stop l ++ rest /\ In x rest.
Proof.
  intros Hpos Hin Hout. apply NumberFacts.to_integer_nonneg in Hpos.
  unfold slice_to in *. destruct (Number.to_integer stop) as [|z|].
  - destruct Hpos.
  - destruct (slice0_dropped z l x Hpos Hin Hout) as (Hfull & Hrest).
    split; [now rewrite Hfull | exact Hrest].
  - contradiction.
Qed.

(** X9.  The blocks of a sync response are the lowest ones above the cursor:
    when the limit is not negative, a stored block above
    [lastKnownBlockHeight] is missing from the response only if the
    response is full (it has as many blocks as the integer part of the
    limit, which is what [slice] takes of a limit such as 1.5), and then
    no listed block is higher than the missing one. *)
Theorem sync_leaves_out_only_the_higher_blocks
    (decode_sync : option string -> option SyncRequest)
    (now : Z) (fresh : string) (m : Message) (socket : WebSocket)
    (req : SyncRequest) (n : Node) :
  decode_sync (payload m) = Some req ->
  (0 <= number_or (requestedBlocks req) 100)%num ->
  exists resp,
    wire (exec (handleSyncRequest decode_sync now fresh m socket) n) =
      wire n ++ [mkSent (ws_handle socket) (Response resp)] /\
    forall b,
      In b (JSMap.values (blocks (blockchain n))) ->
      (number_or (lastKnownBlockHeight req) 0 < block_height b)%num ->
      ~ In b (r_blocks (r_payload resp)) ->
      Number.to_integer (number_or (requestedBlocks req) 100) =
        Number.Integer (Z.of_nat (List.length (r_blocks (r_payload resp)))) /\
      forall b', In b' (r_blocks (r_payload resp)) ->
        (block_height b' <= block_height b)%num.
Proof.
  intros Hd Hpos.
  destruct (handleSyncRequest_decoded decode_sync now fresh m socket req n Hd)
    as (resp & Hrun & Hblocks & _).
  exists resp. rewrite Hrun, Hblocks. cbn [wire with_wire]. split; [reflexivity|].
  intros b Hstored Habove Hout. unfold blocks_after in *.
  set (above := filter (fun b0 =>
                  (number_or (lastKnownBlockHeight req) 0 <? block_height b0)%float)
                  (JSMap.values (blocks (blockchain n)))) in *.
  set (sorted := sort_by (ascending_by block_height) above) in *.
  assert (Hin : In b sorted).
  { subst sorted above. apply sort_by_In. apply filter_In. split; [exact Hstored|].
    exact Habove. }
  destruct (slice_to_dropped _ sorted b Hpos Hin Hout) as (Hfull & rest & Hsplit & Hrest).
  split; [exact Hfull|].
  intros b' Hb'.
  pose proof (sort_ascending_strongly block_height above block_height_number) as Hs.
  fold sorted in Hs. rewrite Hsplit in Hs.
  exact (StronglySorted_app_le _ _ _ b' b Hs Hb' Hrest).
Qed.

(* ================================================================== *)
(** ** Heights, tips and what a snapshot keeps *)

Lemma In_values_set {K V} `{KeyEqLaws K} (k : K) (v v' : V) (m : JSMap.t K V) :
  In v' (JSMap.values (JSMap.set k v m)) -> v' = v \/ In v' (JSMap.values m).
Proof.
  unfold JSMap.values. induction m as [|[k0 v0] rest IH]; cbn [JSMap.set map In].
  - intros [<-|[]]. now left.
  - destruct (keq k k0); cbn [map In snd].
    + intros [<-|Hin]; [now left | right; now right].
    + intros [<-|Hin]; [right; now left|].
      destruct (IH Hin) as [->|Hin']; [now left | right; now right].
Qed.

Lemma In_values_of_entries {K V} `{KeyEqLaws K} (l : list (K * V)) (v : V) :
  In v (JSMap.values (JSMap.of_entries l)) -> In v (map snd l).
Proof.
  unfold JSMap.of_entries.
  assert (Hgen : forall acc : JSMap.t K V,
            In v (JSMap.values (fold_left (fun m kv => JSMap.set (fst kv) (snd kv) m) l acc)) ->
            In v (JSMap.values acc) \/ In v (map snd l)).
  { induction l as [|[k0 v0] l IH]; intros acc Hin; cbn [fold_left] in Hin.
    - now left.
    - destruct (IH _ Hin) as [Hacc|Hl].
      + cbn [fst snd] in Hacc. apply In_values_set in Hacc.
        destruct Hacc as [->|Hacc]; [right; now left | now left].
      + right. now right. }
  intros Hin. destruct (Hgen JSMap.empty Hin) as [[]|Hl]. exact Hl.
Qed.

Lemma storeTransaction_tips tx bc : tips (storeTransaction tx bc) = tips bc.
Proof.
  destruct tx as [t|]; [|reflexivity].
  destruct (truthy (tx_id t)) as [id|] eqn:Hid.
  - now rewrite (storeTransaction_stored t id bc Hid).
  - now rewrite storeTransaction_without_id.
Qed.

Lemma store_all_tips l bc :
  tips (fold_left (fun acc tx => storeTransaction tx acc) l bc) = tips bc.
Proof.
  revert bc. induction l as [|tx l IH]; intros bc; cbn [fold_left]; [reflexivity|].
  now rewrite IH, storeTransaction_tips.
Qed.

Lemma storeBlock_tips b bc : tips (storeBlock b bc) = tips bc.
Proof.
  unfold storeBlock. destruct (transactions b) as [[l|]|]; try reflexivity.
  now rewrite store_all_tips.
Qed.

Lemma storeTransaction_tidy tx bc : ledger_tidy bc -> ledger_tidy (storeTransaction tx bc).
Proof.
  unfold ledger_tidy, heights_bounded.
  now rewrite storeTransaction_blocks, storeTransaction_height.
Qed.

Lemma fold_store_tidy {A} (f : A -> option Transaction) (l : list A) bc :
  ledger_tidy bc ->
  ledger_tidy (fold_left (fun acc x => storeTransaction (f x) acc) l bc).
Proof.
  revert bc. induction l as [|x l IH]; intros bc Hok; cbn [fold_left]; [exact Hok|].
  apply IH. now apply storeTransaction_tidy.
Qed.

(** The height of a block is never [-0]. *)
Lemma block_height_not_negative_zero b : Number.negative_zero (block_height b) = false.
Proof.
  unfold block_height. destruct (header b) as [h|]; [|reflexivity].
  unfold number_or. destruct (height h) as [x|]; [|reflexivity].
  destruct (Number.falsy x) eqn:E; [reflexivity|].
  unfold Number.falsy in E. apply orb_false_iff in E. destruct E as [E _].
  unfold Number.negative_zero. now rewrite E.
Qed.

Lemma plain_field_number h :
  plain_field h = true -> PrimFloat.is_nan (to_number h) = false.
Proof.
  destruct h as [x|]; cbn [plain_field to_number]; [|reflexivity].
  apply NumberFacts.plain_number.
Qed.

Lemma storeBlock_tidy b bc :
  PrimFloat.is_finite (block_height b) = true ->
  ledger_tidy bc -> ledger_tidy (storeBlock b bc).
Proof.
  intros Hfin (Hh & Hp & Hpos).
  assert (Hok2 : ledger_tidy
            (with_height (Some (Math_max (to_number (chain_height bc)) (block_height b)))
               (with_blocks (JSMap.set (hash b) b (blocks bc)) bc))).
  { pose proof (plain_field_number _ Hp) as Hn.
    destruct (NumberFacts.Math_max_cases _ _ Hn (block_height_number b))
      as (Hcase & Hle1 & Hle2).
    unfold ledger_tidy, heights_bounded.
    cbn [with_height with_blocks blocks chain_height to_number plain_field].
    split; [|split].
    - intros x Hx. apply In_values_set in Hx. destruct Hx as [->|Hx]; [exact Hle2|].
      exact (NumberFacts.le_trans _ _ _ (Hh x Hx) Hle1).
    - destruct Hcase as [-> | ->].
      + destruct (chain_height bc) as [x|]; [exact Hp | reflexivity].
      + unfold Number.plain. now rewrite Hfin, block_height_not_negative_zero.
    - exact (NumberFacts.le_trans _ _ _ Hpos Hle1). }
  unfold storeBlock. destruct (transactions b) as [[l|]|]; [|exact Hok2|exact Hok2].
  exact (fold_store_tidy (fun tx => tx) l _ Hok2).
Qed.

Lemma set_add_NoDup x s : NoDup s -> NoDup (set_add x s).
Proof.
  intros Hnd. unfold set_add. destruct (existsb (String.eqb x) s) eqn:E; [exact Hnd|].
  apply NoDup_rev in Hnd. rewrite <- (rev_involutive (s ++ [x])).
  apply NoDup_rev. rewrite rev_app_distr. cbn [rev app]. constructor; [|exact Hnd].
  rewrite <- in_rev. intros Hin.
  assert (Ht : existsb (String.eqb x) s = true).
  { apply existsb_exists. exists x. split; [exact Hin | apply String.eqb_refl]. }
  congruence.
Qed.

Lemma set_of_array_NoDup l : NoDup (set_of_array l).
Proof.
  unfold set_of_array.
  assert (Hgen : forall acc, NoDup acc -> NoDup (fold_left (fun s x => set_add x s) l acc)).
  { induction l as [|x l IH]; intros acc Hacc; cbn [fold_left]; [exact Hacc|].
    apply IH. now apply set_add_NoDup. }
  apply Hgen. constructor.
Qed.

Lemma set_of_array_id l : NoDup l -> set_of_array l = l.
Proof.
  unfold set_of_array.
  assert (Hgen : forall acc, NoDup (acc ++ l) ->
            fold_left (fun s x => set_add x s) l acc = acc ++ l).
  { induction l as [|x l IH]; intros acc Hnd; cbn [fold_left].
    - now rewrite app_nil_r.
    - assert (Hx : existsb (String.eqb x) acc = false).
      { destruct (existsb (String.eqb x) acc) eqn:E; [|reflexivity].
        apply existsb_exists in E. destruct E as (y & Hy & Heq).
        apply String.eqb_eq in Heq. subst y.
        apply NoDup_remove_2 in Hnd. exfalso. apply Hnd. apply in_or_app. now left. }
      unfold set_add at 2. rewrite Hx. rewrite IH; rewrite <- app_assoc; [reflexivity|].
      exact Hnd. }
  intros Hnd. now apply (Hgen []).
Qed.

Lemma json_field_plain h : plain_field h = true -> json_field h = h.
Proof.
  destruct h as [x|]; cbn [plain_field json_field]; [|reflexivity].
  apply NumberFacts.json_number_plain.
Qed.

(** The height of a block that has gone through JSON is the height it
    had, or 0 (where the height was infinite). *)
Lemma block_height_json b :
  block_height (json_block b) = block_height b \/ block_height (json_block b) = 0%float.
Proof.
  unfold block_height, json_block. cbn [header].
  destruct (header b) as [h|]; cbn [option_map]; [|now left].
  unfold json_header. cbn [height]. destruct (height h) as [x|]; cbn [json_field]; [|now left].
  unfold json_number. destruct (PrimFloat.is_finite x); [|now right].
  cbn [number_or]. destruct (Number.negative_zero x) eqn:E; [|now left].
  left. unfold Number.negative_zero in E. apply andb_true_iff in E. destruct E as [E _].
  unfold Number.falsy. now rewrite E.
Qed.

Lemma snapshot_tidy now bc : ledger_tidy bc -> ledger_tidy (blockchain_of (snapshot_of now bc)).
Proof.
  intros (Hh & Hp & Hpos). unfold blockchain_of, snapshot_of, ledger_tidy, heights_bounded.
  cbn [blocks chain_height s_blocks s_height]. rewrite (json_field_plain _ Hp).
  split; [|split; assumption].
  intros b Hb. apply In_values_of_entries in Hb. rewrite !map_map in Hb. cbn [snd] in Hb.
  apply in_map_iff in Hb. destruct Hb as ([k b0] & <- & Hb0). cbn [snd].
  destruct (block_height_json b0) as [-> | ->]; [|exact Hpos].
  apply Hh. unfold JSMap.values. change b0 with (snd (k, b0)). now apply in_map.
Qed.

Lemma ledger_tidy_empty : ledger_tidy emptyBlockchain.
Proof.
  split; [intros b [] | split; [reflexivity | exact NumberFacts.zero_le_zero]].
Qed.

Lemma store_genesis_blocks {A} (mk : A -> Transaction) (l : list A) bc :
  blocks (fold_left (fun acc x => storeTransaction (Some (mk x)) acc) l bc) = blocks bc /\
  tips (fold_left (fun acc x => storeTransaction (Some (mk x)) acc) l bc) = tips bc.
Proof.
  revert bc. induction l as [|x l IH]; intros bc; cbn [fold_left]; [split; reflexivity|].
  destruct (IH (storeTransaction (Some (mk x)) bc)) as [Hb Ht].
  rewrite Hb, Ht, storeTransaction_blocks, storeTransaction_tips. split; reflexivity.
Qed.

(** Genesis on the empty ledger gives a tidy node with one tip. *)
Lemma createGenesisBlock_tidy now sha256_hex JSON_stringify_txs n :
  blockchain n = emptyBlockchain ->
  node_tidy (exec (createGenesisBlock now sha256_hex JSON_stringify_txs) n) /\
  NoDup (tips (blockchain (exec (createGenesisBlock now sha256_hex JSON_stringify_txs) n))).
Proof.
  intros Hempty. unfold exec, createGenesisBlock.
  generalize (indexed 0 initialSupply). intros l.
  generalize (sha256_hex ("ziwio-genesis-block" ++ decimal_of_Z now)%string). intros h.
  generalize (sha256_hex (JSON_stringify_txs
                (map (fun ie => genesis_tx now (fst ie) (snd ie)) l))). intros root.
  generalize (Number.of_Z now / 1000)%float. intros stamp.
  generalize (genesis_tx now). intros mk.
  unfold bind. rewrite forEach_modify_chain.
  set (bc0 := fold_left (fun acc x => storeTransaction (Some (mk (fst x) (snd x))) acc)
                l (blockchain n)).
  assert (Hblocks : blocks bc0 = JSMap.empty /\ tips bc0 = []).
  { subst bc0. rewrite Hempty.
    exact (store_genesis_blocks (fun x => mk (fst x) (snd x)) l emptyBlockchain). }
  clearbody bc0. destruct Hblocks as [Hb Ht].
  unfold modify_chain, modify, saveBlockchain, try_catch, bind, gets.
  cbn [snd fst blockchain with_blockchain peers wire disk with_disk].
  assert (Hfinal : forall gb g tp0,
            block_height gb = 0%float ->
            ledger_tidy {| blocks := JSMap.set (HStr h) gb (blocks bc0); txs := txs bc0;
                           chain_height := Some 0%float; tips := tp0;
                           txByAddress := txByAddress bc0; genesisHash := g |}).
  { intros gb g tp0 Hgb. unfold ledger_tidy, heights_bounded.
    cbn [blocks chain_height to_number plain_field]. rewrite Hb.
    split; [|split; [reflexivity | exact NumberFacts.zero_le_zero]].
    intros x [<-|[]]. cbn [snd]. rewrite Hgb. exact NumberFacts.zero_le_zero. }
  split; [split|].
  - cbn [blockchain]. apply Hfinal. reflexivity.
  - cbn [disk]. intros data Heq. inversion Heq; subst data. apply snapshot_tidy.
    apply Hfinal. reflexivity.
  - change (NoDup (set_add h (tips bc0))). apply set_add_NoDup. rewrite Ht. constructor.
Qed.

Lemma initialize_tidy now sha256_hex JSON_stringify_txs n :
  blockchain n = emptyBlockchain ->
  (forall data, disk n = Some data -> ledger_tidy (blockchain_of data)) ->
  node_tidy (exec (initialize now sha256_hex JSON_stringify_txs) n).
Proof.
  intros Hempty Hdisk. rewrite initialize_run.
  destruct (disk n) as [data|] eqn:Hd.
  - split; cbn [blockchain disk with_blockchain].
    + now apply Hdisk.
    + intros data' Hd'. apply Hdisk. congruence.
  - now apply createGenesisBlock_tidy.
Qed.

Lemma initialize_tips now sha256_hex JSON_stringify_txs n :
  blockchain n = emptyBlockchain ->
  NoDup (tips (blockchain (exec (initialize now sha256_hex JSON_stringify_txs) n))).
Proof.
  intros Hempty. rewrite initialize_run.
  destruct (disk n) as [data|] eqn:Hd.
  - cbn [blockchain with_blockchain]. unfold blockchain_of. cbn [tips].
    apply set_of_array_NoDup.
  - now apply createGenesisBlock_tidy.
Qed.

Section Tidy.

Variable decode_sync : option string -> option SyncRequest.
Variable decode_block : option string -> option Block.
Variable decode_tx : option string -> option Transaction.
Variable sha256_hex : string -> string.
Variable JSON_stringify_txs : list Transaction -> string.

(** No tip is listed twice, in any state. *)
Lemma reachable_tips n :
  reachable decode_sync decode_block decode_tx sha256_hex JSON_stringify_txs n ->
  NoDup (tips (blockchain n)).
Proof.
  induction 1 as [now | n now _ IH | n now fresh m socket _ IH | n m _ IH
                 | n m _ IH | n now _ IH | n ps _ IH].
  - now apply initialize_tips.
  - now apply initialize_tips.
  - destruct (decode_sync (payload m)) as [req|] eqn:Hd.
    + destruct (handleSyncRequest_decoded decode_sync now fresh m socket req n Hd)
        as (resp & Hrun & _).
      rewrite Hrun. exact IH.
    + now rewrite handleSyncRequest_undecodable.
  - destruct (decode_block (payload m)) as [b|] eqn:Hd.
    + destruct (JSMap.has (hash b) (blocks (blockchain n))) eqn:Hh.
      * now rewrite (handleBlockBroadcast_known decode_block m b n Hd Hh).
      * destruct (handleBlockBroadcast_new decode_block m b n Hd Hh) as (ps & Hrun).
        rewrite Hrun. cbn [blockchain]. now rewrite storeBlock_tips.
    + now rewrite handleBlockBroadcast_undecodable.
  - destruct (decode_tx (payload m)) as [tx|] eqn:Hd.
    + destruct (handleTransactionBroadcast_decoded decode_tx m tx n Hd) as (ps & Hrun).
      rewrite Hrun. cbn [blockchain]. now rewrite storeTransaction_tips.
    + now rewrite handleTransactionBroadcast_undecodable.
  - exact IH.
  - exact IH.
Qed.

(** As long as the peers send blocks of finite height, every state is
    tidy. *)
Lemma reachable_tidy n :
  finite_heights decode_block ->
  reachable decode_sync decode_block decode_tx sha256_hex JSON_stringify_txs n ->
  node_tidy n.
Proof.
  intros Hfinite.
  induction 1 as [now | n now _ IH | n now fresh m socket _ IH | n m _ IH
                 | n m _ IH | n now _ IH | n ps _ IH].
  - apply initialize_tidy; [reflexivity | discriminate].
  - apply initialize_tidy; [reflexivity | apply IH].
  - destruct (decode_sync (payload m)) as [req|] eqn:Hd.
    + destruct (handleSyncRequest_decoded decode_sync now fresh m socket req n Hd)
        as (resp & Hrun & _).
      rewrite Hrun. exact IH.
    + now rewrite handleSyncRequest_undecodable.
  - destruct (decode_block (payload m)) as [b|] eqn:Hd.
    + destruct (JSMap.has (hash b) (blocks (blockchain n))) eqn:Hh.
      * now rewrite (handleBlockBroadcast_known decode_block m b n Hd Hh).
      * destruct (handleBlockBroadcast_new decode_block m b n Hd Hh) as (ps & Hrun).
        rewrite Hrun. destruct IH as [Hledger Hdisk]. split; cbn [blockchain disk].
        -- apply storeBlock_tidy; [exact (Hfinite _ _ Hd) | exact Hledger].
        -- exact Hdisk.
    + now rewrite handleBlockBroadcast_undecodable.
  - destruct (decode_tx (payload m)) as [tx|] eqn:Hd.
    + destruct (handleTransactionBroadcast_decoded decode_tx m tx n Hd) as (ps & Hrun).
      rewrite Hrun. destruct IH as [Hledger Hdisk]. split; cbn [blockchain disk].
      * now apply storeTransaction_tidy.
      * exact Hdisk.
    + now rewrite handleTransactionBroadcast_undecodable.
  - destruct IH as [Hledger Hdisk].
    unfold exec, saveBlockchain, try_catch, bind, gets, modify.
    cbn [snd]. split; cbn [blockchain disk with_disk]; [exact Hledger|].
    intros data Heq. inversion Heq; subst data. now apply snapshot_tidy.
  - exact IH.
Qed.

(** X10.  The height a sync response reports is never below the height of a
    block it lists: as long as the peers send blocks of finite height,
    no stored block is higher than the stored height, in any state the
    node goes through.  (A block of infinite height makes the height
    [Infinity], which a snapshot writes as [null].) *)
Theorem sync_height_bounds_listed_blocks
    (n : Node) (now : Z) (fresh : string) (m : Message) (socket : WebSocket)
    (req : SyncRequest) :
  finite_heights decode_block ->
  reachable decode_sync decode_block decode_tx sha256_hex JSON_stringify_txs n ->
  decode_sync (payload m) = Some req ->
  (forall b, In b (JSMap.values (blocks (blockchain n))) ->
     (block_height b <= to_number (chain_height (blockchain n)))%num) /\
  exists resp,
    wire (exec (handleSyncRequest decode_sync now fresh m socket) n) =
      wire n ++ [mkSent (ws_handle socket) (Response resp)] /\
    Forall (fun b => (block_height b <= to_number (currentHeight (r_payload resp)))%num)
      (r_blocks (r_payload resp)).
Proof.
  intros Hfinite Hreach Hd.
  apply (reachable_tidy _ Hfinite) in Hreach. destruct Hreach as [[Hh _] _].
  split; [exact Hh|].
  destruct (handleSyncRequest_decoded decode_sync now fresh m socket req n Hd)
    as (resp & Hrun & Hblocks & _ & Hheight & _).
  exists resp. rewrite Hrun, Hblocks, Hheight. cbn [wire with_wire].
  split; [reflexivity|]. apply Forall_forall. intros b Hb.
  apply Hh. now apply blocks_after_stored in Hb.
Qed.

Lemma plain_key_json k : plain_key k = true -> key_of_json (json_of_key k) = k.
Proof.
  destruct k as [| |s|text]; cbn [plain_key json_of_key key_of_json];
    try reflexivity; try discriminate.
  intros Ht. apply negb_true_iff in Ht. now rewrite Ht.
Qed.

Lemma plain_data_json d : plain_data d = true -> json_data d = d.
Proof.
  destruct d as [s|x|]; cbn [plain_data json_data]; try reflexivity.
  intros Hx. now rewrite (NumberFacts.json_number_plain x Hx).
Qed.

Lemma map_id_in {A} (f : A -> A) (l : list A) :
  (forall x, In x l -> f x = x) -> map f l = l.
Proof.
  intros Hf. rewrite <- (map_id l) at 2. now apply map_ext_in.
Qed.

Lemma plain_tx_json t : plain_tx t = true -> json_tx t = t.
Proof.
  unfold plain_tx, json_tx. intros H.
  apply andb_true_iff in H. destruct H as [H Hd].
  apply andb_true_iff in H. destruct H as [H Ht].
  apply andb_true_iff in H. destruct H as [Ha Hf].
  rewrite (json_field_plain _ Ha), (json_field_plain _ Hf), (json_field_plain _ Ht).
  rewrite (map_id_in (fun kv => (fst kv, json_data (snd kv)))).
  - destruct t; reflexivity.
  - intros [key d] Hin. cbn [fst snd]. rewrite forallb_forall in Hd.
    now rewrite (plain_data_json d (Hd (key, d) Hin)).
Qed.

Lemma plain_header_json h : plain_header h = true -> json_header h = h.
Proof.
  unfold plain_header, json_header. intros H.
  apply andb_true_iff in H. destruct H as [H Ht].
  apply andb_true_iff in H. destruct H as [Hh Hi].
  rewrite (json_field_plain _ Hh), (json_field_plain _ Hi), (json_field_plain _ Ht).
  destruct h; reflexivity.
Qed.

Lemma plain_block_json b : plain_block b = true -> json_block b = b.
Proof.
  unfold plain_block, json_block. intros H.
  apply andb_true_iff in H. destruct H as [H Hl].
  apply andb_true_iff in H. destruct H as [Hk Hh].
  assert (Hhash : json_hash (hash b) = hash b).
  { destruct (hash b) as [| |s|text]; cbn [json_hash plain_hash] in *; try reflexivity.
    apply negb_true_iff in Hk. now rewrite Hk. }
  assert (Hheader : option_map json_header (header b) = header b).
  { destruct (header b) as [h|]; cbn [option_map]; [|reflexivity].
    now rewrite plain_header_json. }
  assert (Hlist : option_map json_transactions (transactions b) = transactions b).
  { destruct (transactions b) as [[l|]|]; cbn [option_map json_transactions]; try reflexivity.
    cbn [plain_transactions] in Hl. rewrite forallb_forall in Hl.
    rewrite (map_id_in (option_map json_tx)); [reflexivity|].
    intros [t|] Hin; cbn [option_map]; [|reflexivity].
    now rewrite (plain_tx_json t (Hl (Some t) Hin)). }
  rewrite Hhash, Hheader, Hlist. destruct b; reflexivity.
Qed.

(** X11.  Restarting from the snapshot: when the node has saved a ledger
    that JSON can hold as it is (every number in it finite and not [-0],
    every block under a key that is a string or [null]), a new process
    started on that file loads the whole ledger back (blocks,
    transactions, address index, height, tips and genesis hash) and does
    not run genesis again. *)
Theorem restart_from_snapshot_restores_ledger (n : Node) (now now' : Z) :
  reachable decode_sync decode_block decode_tx sha256_hex JSON_stringify_txs n ->
  plain_ledger (blockchain n) ->
  let saved := exec (saveBlockchain now) n in
  let restarted :=
    exec (initialize now' sha256_hex JSON_stringify_txs)
      (with_disk (disk saved) initialNode) in
  blockchain restarted = blockchain n /\
  disk restarted = disk saved.
Proof.
  intros Hreach (Hblocks & Htxs & Hheight) saved restarted. subst restarted saved.
  pose proof (reachable_ok _ _ _ _ _ _ Hreach) as [Hok _].
  pose proof (reachable_tips _ Hreach) as Htips.
  rewrite initialize_run.
  unfold exec, saveBlockchain, try_catch, bind, gets, modify.
  cbn [snd disk with_disk blockchain with_blockchain]. split; [|reflexivity].
  destruct Hok as [Hb Ht Hi _ _].
  unfold blockchain_of, snapshot_of.
  cbn [s_blocks s_transactions s_txByAddress s_height s_tips s_genesisHash].
  rewrite (JSMapFacts.of_entries_entries _ Hi), (set_of_array_id _ Htips),
    (json_field_plain _ Hheight).
  assert (Hb' : JSMap.of_entries
            (map (fun e => (key_of_json (fst e), snd e))
               (map (fun e => (json_of_key (fst e), json_block (snd e)))
                  (JSMap.entries (blocks (blockchain n))))) = blocks (blockchain n)).
  { unfold JSMap.entries. rewrite map_map. cbn [fst snd].
    rewrite map_id_in; [exact (JSMapFacts.of_entries_entries _ Hb)|].
    intros [k b] Hin. rewrite Forall_forall in Hblocks.
    destruct (Hblocks (k, b) Hin) as [Hk Hbk]. cbn [fst snd] in *.
    now rewrite (plain_key_json k Hk), (plain_block_json b Hbk). }
  assert (Ht' : JSMap.of_entries
            (map (fun e => (fst e, json_tx (snd e))) (JSMap.entries (txs (blockchain n)))) =
            txs (blockchain n)).
  { unfold JSMap.entries. rewrite map_id_in; [exact (JSMapFacts.of_entries_entries _ Ht)|].
    intros [k t] Hin. rewrite Forall_forall in Htxs. cbn [fst snd].
    now rewrite (plain_tx_json t (Htxs (k, t) Hin)). }
  rewrite Hb', Ht'. destruct (blockchain n); reflexivity.
Qed.

End Tidy.

(* ================================================================== *)
(** ** The HTTP queries *)


(** X13.  [GET /block/:hash] after a broadcast: a block with a string hash that
    is new to the table is served under that hash once its broadcast is
    handled, and it is still served after any further broadcast of a block
    or a transaction. *)
Theorem accepted_block_is_served_by_hash
    (decode_block : option string -> option Block)
    (decode_tx : option string -> option Transaction)
    (m : Message) (b : Block) (h : string) (n : Node) :
  decode_block (payload m) = Some b ->
  hash b = HStr h ->
  get_block h n = None ->
  let n' := exec (handleBlockBroadcast decode_block m) n in
  get_block h n' = Some b /\
  (forall m', get_block h (exec (handleBlockBroadcast decode_block m') n') = Some b) /\
  (forall m', get_block h (exec (handleTransactionBroadcast decode_tx m') n') = Some b).
Proof.
  intros Hd Hhash Hnone n'. unfold get_block in *.
  assert (Hnew : JSMap.has (hash b) (blocks (blockchain n)) = false).
  { unfold JSMap.has. now rewrite Hhash, Hnone. }
  destruct (block_broadcast_adds_entry decode_block m n b Hd Hnew) as [Hfound _].
  rewrite Hhash in Hfound. fold n' in Hfound.
  split; [exact Hfound|]. split.
  - intros m'. now apply block_broadcast_keeps_entry.
  - intros m'. destruct (decode_tx (payload m')) as [tx|] eqn:Hd'.
    + destruct (handleTransactionBroadcast_decoded decode_tx m' tx n' Hd') as (ps & Hrun).
      rewrite Hrun. cbn [blockchain]. now rewrite storeTransaction_blocks.
    + now rewrite handleTransactionBroadcast_undecodable.
Qed.

(** X14.  The HTTP queries and the sync response agree: for a non-empty
    address, [GET /transactions?address=] lists the first [limit] of the
    transactions a sync response for that address lists, and
    [GET /balance/] gives the balance the sync response gives. *)
Theorem http_queries_agree_with_sync
    (decode_sync : option string -> option SyncRequest)
    (now : Z) (fresh : string) (m : Message) (socket : WebSocket)
    (req : SyncRequest) (a : string) (limit : option Z) (n : Node) :
  decode_sync (payload m) = Some req ->
  userAddress req = Some a ->
  a <> "" ->
  exists resp,
    wire (exec (handleSyncRequest decode_sync now fresh m socket) n) =
      wire n ++ [mkSent (ws_handle socket) (Response resp)] /\
    tl_transactions (get_transactions (Some a) limit n) =
      slice0 (num_or limit 50) (userTransactions (r_payload resp)) /\
    get_balance a n = (a, snd (currentBalances (r_payload resp))).
Proof.
  intros Hd Hua Ha.
  destruct (handleSyncRequest_decoded decode_sync now fresh m socket req n Hd)
    as (resp & Hrun & _ & Htxs & _ & Hbal).
  exists resp. rewrite Hrun, Htxs, Hbal, Hua. cbn [wire with_wire user_index snd user_balance].
  split; [reflexivity|]. split; [|reflexivity].
  unfold get_transactions. cbn [tl_transactions truthy].
  destruct (String.eqb a "") eqn:E; [|reflexivity].
  apply String.eqb_eq in E. contradiction.
Qed.

(* ================================================================== *)
(** ** Connections and registration *)

Lemma get_delete_same {V} (k : string) (m : JSMap.t string V) :
  JSMap.get k (JSMap_delete k m) = None.
Proof.
  unfold JSMap_delete. induction m as [|[k' v] rest IH]; [reflexivity|].
  cbn [filter fst]. destruct (keq k k') eqn:E; cbn [negb]; [exact IH|].
  cbn [JSMap.get]. now rewrite E.
Qed.

Lemma get_delete_other {V} (k k' : string) (m : JSMap.t string V) :
  k <> k' -> JSMap.get k (JSMap_delete k' m) = JSMap.get k m.
Proof.
  intros Hne. unfold JSMap_delete. induction m as [|[k0 v] rest IH]; [reflexivity|].
  cbn [filter fst JSMap.get]. destruct (keq k' k0) eqn:E; cbn [negb].
  - apply String.eqb_eq in E. subst k0.
    rewrite (JSMapFacts.keq_neq k k' Hne). exact IH.
  - cbn [JSMap.get]. now rewrite IH.
Qed.

(** The relay leaves the entry of an excluded id alone, and every id
    that was registered stays registered. *)
Lemma broadcast_loop_excluded es message exclude sentCount n k :
  differs k exclude = false ->
  JSMap.get k (peers (snd (broadcast_loop es message exclude sentCount n))) =
  JSMap.get k (peers n).
Proof.
  intros Hex. revert sentCount n. induction es as [|[key p] es IH]; intros sentCount n.
  - reflexivity.
  - cbn [broadcast_loop].
    destruct (differs key exclude && is_open (readyState (ws p))) eqn:E; [|apply IH].
    apply andb_true_iff in E. destruct E as [Hd Hopen].
    unfold bind at 1. unfold Peer_send. rewrite Hopen.
    unfold bind at 1. unfold ws_send, modify. rewrite IH.
    cbn [peers with_peers with_wire]. apply JSMapFacts.get_set_other.
    intros ->. congruence.
Qed.

Lemma broadcastToPeers_excluded message n k :
  senderId message = Some k ->
  JSMap.get k (peers (snd (broadcastToPeers message (senderId message) n))) =
  JSMap.get k (peers n).
Proof.
  intros Hs. unfold broadcastToPeers, bind, gets.
  apply broadcast_loop_excluded. rewrite Hs. cbn [differs].
  now rewrite String.eqb_refl.
Qed.

Lemma handleTransactionBroadcast_relay
    (decode_tx : option string -> option Transaction) m tx n :
  decode_tx (payload m) = Some tx ->
  exec (handleTransactionBroadcast decode_tx m) n =
  snd (broadcastToPeers m (senderId m)
         (with_blockchain (storeTransaction (Some tx) (blockchain n)) n)).
Proof.
  intros Hd. unfold exec, handleTransactionBroadcast, try_catch, bind, decoded.
  rewrite Hd. unfold modify_chain, modify, ret.
  match goal with |- context [broadcastToPeers m (senderId m) ?n0] =>
    destruct (broadcastToPeers m (senderId m) n0) as [[c|] n2] end; reflexivity.
Qed.

(** What the three handlers of the node do to the registry entry of an
    id: nothing if the id is the sender of the envelope. *)
Lemma handlers_keep_sender_entry
    (decode_sync : option string -> option SyncRequest)
    (decode_block : option string -> option Block)
    (decode_tx : option string -> option Transaction)
    now fresh socket m n k :
  senderId m = Some k ->
  JSMap.get k (peers (exec (handleSyncRequest decode_sync now fresh m socket) n)) =
    JSMap.get k (peers n) /\
  JSMap.get k (peers (exec (handleBlockBroadcast decode_block m) n)) =
    JSMap.get k (peers n) /\
  JSMap.get k (peers (exec (handleTransactionBroadcast decode_tx m) n)) =
    JSMap.get k (peers n).
Proof.
  intros Hs. split; [|split].
  - destruct (decode_sync (payload m)) as [req|] eqn:Hd.
    + destruct (handleSyncRequest_decoded decode_sync now fresh m socket req n Hd)
        as (resp & Hrun & _).
      now rewrite Hrun.
    + now rewrite handleSyncRequest_undecodable.
  - destruct (decode_block (payload m)) as [b|] eqn:Hd.
    + destruct (JSMap.has (hash b) (blocks (blockchain n))) eqn:Hh.
      * now rewrite (handleBlockBroadcast_known decode_block m b n Hd Hh).
      * rewrite (handleBlockBroadcast_stored decode_block m b n Hd Hh).
        destruct (well_formed b); [now rewrite broadcastToPeers_excluded | reflexivity].
    + now rewrite handleBlockBroadcast_undecodable.
  - destruct (decode_tx (payload m)) as [tx|] eqn:Hd.
    + rewrite (handleTransactionBroadcast_relay decode_tx m tx n Hd).
      now rewrite broadcastToPeers_excluded.
    + now rewrite handleTransactionBroadcast_undecodable.
Qed.

Lemma liftS_run {A} (c : M A) (s : Server) :
  liftS c s = (fst (c (node s)), with_node (snd (c (node s))) s).
Proof. unfold liftS. destruct (c (node s)); reflexivity. Qed.

Lemma try_catch_returns body n : fst (try_catch body n) = Returned tt.
Proof. reflexivity. Qed.

Section Registration.

Variable decode_sync : option string -> option SyncRequest.
Variable decode_block : option string -> option Block.
Variable decode_tx : option string -> option Transaction.
Variable now : Z.
Variable fresh : string.

(** [route] always returns, and the node it leaves is the node one of the
    three handlers leaves, or the node it found. *)
Lemma route_run m socket s :
  exists n',
    fst (route decode_sync decode_block decode_tx now fresh m socket s) = Returned tt /\
    node (snd (route decode_sync decode_block decode_tx now fresh m socket s)) = n' /\
    (n' = node s \/
     n' = exec (handleSyncRequest decode_sync now fresh m socket) (node s) \/
     n' = exec (handleBlockBroadcast decode_block m) (node s) \/
     n' = exec (handleTransactionBroadcast decode_tx m) (node s)).
Proof.
  eexists. split; [|split; [reflexivity|]].
  - unfold route. destruct (msg_type m) as [t|]; [|reflexivity].
    repeat match goal with
           | |- context [if ?c then _ else _] => destruct c
           end; try reflexivity; rewrite liftS_run; reflexivity.
  - unfold route. destruct (msg_type m) as [t|]; [|now left].
    repeat match goal with
           | |- context [if ?c then _ else _] => destruct c
           end; try (now left); rewrite liftS_run; cbn [snd node with_node]; unfold exec; tauto.
Qed.

Lemma route_sender_entry m socket s k :
  senderId m = Some k ->
  JSMap.get k (peers (node (snd (route decode_sync decode_block decode_tx now fresh m socket s)))) = JSMap.get k (peers (node s)).
Proof.
  intros Hs. destruct (route_run m socket s) as (n' & _ & Hn & Hcases).
  rewrite Hn.
  destruct (handlers_keep_sender_entry decode_sync decode_block decode_tx
              now fresh socket m (node s) k Hs) as (H1 & H2 & H3).
  destruct Hcases as [-> | [-> | [-> | ->]]]; auto.
Qed.

Lemma handleMessage_fresh_run (conn : Connection) (m : Message) (s : Server) (id : string) :
  conn_peer conn = None ->
  truthy (senderId m) = Some id ->
  handleMessage decode_sync decode_block decode_tx now fresh conn m s =
  (Returned (with_conn_peer id conn),
   snd (route decode_sync decode_block decode_tx now fresh m (conn_ws conn)
          (with_node
             (with_peers
                (JSMap.set id (new_Peer now (conn_ws conn) id (clientIp conn))
                   (peers (node s)))
                (node s)) s))).
Proof.
  intros Hnone Hid. unfold handleMessage. rewrite Hnone, Hid.
  unfold bindS, retS, write_own_peer, modify_peers, modifyS.
  cbn [conn_peer with_conn_peer node with_node peers with_peers conn_ws].
  rewrite JSMapFacts.get_set_same. cbn [ws new_Peer]. rewrite Nat.eqb_refl.
  change (with_lastSeen now
            {| ws := conn_ws conn; nodeId := id; address := clientIp conn;
               connectedAt := now; lastSeen := now; messageCount := 0; isAlive := true |})
    with (new_Peer now (conn_ws conn) id (clientIp conn)).
  rewrite (set_same_value id (new_Peer now (conn_ws conn) id (clientIp conn)))
    by apply JSMapFacts.get_set_same.
  match goal with
  | |- (let (o, s') := route _ _ _ _ _ m ?sock ?sA in _) = (_, snd (route _ _ _ _ _ m ?sock ?sB)) =>
      change sA with sB;
      destruct (route_run m sock sB) as (n' & Hret & _);
      destruct (route decode_sync decode_block decode_tx now fresh m sock sB) as [o s2]
  end.
  cbn [fst snd] in *. subst o. reflexivity.
Qed.

(** X15.  Registration: the first envelope with a non-empty sender id that
    arrives on a connection registers a new peer under that id, with the
    socket and the address of the connection, alive, last seen now and
    with no message counted; whatever was registered under the id before
    is replaced. *)
Theorem handleMessage_registers_first_sender
    (conn : Connection) (m : Message) (s : Server) (id : string) :
  conn_peer conn = None ->
  truthy (senderId m) = Some id ->
  fst (handleMessage decode_sync decode_block decode_tx now fresh conn m s) =
    Returned (with_conn_peer id conn) /\
  JSMap.get id
    (peers (node (snd (handleMessage decode_sync decode_block decode_tx now fresh conn m s)))) =
    Some {| ws := conn_ws conn; nodeId := id; address := clientIp conn;
            connectedAt := now; lastSeen := now; messageCount := 0; isAlive := true |}.
Proof.
  intros Hnone Hid. rewrite (handleMessage_fresh_run conn m s id Hnone Hid).
  cbn [fst snd]. split; [reflexivity|].
  apply truthy_Some in Hid. destruct Hid as [Hid _].
  rewrite (route_sender_entry m _ _ id Hid). cbn [node with_node peers with_peers].
  rewrite JSMapFacts.get_set_same. reflexivity.
Qed.

Lemma handleMessage_run (conn : Connection) (m : Message) (s : Server) :
  handleMessage decode_sync decode_block decode_tx now fresh conn m s =
  (Returned (fst (before_route now conn m s)),
   snd (route decode_sync decode_block decode_tx now fresh m (conn_ws conn)
          (snd (before_route now conn m s)))).
Proof.
  destruct (conn_peer conn) as [k|] eqn:Hp.
  - unfold handleMessage, before_route. rewrite Hp.
    unfold bindS, retS, write_own_peer, modify_peers, modifyS. rewrite Hp.
    cbn [fst snd].
    match goal with
    | |- (let (o, s') := route _ _ _ _ _ m ?sock ?sA in _) = _ =>
        destruct (route_run m sock sA) as (n' & Hret & _);
        destruct (route decode_sync decode_block decode_tx now fresh m sock sA) as [o s2]
    end.
    cbn [fst snd] in *. subst o. reflexivity.
  - destruct (truthy (senderId m)) as [id|] eqn:Hid.
    + rewrite (handleMessage_fresh_run conn m s id Hp Hid).
      unfold before_route. rewrite Hp, Hid. reflexivity.
    + unfold handleMessage, before_route. rewrite Hp, Hid.
      unfold bindS, retS. rewrite Hp. cbn [fst snd].
      match goal with
      | |- (let (o, s') := route _ _ _ _ _ m ?sock ?sA in _) = _ =>
          destruct (route_run m sock sA) as (n' & Hret & _);
          destruct (route decode_sync decode_block decode_tx now fresh m sock sA) as [o s2]
      end.
      cbn [fst snd] in *. subst o. reflexivity.
Qed.

Lemma broadcast_loop_keys es message exclude sentCount n :
  (forall e, In e es -> In (fst e) (JSMap.keys (peers n))) ->
  JSMap.keys (peers (snd (broadcast_loop es message exclude sentCount n))) =
  JSMap.keys (peers n).
Proof.
  revert sentCount n. induction es as [|[key p] es IH]; intros sentCount n Hin.
  - reflexivity.
  - cbn [broadcast_loop].
    destruct (differs key exclude && is_open (readyState (ws p))) eqn:E.
    + apply andb_true_iff in E. destruct E as [_ Hopen].
      unfold bind at 1. unfold Peer_send. rewrite Hopen.
      unfold bind at 1. unfold ws_send, modify.
      assert (Hkeys : JSMap.keys (JSMap.set key (bump p) (peers n)) = JSMap.keys (peers n)).
      { apply JSMapFacts.keys_set_present. apply JSMapFacts.has_In_keys.
        apply (Hin (key, p)). now left. }
      rewrite IH; cbn [peers with_peers with_wire].
      * exact Hkeys.
      * intros e He. fold (bump p). rewrite Hkeys. apply Hin. now right.
    + apply IH. intros e He. apply Hin. now right.
Qed.

Lemma broadcastToPeers_keys message exclude n :
  JSMap.keys (peers (snd (broadcastToPeers message exclude n))) = JSMap.keys (peers n).
Proof.
  unfold broadcastToPeers, bind, gets. apply broadcast_loop_keys.
  intros e He. unfold JSMap.keys, JSMap.entries in *. now apply in_map.
Qed.

Lemma route_keys m socket s :
  JSMap.keys (peers (node (snd (route decode_sync decode_block decode_tx now fresh
                                  m socket s)))) =
  JSMap.keys (peers (node s)).
Proof.
  destruct (route_run m socket s) as (n' & _ & Hn & Hcases). rewrite Hn.
  destruct Hcases as [-> | [-> | [-> | ->]]].
  - reflexivity.
  - destruct (decode_sync (payload m)) as [req|] eqn:Hd.
    + destruct (handleSyncRequest_decoded decode_sync now fresh m socket req (node s) Hd)
        as (resp & Hrun & _).
      now rewrite Hrun.
    + now rewrite handleSyncRequest_undecodable.
  - destruct (decode_block (payload m)) as [b|] eqn:Hd.
    + destruct (JSMap.has (hash b) (blocks (blockchain (node s)))) eqn:Hh.
      * now rewrite (handleBlockBroadcast_known decode_block m b (node s) Hd Hh).
      * rewrite (handleBlockBroadcast_stored decode_block m b (node s) Hd Hh).
        destruct (well_formed b); [now rewrite broadcastToPeers_keys | reflexivity].
    + now rewrite handleBlockBroadcast_undecodable.
  - destruct (decode_tx (payload m)) as [tx|] eqn:Hd.
    + rewrite (handleTransactionBroadcast_relay decode_tx m tx (node s) Hd).
      now rewrite broadcastToPeers_keys.
    + now rewrite handleTransactionBroadcast_undecodable.
Qed.

(** X16.  A connection registers at most once: when its peer is set already,
    or when the envelope has no sender id, [handleMessage] leaves the
    [peer] variable as it is and registers nobody, whatever sender id and
    type the envelope has. *)
Theorem handleMessage_registers_at_most_once
    (conn : Connection) (m : Message) (s : Server) :
  conn_peer conn <> None \/ truthy (senderId m) = None ->
  fst (handleMessage decode_sync decode_block decode_tx now fresh conn m s) = Returned conn /\
  JSMap.keys
    (peers (node (snd (handleMessage decode_sync decode_block decode_tx now fresh conn m s)))) =
    JSMap.keys (peers (node s)).
Proof.
  intros Hcase. rewrite handleMessage_run. cbn [fst snd]. rewrite route_keys.
  unfold before_route. destruct (conn_peer conn) as [k|] eqn:Hp.
  - cbn [fst snd node with_node peers with_peers]. split; [reflexivity|].
    destruct (JSMap.get k (peers (node s))) as [p|] eqn:Hg; [|reflexivity].
    destruct (Nat.eqb _ _); [|reflexivity].
    apply JSMapFacts.keys_set_present. unfold JSMap.has. now rewrite Hg.
  - destruct Hcase as [Hc|Hc]; [contradiction|]. rewrite Hc. split; reflexivity.
Qed.

Lemma route_unknown m socket s :
  match msg_type m with
  | Some t => ~ In t known_types
  | None => True
  end ->
  route decode_sync decode_block decode_tx now fresh m socket s = (Returned tt, s).
Proof.
  unfold route. destruct (msg_type m) as [t|]; [|reflexivity].
  intros Hun.
  assert (Hne : forall k, In k known_types -> String.eqb t k = false).
  { intros k Hk. apply String.eqb_neq. intros ->. contradiction. }
  rewrite !Hne by (unfold known_types; cbn [In]; tauto).
  reflexivity.
Qed.

(** X17.  An envelope of a type that [handleMessage] does not know, or without
    a type, does not reach the ledger: it changes neither blocks,
    transactions, index nor height, nothing is sent to any socket and
    nothing is written to the snapshot file. *)
Theorem handleMessage_ignores_unknown_type
    (conn : Connection) (m : Message) (s : Server) :
  match msg_type m with
  | Some t => ~ In t known_types
  | None => True
  end ->
  let s' := snd (handleMessage decode_sync decode_block decode_tx now fresh conn m s) in
  blockchain (node s') = blockchain (node s) /\
  wire (node s') = wire (node s) /\
  disk (node s') = disk (node s) /\
  statuses s' = statuses s /\
  pings s' = pings s /\
  terminated s' = terminated s.
Proof.
  intros Hun s'. subst s'. rewrite handleMessage_run. cbn [snd].
  rewrite (route_unknown m _ _ Hun). cbn [snd].
  unfold before_route. destruct (conn_peer conn) as [k|].
  - cbn [snd]. repeat split.
  - destruct (truthy (senderId m)); cbn [snd]; repeat split.
Qed.

End Registration.

(* ================================================================== *)
(** ** The liveness sweep *)

Lemma registry_ok_cons k p rest :
  registry_ok ((k, p) :: rest) ->
  ~ In k (JSMap.keys rest) /\
  ~ In (ws_handle (ws p)) (map (fun e => ws_handle (ws (snd e))) rest) /\
  nodeId p = k /\
  registry_ok rest.
Proof.
  intros (Hwf & Hsock & Hid). unfold JSMap.wf in Hwf. cbn [JSMap.keys map fst snd] in *.
  inversion Hwf; subst. inversion Hsock; subst. inversion Hid; subst.
  repeat split; assumption.
Qed.

Lemma swept_other_socket sockets rest :
  (forall h, In h sockets -> ~ In h (map (fun e => ws_handle (ws (snd e))) rest)) ->
  flat_map (swept sockets) rest = rest.
Proof.
  induction rest as [|e rest IH]; intros Hout; [reflexivity|].
  cbn [flat_map]. unfold swept at 1.
  destruct (existsb (Nat.eqb (ws_handle (ws (snd e)))) sockets) eqn:E.
  - apply existsb_exists in E. destruct E as (h & Hh & Heq).
    apply Nat.eqb_eq in Heq. exfalso. apply (Hout h Hh). left. now symmetry.
  - cbn [app]. f_equal. apply IH. intros h Hh Hin. apply (Hout h Hh). now right.
Qed.

Lemma find_by_socket_In h ps k p :
  find_by_socket h ps = Some (k, p) -> In (k, p) ps /\ ws_handle (ws p) = h.
Proof.
  unfold find_by_socket, JSMap.entries. intros Hf. apply find_some in Hf.
  destruct Hf as [Hin Heq]. cbn [snd] in Heq. apply Nat.eqb_eq in Heq. tauto.
Qed.

(** The body of the sweep for one socket, as a pass over the registry. *)
Lemma sweep_socket_registry h ps :
  registry_ok ps ->
  match find_by_socket h ps with
  | Some (k, p) =>
      if negb (isAlive p) then JSMap_delete (nodeId p) ps
      else JSMap.set k (with_isAlive false p) ps
  | None => ps
  end = flat_map (swept [h]) ps.
Proof.
  induction ps as [|[k0 p0] rest IH]; intros Hok; [reflexivity|].
  destruct (registry_ok_cons _ _ _ Hok) as (Hk0 & Hs0 & Hid0 & Hrest).
  unfold find_by_socket, JSMap.entries. cbn [find flat_map snd].
  unfold swept at 1. cbn [fst snd existsb]. rewrite orb_false_r.
  destruct (Nat.eqb (ws_handle (ws p0)) h) eqn:E.
  - apply Nat.eqb_eq in E. subst h.
    rewrite swept_other_socket.
    2: { intros h [<-|[]]. exact Hs0. }
    destruct (isAlive p0); cbn [negb].
    + cbn [JSMap.set]. change (keq k0 k0) with (String.eqb k0 k0).
      now rewrite String.eqb_refl.
    + unfold JSMap_delete. cbn [filter fst]. rewrite Hid0.
      change (keq k0 k0) with (String.eqb k0 k0). rewrite String.eqb_refl. cbn [negb app].
      clear -Hk0. induction rest as [|[k v] rest IH]; [reflexivity|].
      cbn [filter fst]. cbn [JSMap.keys map fst In] in Hk0.
      rewrite (JSMapFacts.keq_neq k0 k) by (intros ->; apply Hk0; now left).
      cbn [negb]. f_equal. apply IH. intros Hin. apply Hk0. now right.
  - specialize (IH Hrest). unfold find_by_socket, JSMap.entries in IH.
    cbn [app]. rewrite <- IH.
    destruct (find (fun e => Nat.eqb (ws_handle (ws (snd e))) h) rest) as [[k p]|] eqn:Hf;
      [|reflexivity].
    destruct (find_by_socket_In h rest k p Hf) as [Hin _].
    assert (Hne : k <> k0).
    { intros ->. apply Hk0. unfold JSMap.keys.
      change k0 with (fst (k0, p)). now apply in_map. }
    assert (Hidp : nodeId p = k).
    { destruct Hrest as (_ & _ & Hall). rewrite Forall_forall in Hall.
      exact (Hall (k, p) Hin). }
    destruct (isAlive p); cbn [negb].
    + cbn [JSMap.set]. now rewrite (JSMapFacts.keq_neq k k0 Hne).
    + unfold JSMap_delete. cbn [filter fst]. rewrite Hidp.
      now rewrite (JSMapFacts.keq_neq k k0 Hne).
Qed.

Lemma swept_socket_kept sockets e e' :
  In e' (swept sockets e) -> ws_handle (ws (snd e')) = ws_handle (ws (snd e)) /\
                              fst e' = fst e /\ nodeId (snd e') = nodeId (snd e).
Proof.
  unfold swept. destruct (existsb _ sockets).
  - destruct (isAlive (snd e)); [|intros []]. intros [<-|[]]. repeat split.
  - intros [<-|[]]. repeat split.
Qed.

Lemma registry_ok_swept sockets ps : registry_ok ps -> registry_ok (flat_map (swept sockets) ps).
Proof.
  induction ps as [|[k0 p0] rest IH]; intros Hok; [exact Hok|].
  destruct (registry_ok_cons _ _ _ Hok) as (Hk0 & Hs0 & Hid0 & Hrest).
  specialize (IH Hrest). destruct IH as (Hwf & Hsock & Hid).
  cbn [flat_map].
  assert (Hkeys : forall k, In k (JSMap.keys (flat_map (swept sockets) rest)) ->
                            In k (JSMap.keys rest)).
  { intros k Hin. unfold JSMap.keys in *. apply in_map_iff in Hin.
    destruct Hin as (e' & <- & He'). apply in_flat_map in He'.
    destruct He' as (e & He & Hsw). apply swept_socket_kept in Hsw.
    destruct Hsw as (_ & -> & _). now apply in_map. }
  assert (Hsocks : forall h, In h (map (fun e => ws_handle (ws (snd e)))
                                     (flat_map (swept sockets) rest)) ->
                             In h (map (fun e => ws_handle (ws (snd e))) rest)).
  { intros h Hin. apply in_map_iff in Hin.
    destruct Hin as (e' & <- & He'). apply in_flat_map in He'.
    destruct He' as (e & He & Hsw). apply swept_socket_kept in Hsw.
    destruct Hsw as (-> & _ & _). now apply (in_map (fun e => ws_handle (ws (snd e)))). }
  unfold swept at 1. cbn [fst snd].
  destruct (existsb (Nat.eqb (ws_handle (ws p0))) sockets);
    [destruct (isAlive p0)|]; cbn [app]; try (repeat split; assumption).
  - repeat split.
    + unfold JSMap.wf. cbn [JSMap.keys map fst]. constructor; [|exact Hwf].
      intros Hin. apply Hk0. now apply Hkeys.
    + cbn [map snd]. constructor; [|exact Hsock].
      cbn [with_isAlive ws]. intros Hin. apply Hs0. now apply Hsocks.
    + constructor; [exact Hid0 | exact Hid].
  - repeat split.
    + unfold JSMap.wf. cbn [JSMap.keys map fst]. constructor; [|exact Hwf].
      intros Hin. apply Hk0. now apply Hkeys.
    + cbn [map snd]. constructor; [|exact Hsock].
      intros Hin. apply Hs0. now apply Hsocks.
    + constructor; [exact Hid0 | exact Hid].
Qed.

Lemma swept_compose h sockets ps :
  ~ In h sockets ->
  flat_map (swept sockets) (flat_map (swept [h]) ps) = flat_map (swept (h :: sockets)) ps.
Proof.
  intros Hout. induction ps as [|e rest IH]; [reflexivity|].
  cbn [flat_map]. rewrite flat_map_app, IH. f_equal.
  unfold swept at 2 3. cbn [existsb]. rewrite orb_false_r.
  destruct (Nat.eqb (ws_handle (ws (snd e))) h) eqn:E; cbn [orb].
  - apply Nat.eqb_eq in E.
    destruct (isAlive (snd e)); [|reflexivity].
    cbn [flat_map]. rewrite app_nil_r. unfold swept. cbn [fst snd with_isAlive ws].
    destruct (existsb (Nat.eqb (ws_handle (ws (snd e)))) sockets) eqn:E2; [|reflexivity].
    apply existsb_exists in E2. destruct E2 as (h' & Hh' & Heq).
    apply Nat.eqb_eq in Heq. exfalso. apply Hout. congruence.
  - cbn [flat_map]. rewrite app_nil_r. reflexivity.
Qed.

Lemma find_by_socket_swept h h' ps :
  h' <> h ->
  option_map (fun e => isAlive (snd e)) (find_by_socket h' (flat_map (swept [h]) ps)) =
  option_map (fun e => isAlive (snd e)) (find_by_socket h' ps).
Proof.
  intros Hne. unfold find_by_socket, JSMap.entries.
  induction ps as [|e rest IH]; [reflexivity|].
  cbn [flat_map find]. unfold swept at 1. cbn [existsb]. rewrite orb_false_r.
  destruct (Nat.eqb (ws_handle (ws (snd e))) h) eqn:E.
  - apply Nat.eqb_eq in E.
    assert (Hskip : Nat.eqb (ws_handle (ws (snd e))) h' = false).
    { apply Nat.eqb_neq. congruence. }
    rewrite Hskip. destruct (isAlive (snd e)); cbn [app find fst snd with_isAlive ws].
    + rewrite Hskip. exact IH.
    + exact IH.
  - cbn [app find]. destruct (Nat.eqb (ws_handle (ws (snd e))) h'); [reflexivity | exact IH].
Qed.

Lemma pinged_by_swept h h' ps :
  h' <> h ->
  pinged_by (flat_map (swept [h]) ps) h' = pinged_by ps h' /\
  terminated_by (flat_map (swept [h]) ps) h' = terminated_by ps h'.
Proof.
  intros Hne. pose proof (find_by_socket_swept h h' ps Hne) as Hf.
  unfold pinged_by, terminated_by.
  destruct (find_by_socket h' (flat_map (swept [h]) ps)) as [[k1 p1]|];
    destruct (find_by_socket h' ps) as [[k2 p2]|]; cbn [option_map snd] in Hf;
    try discriminate; [|split; reflexivity].
  inversion Hf as [Ha]. rewrite Ha. split; reflexivity.
Qed.

Lemma with_peers_same n : with_peers (peers n) n = n.
Proof. destruct n; reflexivity. Qed.

Lemma sweep_socket_run h s :
  registry_ok (peers (node s)) ->
  sweep_socket h s =
  (Returned tt,
   {| node := with_peers (flat_map (swept [h]) (peers (node s))) (node s);
      clients := clients s; statuses := statuses s;
      pings := pings s ++ pinged_by (peers (node s)) h;
      terminated := terminated s ++ terminated_by (peers (node s)) h |}).
Proof.
  intros Hok. rewrite <- (sweep_socket_registry h _ Hok).
  unfold sweep_socket, pinged_by, terminated_by, bindS, getsS.
  destruct (find_by_socket h (peers (node s))) as [[k p]|].
  - destruct (isAlive p); cbn [negb];
      unfold modify_peers, modifyS, ws_ping, ws_terminate, with_node;
      cbn [node clients statuses pings terminated]; rewrite app_nil_r; reflexivity.
  - unfold retS. rewrite !app_nil_r, with_peers_same. destruct s; reflexivity.
Qed.

Lemma sweep_loop_run sockets s :
  registry_ok (peers (node s)) ->
  NoDup sockets ->
  forEachS sockets sweep_socket s =
  (Returned tt,
   {| node := with_peers (flat_map (swept sockets) (peers (node s))) (node s);
      clients := clients s; statuses := statuses s;
      pings := pings s ++ flat_map (pinged_by (peers (node s))) sockets;
      terminated := terminated s ++ flat_map (terminated_by (peers (node s))) sockets |}).
Proof.
  revert s. induction sockets as [|h sockets IH]; intros s Hok Hnd.
  - cbn [forEachS flat_map]. unfold retS. rewrite !app_nil_r.
    rewrite swept_other_socket by (intros h []). rewrite with_peers_same.
    destruct s; reflexivity.
  - inversion Hnd as [|? ? Hout Hnd']; subst.
    cbn [forEachS]. unfold bindS. rewrite (sweep_socket_run h s Hok).
    rewrite IH; cbn [node with_peers peers clients statuses pings terminated].
    + rewrite swept_compose by exact Hout.
      assert (Hlogs : flat_map (pinged_by (flat_map (swept [h]) (peers (node s)))) sockets =
                      flat_map (pinged_by (peers (node s))) sockets /\
                      flat_map (terminated_by (flat_map (swept [h]) (peers (node s)))) sockets =
                      flat_map (terminated_by (peers (node s))) sockets).
      { clear -Hout. induction sockets as [|h' sockets IH]; [split; reflexivity|].
        cbn [flat_map].
        assert (Hne : h' <> h) by (intros ->; apply Hout; now left).
        destruct (pinged_by_swept h h' (peers (node s)) Hne) as [-> ->].
        destruct IH as [-> ->]; [intros Hin; apply Hout; now right|].
        split; reflexivity. }
      destruct Hlogs as [-> ->]. cbn [flat_map]. rewrite <- !app_assoc. reflexivity.
    + now apply registry_ok_swept.
    + exact Hnd'.
Qed.

Lemma sweep_run s :
  registry_ok (peers (node s)) ->
  NoDup (clients s) ->
  execS sweep s =
  {| node := with_peers (flat_map (swept (clients s)) (peers (node s))) (node s);
     clients := clients s; statuses := statuses s;
     pings := pings s ++ flat_map (pinged_by (peers (node s))) (clients s);
     terminated := terminated s ++ flat_map (terminated_by (peers (node s))) (clients s) |}.
Proof.
  intros Hok Hnd. unfold execS, sweep, bindS, getsS.
  now rewrite (sweep_loop_run (clients s) s Hok Hnd).
Qed.

Lemma keys_swept sockets ps k :
  In k (JSMap.keys (flat_map (swept sockets) ps)) -> In k (JSMap.keys ps).
Proof.
  unfold JSMap.keys. intros Hin. apply in_map_iff in Hin.
  destruct Hin as (e' & <- & He'). apply in_flat_map in He'.
  destruct He' as (e & He & Hsw). apply swept_socket_kept in Hsw.
  destruct Hsw as (_ & -> & _). now apply in_map.
Qed.

(** The entry of an id after one sweep. *)
Lemma get_swept sockets ps k :
  JSMap.wf ps ->
  JSMap.get k (flat_map (swept sockets) ps) =
  match JSMap.get k ps with
  | Some p =>
      if existsb (Nat.eqb (ws_handle (ws p))) sockets
      then if isAlive p then Some (with_isAlive false p) else None
      else Some p
  | None => None
  end.
Proof.
  unfold JSMap.wf. induction ps as [|[k0 p0] rest IH]; intros Hnd; [reflexivity|].
  inversion Hnd as [|? ? Hout Hnd']; subst.
  cbn [flat_map JSMap.get]. unfold swept at 1. cbn [fst snd].
  destruct (keq k k0) eqn:E.
  - apply String.eqb_eq in E. subst k0.
    destruct (existsb (Nat.eqb (ws_handle (ws p0))) sockets);
      [destruct (isAlive p0)|]; cbn [app JSMap.get];
      try (change (keq k k) with (String.eqb k k); now rewrite String.eqb_refl).
    apply JSMapFacts.get_None_keys. intros Hin. apply Hout. now apply keys_swept in Hin.
  - destruct (existsb (Nat.eqb (ws_handle (ws p0))) sockets);
      [destruct (isAlive p0)|]; cbn [app JSMap.get]; try rewrite E; now apply IH.
Qed.

Lemma NoDup_map_injective {A B} (f : A -> B) (l : list A) (a b : A) :
  NoDup (map f l) -> In a l -> In b l -> f a = f b -> a = b.
Proof.
  induction l as [|x l IH]; intros Hnd Ha Hb Hf; [destruct Ha|].
  cbn [map] in Hnd. inversion Hnd as [|? ? Hout Hnd']; subst.
  destruct Ha as [->|Ha]; destruct Hb as [->|Hb]; try reflexivity.
  - exfalso. apply Hout. rewrite Hf. now apply in_map.
  - exfalso. apply Hout. rewrite <- Hf. now apply in_map.
  - now apply IH.
Qed.

Lemma find_by_socket_iff h ps k p :
  registry_ok ps ->
  find_by_socket h ps = Some (k, p) <->
  JSMap.get k ps = Some p /\ ws_handle (ws p) = h.
Proof.
  intros (Hwf & Hsock & _). split.
  - intros Hf. destruct (find_by_socket_In h ps k p Hf) as [Hin Hh].
    split; [now apply JSMapFacts.In_wf_get | exact Hh].
  - intros [Hg Hh]. apply get_In_entries in Hg.
    unfold find_by_socket, JSMap.entries.
    destruct (find (fun e => Nat.eqb (ws_handle (ws (snd e))) h) ps) as [[k' p']|] eqn:Hf.
    + apply find_some in Hf. destruct Hf as [Hin' Heq]. cbn [snd] in Heq.
      apply Nat.eqb_eq in Heq.
      f_equal. apply (NoDup_map_injective (fun e => ws_handle (ws (snd e))) ps); auto.
      cbn [snd]. congruence.
    + exfalso. pose proof (find_none _ _ Hf (k, p) Hg) as Hno. cbn [snd] in Hno.
      apply Nat.eqb_neq in Hno. contradiction.
Qed.

Lemma In_pinged h ps sockets :
  registry_ok ps ->
  In h (flat_map (pinged_by ps) sockets) <->
  In h sockets /\ exists k p, JSMap.get k ps = Some p /\ ws_handle (ws p) = h /\ isAlive p = true.
Proof.
  intros Hok. rewrite in_flat_map. split.
  - intros (h' & Hh' & Hin). unfold pinged_by in Hin.
    destruct (find_by_socket h' ps) as [[k p]|] eqn:Hf; [|destruct Hin].
    destruct (isAlive p) eqn:Ha; [|destruct Hin]. destruct Hin as [<-|[]].
    apply (find_by_socket_iff h' ps k p Hok) in Hf. destruct Hf as [Hg Hh].
    split; [exact Hh'|]. exists k, p. auto.
  - intros (Hin & k & p & Hg & Hh & Ha). exists h. split; [exact Hin|].
    unfold pinged_by.
    rewrite (proj2 (find_by_socket_iff h ps k p Hok) (conj Hg Hh)), Ha. now left.
Qed.

Lemma In_terminated h ps sockets :
  registry_ok ps ->
  In h (flat_map (terminated_by ps) sockets) <->
  In h sockets /\ exists k p, JSMap.get k ps = Some p /\ ws_handle (ws p) = h /\ isAlive p = false.
Proof.
  intros Hok. rewrite in_flat_map. split.
  - intros (h' & Hh' & Hin). unfold terminated_by in Hin.
    destruct (find_by_socket h' ps) as [[k p]|] eqn:Hf; [|destruct Hin].
    destruct (isAlive p) eqn:Ha; [destruct Hin|]. destruct Hin as [<-|[]].
    apply (find_by_socket_iff h' ps k p Hok) in Hf. destruct Hf as [Hg Hh].
    split; [exact Hh'|]. exists k, p. auto.
  - intros (Hin & k & p & Hg & Hh & Ha). exists h. split; [exact Hin|].
    unfold terminated_by.
    rewrite (proj2 (find_by_socket_iff h ps k p Hok) (conj Hg Hh)), Ha. now left.
Qed.

(** X18.  One liveness sweep: a registered peer whose socket is among the
    server's clients is pinged and marked as not alive if it was alive,
    and is removed from the registry and has its socket terminated if it
    was not; every other registry entry, the ledger and the wire stay as
    they are. *)
Theorem sweep_pings_the_living_and_evicts_the_silent (s : Server) :
  registry_ok (peers (node s)) ->
  NoDup (clients s) ->
  let s' := execS sweep s in
  (forall k,
     JSMap.get k (peers (node s')) =
     match JSMap.get k (peers (node s)) with
     | Some p =>
         if existsb (Nat.eqb (ws_handle (ws p))) (clients s)
         then if isAlive p then Some (with_isAlive false p) else None
         else Some p
     | None => None
     end) /\
  (forall h, In h (pings s') <->
     In h (pings s) \/
     (In h (clients s) /\
      exists k p, JSMap.get k (peers (node s)) = Some p /\
                  ws_handle (ws p) = h /\ isAlive p = true)) /\
  (forall h, In h (terminated s') <->
     In h (terminated s) \/
     (In h (clients s) /\
      exists k p, JSMap.get k (peers (node s)) = Some p /\
                  ws_handle (ws p) = h /\ isAlive p = false)) /\
  blockchain (node s') = blockchain (node s) /\
  wire (node s') = wire (node s) /\
  clients s' = clients s.
Proof.
  intros Hok Hnd s'. subst s'. rewrite (sweep_run s Hok Hnd).
  cbn [node peers with_peers pings terminated blockchain wire clients].
  split; [|split; [|split; [|repeat split]]].
  - intros k. apply get_swept. apply Hok.
  - intros h. rewrite in_app_iff, (In_pinged h _ _ Hok). reflexivity.
  - intros h. rewrite in_app_iff, (In_terminated h _ _ Hok). reflexivity.
Qed.

(** X19.  Two sweeps with no pong in between evict every registered peer whose
    socket is among the server's clients, alive or not, and leave the
    other registry entries alone. *)
Theorem two_sweeps_without_pong_evict (s : Server) :
  registry_ok (peers (node s)) ->
  NoDup (clients s) ->
  forall k,
    JSMap.get k (peers (node (execS sweep (execS sweep s)))) =
    match JSMap.get k (peers (node s)) with
    | Some p =>
        if existsb (Nat.eqb (ws_handle (ws p))) (clients s) then None else Some p
    | None => None
    end.
Proof.
  intros Hok Hnd k.
  assert (Hok1 : registry_ok (peers (node (execS sweep s)))).
  { rewrite (sweep_run s Hok Hnd). cbn [node peers with_peers]. now apply registry_ok_swept. }
  assert (Hcl : clients (execS sweep s) = clients s).
  { now rewrite (sweep_run s Hok Hnd). }
  rewrite (sweep_run (execS sweep s) Hok1) by (rewrite Hcl; exact Hnd).
  cbn [node peers with_peers]. rewrite Hcl.
  rewrite get_swept by apply Hok1.
  rewrite (sweep_run s Hok Hnd). cbn [node peers with_peers].
  rewrite get_swept by apply Hok.
  destruct (JSMap.get k (peers (node s))) as [p|]; [|reflexivity].
  destruct (existsb (Nat.eqb (ws_handle (ws p))) (clients s)) eqn:E.
  - destruct (isAlive p); [|reflexivity].
    cbn [with_isAlive ws isAlive]. rewrite E. reflexivity.
  - rewrite E. reflexivity.
Qed.

Lemma set_set {V} (k : string) (v v' : V) (m : JSMap.t string V) :
  JSMap.set k v (JSMap.set k v' m) = JSMap.set k v m.
Proof.
  induction m as [|[k0 v0] rest IH]; cbn [JSMap.set].
  - change (keq k k) with (String.eqb k k). now rewrite String.eqb_refl.
  - destruct (keq k k0) eqn:E; cbn [JSMap.set]; rewrite E; [reflexivity | now rewrite IH].
Qed.

Lemma registry_ok_set_same ps k p p' :
  registry_ok ps ->
  JSMap.get k ps = Some p ->
  ws p' = ws p -> nodeId p' = nodeId p ->
  registry_ok (JSMap.set k p' ps).
Proof.
  intros Hok Hg Hws Hid.
  assert (Hmap : forall (B : Type) (f : string * Peer -> B),
            f (k, p') = f (k, p) -> map f (JSMap.set k p' ps) = map f ps).
  { intros B f Hf. clear Hok. revert Hg.
    induction ps as [|[k0 p0] rest IH]; cbn [JSMap.get JSMap.set]; [discriminate|].
    destruct (keq k k0) eqn:E.
    - intros Hg. inversion Hg; subst p0. apply String.eqb_eq in E. subst k0.
      cbn [map]. now rewrite Hf.
    - intros Hg. cbn [map]. now rewrite IH. }
  destruct Hok as (Hwf & Hsock & Hall). repeat split.
  - now apply JSMapFacts.wf_set.
  - rewrite Hmap; [exact Hsock | cbn [snd]; now rewrite Hws].
  - rewrite Forall_forall in *. intros [k1 p1] Hin.
    clear Hmap Hwf Hsock. revert Hg Hin.
    induction ps as [|[k0 p0] rest IH]; cbn [JSMap.get JSMap.set]; [discriminate|].
    destruct (keq k k0) eqn:E.
    + intros Hg [Heq|Hin].
      * inversion Heq; subst. inversion Hg; subst. cbn [fst snd]. rewrite Hid.
        exact (Hall (k1, p) (or_introl eq_refl)).
      * apply Hall. now right.
    + intros Hg [Heq|Hin].
      * apply Hall. now left.
      * apply IH; [|exact Hg|exact Hin]. intros e He. apply Hall. now right.
Qed.

Lemma on_pong_run now conn s k p :
  conn_peer conn = Some k ->
  JSMap.get k (peers (node s)) = Some p ->
  ws_handle (ws p) = ws_handle (conn_ws conn) ->
  execS (on_pong now conn) s =
  with_node
    (with_peers
       (JSMap.set k (with_lastSeen now (with_isAlive true p)) (peers (node s)))
       (node s)) s.
Proof.
  intros Hp Hg Hh. unfold execS, on_pong. rewrite Hp.
  unfold bindS, write_own_peer, modify_peers, modifyS.
  cbn [snd node with_node peers with_peers].
  rewrite Hg, Hh, Nat.eqb_refl. rewrite JSMapFacts.get_set_same.
  cbn [with_isAlive ws]. rewrite Hh, Nat.eqb_refl. rewrite set_set.
  destruct s as [n cs st pi te]. destruct n. reflexivity.
Qed.

(** X20.  A pong between two sweeps keeps the peer: a registered, alive peer
    whose socket is among the server's clients and whose connection
    answers the ping of the first sweep is still registered after the
    second sweep, marked as just seen and waiting for the next pong; its
    socket has been pinged and not terminated. *)
Theorem pong_between_sweeps_keeps_the_peer
    (now : Z) (conn : Connection) (s : Server) (k : string) (p : Peer) :
  registry_ok (peers (node s)) ->
  NoDup (clients s) ->
  conn_peer conn = Some k ->
  JSMap.get k (peers (node s)) = Some p ->
  ws_handle (ws p) = ws_handle (conn_ws conn) ->
  In (ws_handle (conn_ws conn)) (clients s) ->
  isAlive p = true ->
  let s3 := execS sweep (execS (on_pong now conn) (execS sweep s)) in
  JSMap.get k (peers (node s3)) = Some (with_isAlive false (with_lastSeen now p)) /\
  In (ws_handle (conn_ws conn)) (pings s3) /\
  (In (ws_handle (conn_ws conn)) (terminated s3) ->
   In (ws_handle (conn_ws conn)) (terminated s)).
Proof.
  intros Hok Hnd Hp Hg Hh Hin Ha s3.
  assert (Hex : existsb (Nat.eqb (ws_handle (ws p))) (clients s) = true).
  { apply existsb_exists. exists (ws_handle (conn_ws conn)).
    split; [exact Hin | now apply Nat.eqb_eq]. }
  pose proof (sweep_run s Hok Hnd) as Hs1.
  set (s1 := execS sweep s) in *.
  assert (Hok1 : registry_ok (peers (node s1))).
  { rewrite Hs1. cbn [node peers with_peers]. now apply registry_ok_swept. }
  assert (Hg1 : JSMap.get k (peers (node s1)) = Some (with_isAlive false p)).
  { rewrite Hs1. cbn [node peers with_peers]. rewrite get_swept by apply Hok.
    now rewrite Hg, Hex, Ha. }
  assert (Hcl1 : clients s1 = clients s) by now rewrite Hs1.
  pose proof (on_pong_run now conn s1 k (with_isAlive false p) Hp Hg1 Hh) as Hs2.
  set (s2 := execS (on_pong now conn) s1) in *.
  set (p2 := with_lastSeen now (with_isAlive true (with_isAlive false p))) in *.
  assert (Hok2 : registry_ok (peers (node s2))).
  { rewrite Hs2. cbn [node with_node peers with_peers].
    now apply (registry_ok_set_same _ k (with_isAlive false p)). }
  assert (Hg2 : JSMap.get k (peers (node s2)) = Some p2).
  { rewrite Hs2. cbn [node with_node peers with_peers]. apply JSMapFacts.get_set_same. }
  assert (Hcl2 : clients s2 = clients s) by (rewrite Hs2; exact Hcl1).
  assert (Hnd2 : NoDup (clients s2)) by (rewrite Hcl2; exact Hnd).
  pose proof (sweep_run s2 Hok2 Hnd2) as Hs3. fold s3 in Hs3.
  split; [|split].
  - rewrite Hs3. cbn [node peers with_peers]. rewrite get_swept by apply Hok2.
    rewrite Hg2, Hcl2. subst p2. cbn [with_lastSeen with_isAlive ws isAlive].
    rewrite Hex. reflexivity.
  - rewrite Hs3. cbn [pings]. apply in_or_app. right.
    apply (In_pinged _ _ _ Hok2). rewrite Hcl2. split; [exact Hin|].
    exists k, p2. split; [exact Hg2|]. split; [exact Hh | reflexivity].
  - rewrite Hs3. cbn [terminated]. rewrite in_app_iff.
    intros [Hin2|Hin2].
    + rewrite Hs2 in Hin2. cbn [terminated with_node] in Hin2.
      rewrite Hs1 in Hin2. cbn [terminated] in Hin2.
      apply in_app_or in Hin2. destruct Hin2 as [Hin2|Hin2]; [exact Hin2|].
      exfalso. apply (In_terminated _ _ _ Hok) in Hin2.
      destruct Hin2 as (_ & k' & p' & Hg' & Hh' & Ha').
      assert (Heq : (k', p') = (k, p)).
      { destruct Hok as (_ & Hsock & _).
        apply (NoDup_map_injective (fun e => ws_handle (ws (snd e))) (peers (node s)));
          [exact Hsock | now apply get_In_entries | now apply get_In_entries |].
        cbn [snd]. congruence. }
      inversion Heq; subst. congruence.
    + exfalso. apply (In_terminated _ _ _ Hok2) in Hin2.
      destruct Hin2 as (_ & k' & p' & Hg' & Hh' & Ha').
      assert (Heq : (k', p') = (k, p2)).
      { destruct Hok2 as (_ & Hsock & _).
        apply (NoDup_map_injective (fun e => ws_handle (ws (snd e))) (peers (node s2)));
          [exact Hsock | now apply get_In_entries | now apply get_In_entries |].
        cbn [snd]. rewrite Hh'. subst p2. cbn [with_lastSeen with_isAlive ws]. now symmetry. }
      inversion Heq; subst. discriminate.
Qed.

(** X21.  Closing a connection whose peer is set removes the registry entry
    under that peer's id, whichever socket the entry holds by then,
    leaves the entries of all other ids alone, and takes the socket out
    of the server's clients; the ledger is not touched. *)
Theorem on_close_unregisters_the_id (conn : Connection) (s : Server) (k : string) :
  conn_peer conn = Some k ->
  let s' := execS (on_close conn) s in
  JSMap.get k (peers (node s')) = None /\
  (forall j, j <> k -> JSMap.get j (peers (node s')) = JSMap.get j (peers (node s))) /\
  (forall h, In h (clients s') <-> In h (clients s) /\ h <> ws_handle (conn_ws conn)) /\
  blockchain (node s') = blockchain (node s) /\
  wire (node s') = wire (node s).
Proof.
  intros Hp s'. subst s'. unfold execS, on_close. rewrite Hp.
  unfold bindS, modify_peers, modifyS.
  cbn [snd node with_node peers with_peers clients blockchain wire].
  split; [apply get_delete_same|]. split; [intros j Hj; now apply get_delete_other|].
  split; [|split; reflexivity].
  intros h. rewrite filter_In, negb_true_iff, Nat.eqb_neq. reflexivity.
Qed.

Lemma size_set_absent {V} (k : string) (v : V) (m : JSMap.t string V) :
  JSMap.get k m = None -> JSMap.size (JSMap.set k v m) = JSMap.size m + 1.
Proof.
  intros Hg. rewrite (JSMapFacts.set_absent k v m Hg). unfold JSMap.size.
  rewrite length_app. cbn [List.length]. lia.
Qed.

(** X22.  The first heartbeat of a new peer counts that peer: when the first
    envelope on a connection is a [heartbeat] with a sender id that is not
    registered yet, the answer on that socket reports the stored height
    and a peer count that is one more than the registry held before, and
    the ledger is left alone. *)
Theorem first_heartbeat_counts_the_new_peer
    (decode_sync : option string -> option SyncRequest)
    (decode_block : option string -> option Block)
    (decode_tx : option string -> option Transaction)
    (now : Z) (fresh : string)
    (conn : Connection) (m : Message) (s : Server) (id : string) :
  conn_peer conn = None ->
  truthy (senderId m) = Some id ->
  JSMap.get id (peers (node s)) = None ->
  msg_type m = Some "heartbeat" ->
  let s' := snd (handleMessage decode_sync decode_block decode_tx now fresh conn m s) in
  statuses s' =
    statuses s ++
    [(ws_handle (conn_ws conn),
      {| s_id := fresh; s_type := "heartbeat"; s_senderId := "seed_node";
         s_payload := HeartbeatInfo now (chain_height (blockchain (node s)))
                        (JSMap.size (peers (node s)) + 1);
         s_timestamp := (Number.of_Z now / 1000)%float |})] /\
  blockchain (node s') = blockchain (node s) /\
  wire (node s') = wire (node s).
Proof.
  intros Hp Hid Hnew Hty s'. subst s'.
  rewrite (handleMessage_fresh_run decode_sync decode_block decode_tx now fresh
             conn m s id Hp Hid).
  cbn [snd]. unfold route. rewrite Hty.
  cbn [String.eqb Ascii.eqb Bool.eqb orb].
  unfold handleHeartbeat, bindS, getsS, send_status, modifyS.
  cbn [snd node with_node peers with_peers statuses blockchain wire].
  rewrite (size_set_absent _ _ _ Hnew). repeat split.
Qed.

(* ================================================================== *)
(** ** The transactions of an accepted block *)




(* ================================================================== *)
(** ** A whole visit *)

Lemma delete_set_absent {V} (k : string) (v : V) (m : JSMap.t string V) :
  JSMap.get k m = None -> JSMap_delete k (JSMap.set k v m) = m.
Proof.
  intros Hg. rewrite (JSMapFacts.set_absent k v m Hg). unfold JSMap_delete.
  rewrite filter_app. cbn [filter fst].
  change (keq k k) with (String.eqb k k). rewrite String.eqb_refl. cbn [negb].
  rewrite app_nil_r. apply JSMapFacts.get_None_keys in Hg.
  induction m as [|[k0 v0] rest IH]; [reflexivity|].
  cbn [filter fst]. cbn [JSMap.keys map fst In] in Hg.
  rewrite (JSMapFacts.keq_neq k k0) by (intros ->; apply Hg; now left).
  cbn [negb]. f_equal. apply IH. intros Hin. apply Hg. now right.
Qed.

Lemma filter_out_appended (h : nat) (l : list nat) :
  ~ In h l -> filter (fun x => negb (Nat.eqb x h)) (l ++ [h]) = l.
Proof.
  intros Hout. rewrite filter_app. cbn [filter]. rewrite Nat.eqb_refl. cbn [negb].
  rewrite app_nil_r. induction l as [|x l IH]; [reflexivity|].
  cbn [filter]. destruct (Nat.eqb x h) eqn:E.
  - apply Nat.eqb_eq in E. subst x. exfalso. apply Hout. now left.
  - cbn [negb]. f_equal. apply IH. intros Hin. apply Hout. now right.
Qed.

Section Visit.

Variable decode_envelope : string -> option Message.
Variable decode_sync : option string -> option SyncRequest.
Variable decode_block : option string -> option Block.
Variable decode_tx : option string -> option Transaction.
Variable now : Z.
Variable fresh : string.

(** Outside the four broadcast types, [route] leaves the registry, the
    ledger and the client set alone. *)
Lemma route_without_broadcast m socket s :
  match msg_type m with
  | Some t => ~ In t broadcast_types
  | None => True
  end ->
  peers (node (snd (route decode_sync decode_block decode_tx now fresh m socket s))) =
    peers (node s) /\
  blockchain (node (snd (route decode_sync decode_block decode_tx now fresh m socket s))) =
    blockchain (node s) /\
  clients (snd (route decode_sync decode_block decode_tx now fresh m socket s)) = clients s.
Proof.
  unfold route. destruct (msg_type m) as [t|]; [|repeat split].
  intros Hnb.
  assert (Hne : forall k, In k broadcast_types -> String.eqb t k = false).
  { intros k Hk. apply String.eqb_neq. intros ->. contradiction. }
  rewrite !(Hne "blockBroadcast"), !(Hne "block_broadcast"),
    !(Hne "transactionBroadcast"), !(Hne "transaction_broadcast")
    by (unfold broadcast_types; cbn [In]; tauto).
  cbn [orb].
  destruct (String.eqb t "handshake"); [repeat split|].
  destruct (String.eqb t "syncRequest" || String.eqb t "sync_request").
  - rewrite liftS_run. cbn [snd node with_node clients].
    change (snd (handleSyncRequest decode_sync now fresh m socket (node s)))
      with (exec (handleSyncRequest decode_sync now fresh m socket) (node s)).
    destruct (decode_sync (payload m)) as [req|] eqn:Hd.
    + destruct (handleSyncRequest_decoded decode_sync now fresh m socket req (node s) Hd)
        as (resp & Hrun & _).
      rewrite Hrun. repeat split.
    + rewrite handleSyncRequest_undecodable by assumption. repeat split.
  - destruct (String.eqb t "heartbeat"); repeat split.
Qed.

(** X23.  A visit that broadcasts nothing leaves no trace in the registry: a
    socket connects, its first frame carries a sender id that is not
    registered and a type that is not a broadcast, and the connection
    closes; the registry and the set of clients are then what they were
    before the visit, and so is the ledger. *)
Theorem visit_without_broadcast_leaves_no_trace
    (socket : WebSocket) (ip data : string) (m : Message) (s : Server) (id : string) :
  ~ In (ws_handle socket) (clients s) ->
  decode_envelope data = Some m ->
  truthy (senderId m) = Some id ->
  JSMap.get id (peers (node s)) = None ->
  match msg_type m with
  | Some t => ~ In t broadcast_types
  | None => True
  end ->
  exists conn0 s1 conn1 s2,
    on_connection socket ip s = (Returned conn0, s1) /\
    on_message decode_envelope decode_sync decode_block decode_tx now fresh conn0 data s1 =
      (Returned conn1, s2) /\
    JSMap.get id (peers (node s2)) = Some (new_Peer now socket id ip) /\
    peers (node (execS (on_close conn1) s2)) = peers (node s) /\
    clients (execS (on_close conn1) s2) = clients s /\
    blockchain (node (execS (on_close conn1) s2)) = blockchain (node s).
Proof.
  intros Hfresh Hdata Hid Hnew Hnb.
  assert (Hex : existsb (Nat.eqb (ws_handle socket)) (clients s) = false).
  { destruct (existsb (Nat.eqb (ws_handle socket)) (clients s)) eqn:E; [|reflexivity].
    apply existsb_exists in E. destruct E as (h & Hh & Heq).
    apply Nat.eqb_eq in Heq. subst h. contradiction. }
  eexists. eexists. eexists. eexists.
  split.
  { unfold on_connection, bindS, modifyS, retS. rewrite Hex. reflexivity. }
  split.
  { unfold on_message. rewrite Hdata.
    apply (handleMessage_fresh_run decode_sync decode_block decode_tx now fresh);
      [reflexivity | exact Hid]. }
  cbn [conn_ws clientIp].
  match goal with |- context [route decode_sync decode_block decode_tx now fresh m socket ?s1] =>
    destruct (route_without_broadcast m socket s1 Hnb) as (Hpeers & Hchain & Hclients);
    set (s2 := snd (route decode_sync decode_block decode_tx now fresh m socket s1)) in * end.
  cbn [node with_node peers with_peers blockchain clients] in Hpeers, Hchain, Hclients.
  split.
  { rewrite Hpeers. apply JSMapFacts.get_set_same. }
  unfold execS, on_close, bindS, modify_peers, modifyS.
  cbn [conn_peer with_conn_peer snd node with_node peers with_peers clients blockchain conn_ws].
  rewrite Hpeers, Hchain, Hclients. split; [|split; [|reflexivity]].
  - now apply delete_set_absent.
  - now apply filter_out_appended.
Qed.

End Visit.

(* ================================================================== *)
(** ** The properties at work on concrete states *)

Ltac concrete_nodup :=
  repeat (constructor; [cbn; intuition congruence|]); constructor.

Lemma booted_registry_ok : registry_ok (peers Sample.booted).
Proof.
  repeat split.
  - unfold JSMap.wf. vm_compute. concrete_nodup.
  - vm_compute. concrete_nodup.
  - vm_compute. repeat constructor.
Defined.

Lemma booted_reachable :
  reachable Sample.decode_sync Sample.decode_block Sample.decode_tx
    Sample.sha Sample.stringify Sample.booted.
Proof. apply reach_peers, reach_boot. Defined.

Lemma forked_reachable :
  reachable Sample.decode_sync Sample.decode_block Sample.decode_tx
    Sample.sha Sample.stringify Sample.forked.
Proof. apply reach_block, reach_block, booted_reachable. Defined.

Lemma broadcastToPeers_reaches_open_peers_except_sender_witness :
  JSMap.wf (peers Sample.booted) /\
  fst (broadcastToPeers Scenario.block_a_envelope (Some "ios-1") Sample.booted) = Returned 1 /\
  wire (snd (broadcastToPeers Scenario.block_a_envelope (Some "ios-1") Sample.booted)) =
    wire Sample.booted ++ [mkSent 2 (Relayed Scenario.block_a_envelope)].
Proof.
  pose proof (proj1 booted_registry_ok) as Hwf. split; [exact Hwf|].
  destruct (broadcastToPeers_reaches_open_peers_except_sender
              Scenario.block_a_envelope Sample.booted Hwf) as (ps & Hrun & _).
  change (senderId Scenario.block_a_envelope) with (Some "ios-1") in Hrun.
  rewrite Hrun. split; reflexivity.
Defined.

Lemma broadcastToPeers_counts_sent_messages_witness :
  JSMap.get "ios-2"
    (peers (snd (broadcastToPeers Scenario.block_a_envelope (Some "ios-1") Sample.booted))) =
    Some (bump (Sample.peer 2 "ios-2")) /\
  JSMap.get "ios-1"
    (peers (snd (broadcastToPeers Scenario.block_a_envelope (Some "ios-1") Sample.booted))) =
    Some (Sample.peer 1 "ios-1").
Proof.
  pose proof (broadcastToPeers_counts_sent_messages
                Scenario.block_a_envelope Sample.booted (proj1 booted_registry_ok)) as Hget.
  change (senderId Scenario.block_a_envelope) with (Some "ios-1") in Hget.
  split; rewrite Hget; reflexivity.
Defined.

Lemma storeTransaction_then_lookup_witness :
  JSMap.get "t1" (txs (storeTransaction (Some Sample.pay) (blockchain Sample.booted))) =
  Some Sample.pay.
Proof.
  exact (proj1 (storeTransaction_then_lookup (blockchain Sample.booted) Sample.pay "t1" eq_refl)).
Defined.

Lemma calculateBalance_after_store_witness :
  calculateBalance "dave"
    (storeTransaction (Some Sample.one_more)
       (storeTransaction (Some Sample.windfall) (blockchain Sample.booted))) =
  (calculateBalance "dave"
     (storeTransaction (Some Sample.windfall) (blockchain Sample.booted)) + 1)%float.
Proof.
  apply (calculateBalance_after_store
           (storeTransaction (Some Sample.windfall) (blockchain Sample.booted))
           Sample.one_more "t4" "dave").
  - reflexivity.
  - discriminate.
  - vm_compute. intros [Heq|[]]. discriminate Heq.
Defined.

Lemma handleTransactionBroadcast_always_relays_witness :
  wire (Sample.transaction_from "ios-1" "pay" Sample.booted) =
  wire Sample.booted ++
  fan_out (Sample.envelope "transactionBroadcast" "ios-1" "pay") (peers Sample.booted).
Proof.
  exact (proj1 (handleTransactionBroadcast_always_relays Sample.decode_tx
                  (Sample.envelope "transactionBroadcast" "ios-1" "pay")
                  Sample.pay Sample.booted eq_refl)).
Defined.

Lemma sync_lists_the_transactions_of_the_address_witness :
  exists resp,
    wire (Sample.sync_from_socket 1 "sync 0 5"
            (Sample.transaction_from "ios-1" "pay" Sample.booted)) =
      wire (Sample.transaction_from "ios-1" "pay" Sample.booted)
        ++ [mkSent 1 (Response resp)] /\
    In Sample.pay (userTransactions (r_payload resp)).
Proof.
  destruct (sync_lists_the_transactions_of_the_address
              Sample.decode_sync Sample.decode_block Sample.decode_tx
              Sample.sha Sample.stringify
              (Sample.transaction_from "ios-1" "pay" Sample.booted)
              Sample.boot_time "msg-0" (Sample.envelope "syncRequest" "ios-1" "sync 0 5")
              (Sample.socket 1) (Sample.sync_from 0 5) "alice")
    as (resp & Hwire & _ & Hall).
  - apply reach_transaction, booted_reachable.
  - reflexivity.
  - reflexivity.
  - discriminate.
  - exists resp. split; [exact Hwire|]. apply (Hall "t1" Sample.pay); reflexivity.
Defined.


Lemma sync_leaves_out_only_the_higher_blocks_witness :
  exists resp,
    wire (Sample.sync_from_socket 1 "sync 0 1.5" Sample.forked) =
      wire Sample.forked ++ [mkSent 1 (Response resp)] /\
    (~ In Sample.block_b (r_blocks (r_payload resp)) ->
     Z.of_nat (List.length (r_blocks (r_payload resp))) = 1).
Proof.
  destruct (sync_leaves_out_only_the_higher_blocks Sample.decode_sync Sample.boot_time
              "msg-0" (Sample.envelope "syncRequest" "ios-1" "sync 0 1.5") (Sample.socket 1)
              (Sample.sync_from 0 1.5) Sample.forked eq_refl)
    as (resp & Hwire & Hout).
  - reflexivity.
  - exists resp. split; [exact Hwire|]. intros Hmissing.
    destruct (Hout Sample.block_b) as [Hfull _]; [|reflexivity|exact Hmissing|].
    + vm_compute. auto.
    + change (Number.Integer 1 =
              Number.Integer (Z.of_nat (List.length (r_blocks (r_payload resp))))) in Hfull.
      now inversion Hfull.
Defined.

Lemma sample_blocks_finite : finite_heights Sample.decode_block.
Proof.
  intros p b. unfold Sample.decode_block.
  repeat match goal with
         | |- context [Sample.is_payload p ?s] => destruct (Sample.is_payload p s)
         end;
    intros Heq; inversion Heq; reflexivity.
Defined.

Lemma sync_height_bounds_listed_blocks_witness :
  exists resp,
    wire (Sample.sync_from_socket 1 "sync 0 5" Sample.forked) =
      wire Sample.forked ++ [mkSent 1 (Response resp)] /\
    Forall (fun b => (block_height b <= to_number (currentHeight (r_payload resp)))%num)
      (r_blocks (r_payload resp)).
Proof.
  exact (proj2 (sync_height_bounds_listed_blocks
                  Sample.decode_sync Sample.decode_block Sample.decode_tx
                  Sample.sha Sample.stringify Sample.forked Sample.boot_time "msg-0"
                  (Sample.envelope "syncRequest" "ios-1" "sync 0 5") (Sample.socket 1)
                  (Sample.sync_from 0 5) sample_blocks_finite forked_reachable eq_refl)).
Defined.

Lemma forked_plain : plain_ledger (blockchain Sample.forked).
Proof.
  vm_compute. repeat split; repeat (constructor; [split; reflexivity|]);
    repeat (constructor; [reflexivity|]); constructor.
Defined.

Lemma restart_from_snapshot_restores_ledger_witness :
  blockchain
    (exec (initialize 1700000060000 Sample.sha Sample.stringify)
       (with_disk (disk (exec (saveBlockchain 1700000030000) Sample.forked)) initialNode)) =
  blockchain Sample.forked.
Proof.
  exact (proj1 (restart_from_snapshot_restores_ledger
                  Sample.decode_sync Sample.decode_block Sample.decode_tx
                  Sample.sha Sample.stringify Sample.forked
                  1700000030000 1700000060000 forked_reachable forked_plain)).
Defined.


Lemma accepted_block_is_served_by_hash_witness :
  get_block "aa" (Sample.block_from "ios-1" "block a" Sample.booted) = Some Sample.block_a.
Proof.
  exact (proj1 (accepted_block_is_served_by_hash Sample.decode_block Sample.decode_tx
                  Scenario.block_a_envelope Sample.block_a "aa" Sample.booted
                  eq_refl eq_refl eq_refl)).
Defined.

Lemma http_queries_agree_with_sync_witness :
  exists resp,
    wire (Sample.sync_from_socket 1 "sync 0 5" Sample.forked) =
      wire Sample.forked ++ [mkSent 1 (Response resp)] /\
    tl_transactions (get_transactions (Some "alice") (Some 10) Sample.forked) =
      slice0 10 (userTransactions (r_payload resp)) /\
    get_balance "alice" Sample.forked = ("alice", snd (currentBalances (r_payload resp))).
Proof.
  apply (http_queries_agree_with_sync Sample.decode_sync Sample.boot_time "msg-0"
           (Sample.envelope "syncRequest" "ios-1" "sync 0 5") (Sample.socket 1)
           (Sample.sync_from 0 5) "alice" (Some 10) Sample.forked).
  - reflexivity.
  - reflexivity.
  - discriminate.
Defined.

Lemma server_clients_nodup : NoDup (clients Scenario.server).
Proof. cbn. concrete_nodup. Defined.

Lemma handleMessage_registers_first_sender_witness :
  JSMap.get "ios-3"
    (peers (node (snd (handleMessage Sample.decode_sync Sample.decode_block Sample.decode_tx
                         1700000040000 "msg-1" Scenario.newcomer
                         (Sample.envelope "heartbeat" "ios-3" "") Scenario.server)))) =
  Some {| ws := Sample.socket 3; nodeId := "ios-3"; address := "10.0.0.3";
          connectedAt := 1700000040000; lastSeen := 1700000040000;
          messageCount := 0; isAlive := true |}.
Proof.
  exact (proj2 (handleMessage_registers_first_sender
                  Sample.decode_sync Sample.decode_block Sample.decode_tx
                  1700000040000 "msg-1" Scenario.newcomer
                  (Sample.envelope "heartbeat" "ios-3" "") Scenario.server "ios-3"
                  eq_refl eq_refl)).
Defined.

Lemma handleMessage_registers_at_most_once_witness :
  fst (handleMessage Sample.decode_sync Sample.decode_block Sample.decode_tx
         1700000040000 "msg-1" Scenario.first_client
         (Sample.envelope "heartbeat" "ios-9" "") Scenario.server) =
    Returned Scenario.first_client /\
  JSMap.keys
    (peers (node (snd (handleMessage Sample.decode_sync Sample.decode_block Sample.decode_tx
                         1700000040000 "msg-1" Scenario.first_client
                         (Sample.envelope "heartbeat" "ios-9" "") Scenario.server)))) =
    JSMap.keys (peers (node Scenario.server)).
Proof.
  apply (handleMessage_registers_at_most_once
           Sample.decode_sync Sample.decode_block Sample.decode_tx
           1700000040000 "msg-1" Scenario.first_client
           (Sample.envelope "heartbeat" "ios-9" "") Scenario.server).
  left. discriminate.
Defined.

Lemma handleMessage_ignores_unknown_type_witness :
  blockchain
    (node (snd (handleMessage Sample.decode_sync Sample.decode_block Sample.decode_tx
                  1700000040000 "msg-1" Scenario.newcomer
                  (Sample.envelope "gossip" "ios-3" "block a") Scenario.server))) =
  blockchain (node Scenario.server).
Proof.
  refine (proj1 (handleMessage_ignores_unknown_type
                   Sample.decode_sync Sample.decode_block Sample.decode_tx
                   1700000040000 "msg-1" Scenario.newcomer
                   (Sample.envelope "gossip" "ios-3" "block a") Scenario.server _)).
  cbn. intuition discriminate.
Defined.

Lemma sweep_pings_the_living_and_evicts_the_silent_witness :
  JSMap.get "ios-1" (peers (node (execS sweep Scenario.server))) =
    Some (with_isAlive false (Sample.peer 1 "ios-1")) /\
  In 1%nat (pings (execS sweep Scenario.server)).
Proof.
  destruct (sweep_pings_the_living_and_evicts_the_silent Scenario.server
              booted_registry_ok server_clients_nodup) as (Hget & Hping & _).
  split.
  - rewrite Hget. reflexivity.
  - apply Hping. right. split; [now left|].
    exists "ios-1", (Sample.peer 1 "ios-1"). repeat split.
Defined.

Lemma two_sweeps_without_pong_evict_witness :
  JSMap.get "ios-1" (peers (node (execS sweep (execS sweep Scenario.server)))) = None.
Proof.
  rewrite (two_sweeps_without_pong_evict Scenario.server
             booted_registry_ok server_clients_nodup "ios-1").
  reflexivity.
Defined.

Lemma pong_between_sweeps_keeps_the_peer_witness :
  JSMap.get "ios-1"
    (peers (node (execS sweep
                    (execS (on_pong 1700000050000 Scenario.first_client)
                       (execS sweep Scenario.server))))) =
  Some (with_isAlive false (with_lastSeen 1700000050000 (Sample.peer 1 "ios-1"))).
Proof.
  refine (proj1 (pong_between_sweeps_keeps_the_peer 1700000050000 Scenario.first_client
                   Scenario.server "ios-1" (Sample.peer 1 "ios-1")
                   booted_registry_ok server_clients_nodup eq_refl eq_refl eq_refl _ eq_refl)).
  now left.
Defined.

Lemma on_close_unregisters_the_id_witness :
  JSMap.get "ios-1" (peers (node (execS (on_close Scenario.first_client) Scenario.server))) =
  None.
Proof.
  exact (proj1 (on_close_unregisters_the_id Scenario.first_client Scenario.server "ios-1"
                  eq_refl)).
Defined.

Lemma first_heartbeat_counts_the_new_peer_witness :
  statuses (snd (handleMessage Sample.decode_sync Sample.decode_block Sample.decode_tx
                   1700000040000 "msg-1" Scenario.newcomer
                   (Sample.envelope "heartbeat" "ios-3" "") Scenario.server)) =
  [(3%nat,
    {| s_id := "msg-1"; s_type := "heartbeat"; s_senderId := "seed_node";
       s_payload := HeartbeatInfo 1700000040000 (Some 0%float) 3;
       s_timestamp := 1700000040%float |})].
Proof.
  exact (proj1 (first_heartbeat_counts_the_new_peer
                  Sample.decode_sync Sample.decode_block Sample.decode_tx
                  1700000040000 "msg-1" Scenario.newcomer
                  (Sample.envelope "heartbeat" "ios-3" "") Scenario.server "ios-3"
                  eq_refl eq_refl eq_refl eq_refl)).
Defined.

Lemma storeTransaction_new_id_keeps_index_nodup_witness :
  NoDup (index_of "alice" (storeTransaction (Some Sample.pay) (blockchain Sample.booted))).
Proof.
  apply (storeTransaction_new_id_keeps_index_nodup Sample.pay "t1" "alice").
  - reflexivity.
  - vm_compute. constructor.
  - vm_compute. intros [].
Defined.

Lemma visit_without_broadcast_leaves_no_trace_witness :
  exists conn0 s1 conn1 s2,
    on_connection (Sample.socket 4) "10.0.0.4" Scenario.server = (Returned conn0, s1) /\
    on_message (fun _ => Some (Sample.envelope "handshake" "ios-4" ""))
      Sample.decode_sync Sample.decode_block Sample.decode_tx
      1700000040000 "msg-1" conn0 "hello" s1 = (Returned conn1, s2) /\
    JSMap.get "ios-4" (peers (node s2)) =
      Some (new_Peer 1700000040000 (Sample.socket 4) "ios-4" "10.0.0.4") /\
    peers (node (execS (on_close conn1) s2)) = peers (node Scenario.server) /\
    clients (execS (on_close conn1) s2) = clients Scenario.server /\
    blockchain (node (execS (on_close conn1) s2)) = blockchain (node Scenario.server).
Proof.
  apply (visit_without_broadcast_leaves_no_trace
           (fun _ => Some (Sample.envelope "handshake" "ios-4" ""))
           Sample.decode_sync Sample.decode_block Sample.decode_tx
           1700000040000 "msg-1" (Sample.socket 4) "10.0.0.4" "hello"
           (Sample.envelope "handshake" "ios-4" "") Scenario.server "ios-4").
  - cbn. intuition congruence.
  - reflexivity.
  - reflexivity.
  - reflexivity.
  - cbn. intuition discriminate.
Defined.

